(** * ResultsListController: a shallow embedding and its properties

    The controller of [src/ResultsListController.ts] keeps a table of result
    rows, the list of row ids that pass the filter, and the view settings,
    and builds the grouped and sorted data set shown by the Sarif Explorer.

    The embedding follows the TypeScript text method by method.  Mutable
    fields live in a [Controller] record inside a [World] that also holds the
    collaborators the controller talks to (settings store, diagnostic
    collection, explorer sink).  Methods that can raise run in a small
    state-and-exception monad; an exception leaves the mutations made before
    it in place, as in JavaScript. *)

From Stdlib Require Import ZArith List String Ascii DecimalString Lia Bool Permutation.
From Stdlib Require Import DecimalPos DecimalZ Sorted.
Import ListNotations.
Open Scope string_scope.
Open Scope list_scope.
Open Scope Z_scope.

Set Implicit Arguments.

(** ** JavaScript values and completions *)

Module Js.

(** Exceptions the modelled code can raise.  [Unsupported] is raised only by
    the executable pattern fragment of [EcmaRegExp] for syntax it leaves out. *)
Inductive JsError : Type :=
| SyntaxError (msg : string)
| TypeError (msg : string)
| Unsupported (what : string).

Inductive Completion (A : Type) : Type :=
| Normal (a : A)
| Throw (e : JsError).
Arguments Normal {A} a.
Arguments Throw {A} e.

Definition cbind {A B} (c : Completion A) (k : A -> Completion B) : Completion B :=
  match c with
  | Normal a => k a
  | Throw e => Throw e
  end.

(** The values a cell's [value] property holds in this program. *)
Inductive JsVal : Type :=
| VUndefined
| VNum (n : Z)
| VStr (s : string).

(** Result of an arithmetic expression: an integer or NaN. *)
Inductive JsNum : Type :=
| NaN
| Num (n : Z).

Definition JsVal_eqb (a b : JsVal) : bool :=
  match a, b with
  | VUndefined, VUndefined => true
  | VNum x, VNum y => Z.eqb x y
  | VStr s, VStr t => String.eqb s t
  | _, _ => false
  end.

(** Number-to-string conversion of an integer, as in a template literal. *)
Definition string_of_Z (n : Z) : string := NilZero.string_of_int (Z.to_int n).

(** [ToString] on the values above. *)
Definition ToString (v : JsVal) : string :=
  match v with
  | VUndefined => "undefined"
  | VNum n => string_of_Z n
  | VStr s => s
  end.

Definition optStr (o : option string) : JsVal :=
  match o with
  | Some s => VStr s
  | None => VUndefined
  end.

(** *** Strings

    Characters stand for the code units U+0000 to U+00FF. *)

(** White space and line terminators of that range, the set
    [String.prototype.trim] strips. *)
Definition isTrimmable (c : ascii) : bool :=
  let n := nat_of_ascii c in
  (Nat.eqb n 9 || Nat.eqb n 10 || Nat.eqb n 11 || Nat.eqb n 12
   || Nat.eqb n 13 || Nat.eqb n 32 || Nat.eqb n 160)%bool.

Fixpoint trimStart (s : string) : string :=
  match s with
  | EmptyString => EmptyString
  | String c t => if isTrimmable c then trimStart t else s
  end.

(** Drops trailing white space: a character is kept when it is not white
    space or something is kept after it. *)
Fixpoint trimEnd (s : string) : string :=
  match s with
  | EmptyString => EmptyString
  | String c t =>
      match trimEnd t with
      | EmptyString => if isTrimmable c then EmptyString else String c EmptyString
      | t' => String c t'
      end
  end.

Definition trim (s : string) : string := trimEnd (trimStart s).

(** *** Arrays *)

(** [Array.prototype.indexOf] on an array of strings: first index, or -1. *)
Fixpoint indexOf (l : list string) (x : string) : Z :=
  match l with
  | [] => -1
  | y :: t =>
      if String.eqb y x then 0
      else let i := indexOf t x in if i =? -1 then -1 else i + 1
  end.

(** [Array.prototype.splice(start)], with the delete count left out:
    everything from [start] to the end goes. *)
Definition splice1 {A} (l : list A) (start : Z) : list A :=
  if start <? 0
  then firstn (Z.to_nat (Z.max (Z.of_nat (List.length l) + start) 0)) l
  else firstn (Z.to_nat start) l.

(** [Array.prototype.splice(start, 1)]. *)
Definition splice_one {A} (l : list A) (start : Z) : list A :=
  if start <? 0 then l
  else firstn (Z.to_nat start) l ++ skipn (S (Z.to_nat start)) l.

(** [Array.prototype.sort(comparefn)], after the sort of the engine (V8's
    TimSort) on an array of objects without holes.  An array shorter than
    two is returned as it is.  Otherwise the run that starts the array is
    found, ascending, or strictly descending and then reversed, and every
    further element is put into the sorted part by binary insertion.  The
    comparator is called with the later element first; it may raise, which
    aborts the sort, and a NaN result counts as 0.  This is what the engine
    does with an array shorter than 64; a longer one it sorts run by run in
    this way and merges the runs, to the same result when the comparator is
    consistent. *)
Section Sort.
Variable A : Type.
Variable comparefn : A -> A -> Completion JsNum.

(** [order < 0]. *)
Definition isNegative (order : JsNum) : bool :=
  match order with
  | NaN => false
  | Num z => z <? 0
  end.

(** BinaryInsertionSort, the search for the place of [pivot] in the sorted
    part [work] and the insertion there: the element in the middle of the
    part still searched is compared, and the search goes on to its left
    when [pivot] is less and to its right otherwise.  [steps] bounds the
    halvings; the length of [work] is enough. *)
Fixpoint binaryInsert (steps : nat) (pivot : A) (work : list A) : Completion (list A) :=
  match steps with
  | O => Normal (pivot :: work)
  | S steps' =>
      let mid := Nat.div2 (List.length work) in
      match skipn mid work with
      | [] => Normal (work ++ [pivot])
      | y :: above =>
          cbind (comparefn pivot y) (fun order =>
            if isNegative order
            then cbind (binaryInsert steps' pivot (firstn mid work))
                       (fun below' => Normal (below' ++ y :: above))
            else cbind (binaryInsert steps' pivot above)
                       (fun above' => Normal (firstn mid work ++ y :: above')))
      end
  end.

(** The loop of CountAndMakeRun: the run goes on while each element
    compares with the one before it as the first two did.  Gives the
    elements taken and those left. *)
Fixpoint runRest (descending : bool) (previous : A) (l : list A)
  : Completion (list A * list A) :=
  match l with
  | [] => Normal ([], [])
  | current :: t =>
      cbind (comparefn current previous) (fun order =>
        if (if descending then negb (isNegative order) else isNegative order)
        then Normal ([], l)
        else cbind (runRest descending current t)
                   (fun taken => Normal (current :: fst taken, snd taken)))
  end.

(** CountAndMakeRun on an array of two or more: the run, reversed when it
    descends, and the elements after it. *)
Definition countAndMakeRun (first second : A) (l : list A)
  : Completion (list A * list A) :=
  cbind (comparefn second first) (fun order =>
    let descending := isNegative order in
    cbind (runRest descending second l) (fun taken =>
      let run := first :: second :: fst taken in
      Normal (if descending then rev run else run, snd taken))).

(** The loop of BinaryInsertionSort over the elements after the run. *)
Fixpoint insertRest (work rest : list A) : Completion (list A) :=
  match rest with
  | [] => Normal work
  | pivot :: rest' =>
      cbind (binaryInsert (List.length work) pivot work)
            (fun work' => insertRest work' rest')
  end.

Definition arraySort (l : list A) : Completion (list A) :=
  match l with
  | first :: second :: t =>
      cbind (countAndMakeRun first second t)
            (fun made => insertRest (fst made) (snd made))
  | _ => Normal l
  end.
End Sort.

(** *** Map

    A [Map] keeps its entries in insertion order; [set] on a present key
    replaces the value in place. *)
Section Map.
Variables K V : Type.
Variable keq : K -> K -> bool.

Definition JsMap := list (K * V).

Fixpoint mapGet (m : JsMap) (k : K) : option V :=
  match m with
  | [] => None
  | (k', v) :: t => if keq k' k then Some v else mapGet t k
  end.

Definition mapHas (m : JsMap) (k : K) : bool :=
  match mapGet m k with Some _ => true | None => false end.

Fixpoint mapSet (m : JsMap) (k : K) (v : V) : JsMap :=
  match m with
  | [] => [(k, v)]
  | (k', v') :: t => if keq k' k then (k', v) :: t else (k', v') :: mapSet t k v
  end.

Fixpoint mapDelete (m : JsMap) (k : K) : JsMap :=
  match m with
  | [] => []
  | (k', v') :: t => if keq k' k then t else (k', v') :: mapDelete t k
  end.

Definition mapSize (m : JsMap) : Z := Z.of_nat (List.length m).
Definition mapKeys (m : JsMap) : list K := map fst m.
Definition mapValues (m : JsMap) : list V := map snd m.
End Map.

End Js.
Export Js.

(** ** The runtime services the controller calls

    [RegExp] and [String.prototype.localeCompare] belong to the JavaScript
    runtime, not to this repository.  The controller is written against this
    interface; [newRegExp pattern flags] is [new RegExp(pattern, flags)],
    which raises a [SyntaxError] on a malformed pattern, and [regExpTest] is
    [RegExp.prototype.test] (stateless here: the controller never sets the
    [g] or [y] flag).  An undefined pattern compiles to the empty pattern,
    which matches every string. *)
Class JsRuntime : Type := {
  RegExp : Type;
  newRegExp : option string -> option string -> Completion RegExp;
  regExpTest : RegExp -> string -> bool;
  localeCompare : string -> string -> Z;
  newRegExp_undefined :
    forall flags, flags = None \/ flags = Some "i" ->
    exists re, newRegExp None flags = Normal re /\ forall s, regExpTest re s = true
}.

(** ** An executable fragment of ECMAScript patterns

    Literal characters, [.], alternation, capturing and [(?:)] groups, the
    quantifiers [*], [+], [?] (greedy or lazy, which [test] cannot tell
    apart) and escaped syntax characters.  Anchors, classes, braces,
    look-around, named groups and the other escapes are left out and reported
    as [Unsupported].  It is used to run the controller on concrete inputs. *)
Module EcmaRegExp.

Inductive re : Type :=
| Nul
| Eps
| Chr (c : ascii)
| Dot
| Seq (r1 r2 : re)
| Alt (r1 r2 : re)
| Star (r : re).

Inductive qstate : Type := Fresh | Quantified | Lazy.

(** One open group while parsing: the alternatives already closed, the terms
    of the current alternative, and the last atom, which a quantifier may
    still follow. *)
Record frame : Type := {
  alts : option re;
  terms : re;
  cur : option (re * qstate)
}.

Definition emptyFrame : frame := {| alts := None; terms := Eps; cur := None |}.

Definition closeTerm (f : frame) : re :=
  match cur f with
  | None => terms f
  | Some (r, _) => Seq (terms f) r
  end.

Definition closeFrame (f : frame) : re :=
  match alts f with
  | None => closeTerm f
  | Some a => Alt a (closeTerm f)
  end.

Definition pushAtom (r : re) (f : frame) : frame :=
  {| alts := alts f; terms := closeTerm f; cur := Some (r, Fresh) |}.

Definition nextAlternative (f : frame) : frame :=
  {| alts := Some (closeFrame f); terms := Eps; cur := None |}.

(** Applies [*], [+] or [?] to the last atom. *)
Definition quantify (q : ascii) (f : frame) : Completion frame :=
  match cur f with
  | None => Throw (SyntaxError "Nothing to repeat")
  | Some (r, Fresh) =>
      let r' := if Ascii.eqb q "*" then Star r
                else if Ascii.eqb q "+" then Seq r (Star r)
                else Alt r Eps in
      Normal {| alts := alts f; terms := terms f; cur := Some (r', Quantified) |}
  | Some (r, Quantified) =>
      if Ascii.eqb q "?"
      then Normal {| alts := alts f; terms := terms f; cur := Some (r, Lazy) |}
      else Throw (SyntaxError "Nothing to repeat")
  | Some (_, Lazy) => Throw (SyntaxError "Nothing to repeat")
  end.

Definition isSyntaxCharacter (c : ascii) : bool :=
  existsb (Ascii.eqb c) (list_ascii_of_string "^$\.*+?()[]{}|/").

Definition isLeftOut (c : ascii) : bool :=
  existsb (Ascii.eqb c) (list_ascii_of_string "^$[{").

Fixpoint parse (s : list ascii) (top : frame) (stack : list frame) : Completion re :=
  match s with
  | [] =>
      match stack with
      | [] => Normal (closeFrame top)
      | _ :: _ => Throw (SyntaxError "Unterminated group")
      end
  | "("%char :: "?"%char :: c :: t =>
      if Ascii.eqb c ":" then parse t emptyFrame (pushAtom Eps top :: stack)
      else if existsb (Ascii.eqb c) (list_ascii_of_string "=!<")
      then Throw (Unsupported "look-around or named group")
      else Throw (SyntaxError "Invalid group")
  | "("%char :: "?"%char :: [] => Throw (SyntaxError "Invalid group")
  | "("%char :: t => parse t emptyFrame (pushAtom Eps top :: stack)
  | ")"%char :: t =>
      match stack with
      | [] => Throw (SyntaxError "Unmatched ')'")
      | f :: stack' =>
          parse t {| alts := alts f; terms := terms f;
                     cur := Some (closeFrame top, Fresh) |} stack'
      end
  | "|"%char :: t => parse t (nextAlternative top) stack
  | "\"%char :: c :: t =>
      if isSyntaxCharacter c then parse t (pushAtom (Chr c) top) stack
      else Throw (Unsupported "escape")
  | "\"%char :: [] => Throw (SyntaxError "\ at end of pattern")
  | "."%char :: t => parse t (pushAtom Dot top) stack
  | c :: t =>
      if existsb (Ascii.eqb c) (list_ascii_of_string "*+?")
      then match quantify c top with
           | Normal top' => parse t top' stack
           | Throw e => Throw e
           end
      else if isLeftOut c then Throw (Unsupported "anchor, class or braces")
      else parse t (pushAtom (Chr c) top) stack
  end.

(** [Canonicalize] for the [i] flag: upper case, on the 8-bit range. *)
Definition canonicalize (ignoreCase : bool) (c : ascii) : ascii :=
  if ignoreCase then
    let n := nat_of_ascii c in
    if ((Nat.leb 97 n && Nat.leb n 122)
        || (Nat.leb 224 n && Nat.leb n 254 && negb (Nat.eqb n 247)))%bool
    then ascii_of_nat (n - 32) else c
  else c.

Definition isLineTerminator (c : ascii) : bool :=
  let n := nat_of_ascii c in (Nat.eqb n 10 || Nat.eqb n 13)%bool.

Fixpoint nullable (r : re) : bool :=
  match r with
  | Nul | Chr _ | Dot => false
  | Eps | Star _ => true
  | Seq r1 r2 => nullable r1 && nullable r2
  | Alt r1 r2 => nullable r1 || nullable r2
  end.

(** Brzozowski derivative: what is left of [r] after reading [c]. *)
Fixpoint deriv (ic : bool) (c : ascii) (r : re) : re :=
  match r with
  | Nul | Eps => Nul
  | Chr a => if Ascii.eqb (canonicalize ic a) (canonicalize ic c) then Eps else Nul
  | Dot => if isLineTerminator c then Nul else Eps
  | Seq r1 r2 =>
      if nullable r1
      then Alt (Seq (deriv ic c r1) r2) (deriv ic c r2)
      else Seq (deriv ic c r1) r2
  | Alt r1 r2 => Alt (deriv ic c r1) (deriv ic c r2)
  | Star r1 => Seq (deriv ic c r1) (Star r1)
  end.

(** Does [r] match some prefix of [s]? *)
Fixpoint matchPrefix (ic : bool) (r : re) (s : string) : bool :=
  match s with
  | EmptyString => nullable r
  | String c t => nullable r || matchPrefix ic (deriv ic c r) t
  end.

(** Does [r] match somewhere in [s]? *)
Fixpoint search (ic : bool) (r : re) (s : string) : bool :=
  match s with
  | EmptyString => matchPrefix ic r s
  | String _ t => matchPrefix ic r s || search ic r t
  end.

Record compiled : Type := { source : re; ignoreCase : bool }.

Definition isFlag (c : ascii) : bool :=
  existsb (Ascii.eqb c) (list_ascii_of_string "dgimsuy").

Fixpoint distinct (l : list ascii) : bool :=
  match l with
  | [] => true
  | c :: t => negb (existsb (Ascii.eqb c) t) && distinct t
  end.

Definition compile (pattern flags : option string) : Completion compiled :=
  let fl := match flags with Some f => list_ascii_of_string f | None => [] end in
  if negb (forallb isFlag fl && distinct fl)
  then Throw (SyntaxError "Invalid flags")
  else if negb (forallb (Ascii.eqb "i") fl)
  then Throw (Unsupported "flag")
  else
    let p := match pattern with Some p => p | None => "(?:)" end in
    cbind (parse (list_ascii_of_string p) emptyFrame [])
      (fun r => Normal {| source := r; ignoreCase := existsb (Ascii.eqb "i") fl |}).

Definition test (r : compiled) (s : string) : bool :=
  search (ignoreCase r) (source r) s.

(** Code-unit order; it agrees with locale-aware collation on words of
    lower-case ASCII letters, which is where it is evaluated below. *)
Definition codeUnitCompare (a b : string) : Z :=
  match String.compare a b with
  | Lt => -1
  | Eq => 0
  | Gt => 1
  end.

#[export] Instance runtime : JsRuntime.
Proof.
  refine {| RegExp := compiled; newRegExp := compile; regExpTest := test;
            localeCompare := codeUnitCompare |}.
  intros flags [-> | ->];
    (eexists; split; [reflexivity | intros [|c s]; reflexivity]).
Defined.

End EcmaRegExp.

(** ** Data model (common/Interfaces, common/Enums, common/SARIFInterfaces)

    The declarations of these types are not among the sources; they are
    written here as createResultsListRow and getResultData use them. *)

Record Position : Type := { line : Z; character : Z }.

Record Range : Type := { start : Position; end_ : Position }.

Record Uri : Type := { fsPath : string }.

Record Location : Type := { fileName : string; uri : Uri; range : Range }.

(** [sarif.Result.level]. *)
Inductive SarifLevel : Type :=
| LevelError
| LevelWarning
| LevelOpen
| LevelPass
| LevelNotApplicable
| LevelNote.

(** The two enumerations whose values the controller only passes along:
    the text of a level and its rank in [SeverityLevelOrder]. *)
Class SarifEnums : Type := {
  levelText : SarifLevel -> string;
  SeverityLevelOrder : SarifLevel -> Z
}.

Record Message : Type := { text : option string }.

Module ResultInfo.
Record t : Type := {
  id : Z;
  runId : Z;
  message : Message;
  ruleId : option string;
  ruleName : option string;
  severityLevel : SarifLevel;
  locations : list (option Location);
  assignedLocation : option Location
}.
End ResultInfo.

Record RunInfo : Type := { sarifFileName : string; sarifFileFullPath : string }.

Record SarifViewerDiagnostic : Type := { resultInfo : ResultInfo.t }.

(** A cell: [ResultsListValue], with the optional members of
    [ResultsListPositionValue] and [ResultsListSeverityValue]. *)
Record ResultsListValue : Type := {
  value : JsVal;
  tooltip : option string;
  pos : option Position;
  isSeverity : bool;
  severityLevelOrder : option Z
}.

Definition plainValue (v : JsVal) (tip : option string) : ResultsListValue :=
  {| value := v; tooltip := tip; pos := None; isSeverity := false;
     severityLevelOrder := None |}.

Record ResultsListRow : Type := {
  message : ResultsListValue;
  resultId : ResultsListValue;
  ruleId : ResultsListValue;
  ruleName : ResultsListValue;
  runId : ResultsListValue;
  sarifFile : ResultsListValue;
  severityLevel : ResultsListValue;
  resultFile : ResultsListValue;
  resultStartPos : ResultsListValue
}.

(** Members every object inherits from [Object.prototype]. *)
Definition objectPrototypeNames : list string :=
  ["constructor"; "__defineGetter__"; "__defineSetter__"; "hasOwnProperty";
   "__lookupGetter__"; "__lookupSetter__"; "isPrototypeOf";
   "propertyIsEnumerable"; "toString"; "valueOf"; "__proto__";
   "toLocaleString"].

(** An inherited member read as a cell: none of the cell's properties is
    defined on it. *)
Definition inheritedMember : ResultsListValue := plainValue VUndefined None.

(** [row[name]]: [None] is [undefined]. *)
Definition rowGet (row : ResultsListRow) (name : string) : option ResultsListValue :=
  if String.eqb name "message" then Some (message row)
  else if String.eqb name "resultId" then Some (resultId row)
  else if String.eqb name "ruleId" then Some (ruleId row)
  else if String.eqb name "ruleName" then Some (ruleName row)
  else if String.eqb name "runId" then Some (runId row)
  else if String.eqb name "sarifFile" then Some (sarifFile row)
  else if String.eqb name "severityLevel" then Some (severityLevel row)
  else if String.eqb name "resultFile" then Some (resultFile row)
  else if String.eqb name "resultStartPos" then Some (resultStartPos row)
  else if existsb (String.eqb name) objectPrototypeNames then Some inheritedMember
  else None.

(** A property key read from a variable that may be [undefined]. *)
Definition keyOf (name : option string) : string :=
  match name with
  | Some s => s
  | None => "undefined"
  end.

Record ResultsListColumn : Type := { description : string; hide : bool; title : string }.

Record ResultsListSortBy : Type := { column : option string; ascending : bool }.

Module ResultsListGroup.
Record t : Type := {
  rows : list ResultsListRow;
  text : JsVal;
  tooltip : option string
}.
End ResultsListGroup.

Module ResultsListData.
Record t : Type := {
  columns : list (string * ResultsListColumn);
  filterCaseMatch : bool;
  filterText : string;
  groupBy : option string;
  groups : list ResultsListGroup.t;
  resultCount : Z;
  sortBy : option ResultsListSortBy
}.
End ResultsListData.

(** The identity a row-select message carries, [{resultId, runId}]. *)
Record RowIdentity : Type := { selectedResultId : Z; selectedRunId : Z }.

(** [WebviewMessage], by [MessageType], with the payload each handler reads. *)
Inductive WebviewMessage : Type :=
| ResultsListColumnToggled (data : string)
| ResultsListFilterApplied (data : string)
| ResultsListFilterCaseToggled
| ResultsListGroupChanged (data : string)
| ResultsListResultSelected (data : RowIdentity)
| ResultsListSortChanged (data : string).

(** ** State *)

(** The fields of the controller. *)
Record Controller : Type := {
  columns : list (string * ResultsListColumn);
  groupBy : option string;
  sortBy : option ResultsListSortBy;
  resultsListRows : JsMap string ResultsListRow;
  filterCaseMatch : bool;
  filterText : string;
  postFilterListRows : list string
}.

(** The three settings the controller reads, as the settings store holds
    them.  The hidden-columns setting is read under a cast to [string[]]
    and is a list of names here, the case the code is written for; the
    group-by and the sort-by setting may be not set ([None]). *)
Record WorkspaceConfiguration : Type := {
  resultsListHideColumns : list string;
  resultsListGroupBy : option string;
  resultsListSortBy : option ResultsListSortBy
}.

(** The controller with its collaborators: the settings store, the
    diagnostic collection ([getRunInfo], [getResultInfo]), the data sets
    handed to the explorer and the locations asked to be revealed, oldest
    first. *)
Record World : Type := {
  this : Controller;
  sarifConfig : WorkspaceConfiguration;
  getRunInfo : Z -> option RunInfo;
  getResultInfo : Z -> Z -> option SarifViewerDiagnostic;
  explorerData : list ResultsListData.t;
  revealed : list Location
}.

Definition setThis (c : Controller) (w : World) : World :=
  {| this := c; sarifConfig := sarifConfig w; getRunInfo := getRunInfo w;
     getResultInfo := getResultInfo w; explorerData := explorerData w;
     revealed := revealed w |}.

Definition setSarifConfig (cfg : WorkspaceConfiguration) (w : World) : World :=
  {| this := this w; sarifConfig := cfg; getRunInfo := getRunInfo w;
     getResultInfo := getResultInfo w; explorerData := explorerData w;
     revealed := revealed w |}.

Definition setExplorerData (d : list ResultsListData.t) (w : World) : World :=
  {| this := this w; sarifConfig := sarifConfig w; getRunInfo := getRunInfo w;
     getResultInfo := getResultInfo w; explorerData := d;
     revealed := revealed w |}.

Definition setRevealed (r : list Location) (w : World) : World :=
  {| this := this w; sarifConfig := sarifConfig w; getRunInfo := getRunInfo w;
     getResultInfo := getResultInfo w; explorerData := explorerData w;
     revealed := r |}.

Definition setColumns (v : list (string * ResultsListColumn)) (c : Controller) : Controller :=
  {| columns := v; groupBy := groupBy c; sortBy := sortBy c;
     resultsListRows := resultsListRows c; filterCaseMatch := filterCaseMatch c;
     filterText := filterText c; postFilterListRows := postFilterListRows c |}.

Definition setGroupBy (v : option string) (c : Controller) : Controller :=
  {| columns := columns c; groupBy := v; sortBy := sortBy c;
     resultsListRows := resultsListRows c; filterCaseMatch := filterCaseMatch c;
     filterText := filterText c; postFilterListRows := postFilterListRows c |}.

Definition setSortBy (v : option ResultsListSortBy) (c : Controller) : Controller :=
  {| columns := columns c; groupBy := groupBy c; sortBy := v;
     resultsListRows := resultsListRows c; filterCaseMatch := filterCaseMatch c;
     filterText := filterText c; postFilterListRows := postFilterListRows c |}.

Definition setResultsListRows (v : JsMap string ResultsListRow) (c : Controller) : Controller :=
  {| columns := columns c; groupBy := groupBy c; sortBy := sortBy c;
     resultsListRows := v; filterCaseMatch := filterCaseMatch c;
     filterText := filterText c; postFilterListRows := postFilterListRows c |}.

Definition setFilterCaseMatch (v : bool) (c : Controller) : Controller :=
  {| columns := columns c; groupBy := groupBy c; sortBy := sortBy c;
     resultsListRows := resultsListRows c; filterCaseMatch := v;
     filterText := filterText c; postFilterListRows := postFilterListRows c |}.

Definition setFilterText (v : string) (c : Controller) : Controller :=
  {| columns := columns c; groupBy := groupBy c; sortBy := sortBy c;
     resultsListRows := resultsListRows c; filterCaseMatch := filterCaseMatch c;
     filterText := v; postFilterListRows := postFilterListRows c |}.

Definition setPostFilterListRows (v : list string) (c : Controller) : Controller :=
  {| columns := columns c; groupBy := groupBy c; sortBy := sortBy c;
     resultsListRows := resultsListRows c; filterCaseMatch := filterCaseMatch c;
     filterText := filterText c; postFilterListRows := v |}.

(** ** The method monad: state of the world, and exceptions

    A method maps the world to its completion and the world it leaves. *)
Definition M (A : Type) : Type := World -> Completion A * World.

Definition ret {A} (a : A) : M A := fun w => (Normal a, w).

Definition bind {A B} (m : M A) (k : A -> M B) : M B :=
  fun w =>
    match m w with
    | (Normal a, w') => k a w'
    | (Throw e, w') => (Throw e, w')
    end.

Definition throw {A} (e : JsError) : M A := fun w => (Throw e, w).

Definition lift {A} (c : Completion A) : M A := fun w => (c, w).

Definition getThis : M Controller := fun w => (Normal (this w), w).

Definition modifyThis (f : Controller -> Controller) : M unit :=
  fun w => (Normal tt, setThis (f (this w)) w).

Notation "x <- m ;; k" := (bind m (fun x => k))
  (at level 61, m at next level, right associativity).
Notation "m ;;; k" := (bind m (fun _ => k))
  (at level 61, right associativity).
Notation "x <~ c ;; k" := (cbind c (fun x => k))
  (at level 61, c at next level, right associativity).

(** ** Numbers *)

Fixpoint digitsValue (s : string) (acc : Z) : option Z :=
  match s with
  | EmptyString => Some acc
  | String c t =>
      let n := nat_of_ascii c in
      if (Nat.leb 48 n && Nat.leb n 57)%bool
      then digitsValue t (10 * acc + Z.of_nat (n - 48))
      else None
  end.

Definition unsignedValue (s : string) : JsNum :=
  match s with
  | EmptyString => NaN
  | _ => match digitsValue s 0 with Some n => Num n | None => NaN end
  end.

(** [ToNumber] of a string, on decimal integer literals; numbers are integers
    in this model, so any other numeral has no value here. *)
Definition StringToNumber (s : string) : JsNum :=
  match trim s with
  | EmptyString => Num 0
  | String "+"%char r => unsignedValue r
  | String "-"%char r =>
      match unsignedValue r with Num n => Num (- n) | NaN => NaN end
  | t => unsignedValue t
  end.

Definition ToNumber (v : JsVal) : JsNum :=
  match v with
  | VUndefined => NaN
  | VNum n => Num n
  | VStr s => StringToNumber s
  end.

Definition optNum (o : option Z) : JsNum :=
  match o with
  | Some n => Num n
  | None => NaN
  end.

Definition numSub (a b : JsNum) : JsNum :=
  match a, b with
  | Num x, Num y => Num (x - y)
  | _, _ => NaN
  end.

(** ** The controller *)

Section ResultsListController.
Context {runtime : JsRuntime} {enums : SarifEnums}.

(** initializeColumns *)
Definition initializeColumns : list (string * ResultsListColumn) :=
  [("message", {| description := "Result message"; hide := false; title := "Message" |});
   ("resultFile", {| description := "Result file location "; hide := false; title := "File" |});
   ("resultStartPos",
     {| description := "Results position in the file"; hide := false; title := "Position" |});
   ("ruleId", {| description := "Rule Id"; hide := false; title := "Rule Id" |});
   ("ruleName", {| description := "Rule Name"; hide := false; title := "Rule Name" |});
   ("runId",
     {| description := "Run Id generated based on order in the Sarif file"; hide := false;
        title := "Run Id" |});
   ("sarifFile",
     {| description := "Sarif file the result data is from"; hide := false;
        title := "Sarif File" |});
   ("severityLevel", {| description := "Severity Level"; hide := false; title := "Severity" |})].

(** generateFilterRegExp *)
Definition generateFilterRegExp (c : Controller) : Completion RegExp :=
  let flags := if negb (filterCaseMatch c) then Some "i" else None in
  let pattern := if negb (String.eqb (filterText c) "") then Some (filterText c) else None in
  newRegExp pattern flags.

(** applyFilterToRow *)
Definition applyFilterToRow (row : ResultsListRow) (regExp : RegExp) : bool :=
  if (regExpTest regExp (ToString (value (message row)))
      || regExpTest regExp (ToString (value (ruleId row)))
      || regExpTest regExp (ToString (value (ruleName row)))
      || regExpTest regExp (ToString (value (severityLevel row)))
      || regExpTest regExp (ToString (value (resultFile row)))
      || regExpTest regExp (ToString (value (sarifFile row))))%bool
  then true
  else false.

(** createResultsListRow *)
Definition createResultsListRow (w : World) (resultInfo : ResultInfo.t)
  : Completion ResultsListRow :=
  let message := plainValue (optStr (text (ResultInfo.message resultInfo))) None in
  let resultId := plainValue (VNum (ResultInfo.id resultInfo)) None in
  let ruleId := plainValue (optStr (ResultInfo.ruleId resultInfo)) None in
  let ruleName := plainValue (optStr (ResultInfo.ruleName resultInfo)) None in
  let runId := plainValue (VNum (ResultInfo.runId resultInfo)) None in
  match getRunInfo w (ResultInfo.runId resultInfo) with
  | None => Throw (TypeError "Cannot read property 'sarifFileName' of undefined")
  | Some run =>
      let sarifFile :=
        plainValue (VStr (sarifFileName run)) (Some (sarifFileFullPath run)) in
      let sevOrder := SeverityLevelOrder (ResultInfo.severityLevel resultInfo) in
      let severityLevel :=
        {| value := VStr (levelText (ResultInfo.severityLevel resultInfo));
           tooltip := None; pos := None; isSeverity := true;
           severityLevelOrder := Some sevOrder |} in
      let '(resultFile, resultStartPos) :=
        match nth_error (ResultInfo.locations resultInfo) 0 with
        | Some (Some loc) =>
            let position := start (range loc) in
            (plainValue (VStr (fileName loc)) (Some (fsPath (uri loc))),
             {| value := VStr ("(" ++ string_of_Z (line position + 1) ++ ", "
                               ++ string_of_Z (character position + 1) ++ ")")%string;
                tooltip := None; pos := Some position; isSeverity := false;
                severityLevelOrder := None |})
        | _ =>
            (plainValue (VStr "No Location") None,
             {| value := VStr "(0, 0)"; tooltip := None;
                pos := Some {| line := 0; character := 0 |}; isSeverity := false;
                severityLevelOrder := None |})
        end in
      Normal {| message := message; resultId := resultId; ruleId := ruleId;
                ruleName := ruleName; runId := runId; sarifFile := sarifFile;
                severityLevel := severityLevel; resultFile := resultFile;
                resultStartPos := resultStartPos |}
  end.

(** The id template, [`${runId}_${id}`]. *)
Definition rowIdOf (runId id : JsVal) : string :=
  (ToString runId ++ "_" ++ ToString id)%string.

(** One turn of the removal loop of updateResultsListData. *)
Definition removeDiag (diag : SarifViewerDiagnostic) (c : Controller) : Controller :=
  let id := rowIdOf (VNum (ResultInfo.runId (resultInfo diag)))
                    (VNum (ResultInfo.id (resultInfo diag))) in
  let c := setResultsListRows (mapDelete String.eqb (resultsListRows c) id) c in
  let index := indexOf (postFilterListRows c) id in
  if negb (index =? -1)
  then setPostFilterListRows (splice1 (postFilterListRows c) index) c
  else c.

(** One turn of the update loop of updateResultsListData. *)
Definition updateDiag (regEx : RegExp) (diag : SarifViewerDiagnostic) : M unit :=
  fun w =>
    match createResultsListRow w (resultInfo diag) with
    | Throw e => (Throw e, w)
    | Normal row =>
        let c := this w in
        let id := rowIdOf (value (runId row)) (value (resultId row)) in
        let c := setResultsListRows (mapSet String.eqb (resultsListRows c) id row) c in
        let index := indexOf (postFilterListRows c) id in
        let c :=
          if applyFilterToRow row regEx
          then if index =? -1
               then setPostFilterListRows (postFilterListRows c ++ [id]) c
               else c
          else if negb (index =? -1)
               then setPostFilterListRows (splice1 (postFilterListRows c) index) c
               else c in
        (Normal tt, setThis c w)
    end.

Fixpoint forEachM {A} (f : A -> M unit) (l : list A) : M unit :=
  match l with
  | [] => ret tt
  | x :: t => f x ;;; forEachM f t
  end.

(** updateResultsListData; [remove] is the optional flag. *)
Definition updateResultsListData (diags : list SarifViewerDiagnostic)
  (remove : option bool) : M unit :=
  match remove with
  | Some true => forEachM (fun diag => modifyThis (removeDiag diag)) diags
  | _ =>
      c <- getThis ;;
      regEx <- lift (generateFilterRegExp c) ;;
      forEachM (updateDiag regEx) diags
  end.

(** updateFilteredRowsList *)
Definition updateFilteredRowsList : M unit :=
  modifyThis (setPostFilterListRows []) ;;;
  c <- getThis ;;
  regEx <- lift (generateFilterRegExp c) ;;
  forEachM
    (fun entry : string * ResultsListRow =>
       let (key, row) := entry in
       modifyThis (fun c =>
         if (String.eqb (filterText c) "" || applyFilterToRow row regEx)%bool
         then setPostFilterListRows (postFilterListRows c ++ [key]) c
         else c))
    (resultsListRows c).

(** The row comparator of getResultData. *)
Definition compareRows (sortBy : option ResultsListSortBy) (a b : ResultsListRow)
  : Completion JsNum :=
  match sortBy with
  | None => Throw (TypeError "Cannot read property 'ascending' of undefined")
  | Some sortBy =>
      let '(valueA, valueB) :=
        if ascending sortBy
        then (rowGet a (keyOf (column sortBy)), rowGet b (keyOf (column sortBy)))
        else (rowGet b (keyOf (column sortBy)), rowGet a (keyOf (column sortBy))) in
      match valueA with
      | None => Throw (TypeError "Cannot read property 'value' of undefined")
      | Some valueA =>
          (* the branches after the test for an undefined value; [last] is
             the final one, which depends on the type of the value *)
          let byKind (last : ResultsListValue -> JsNum) : Completion JsNum :=
            match valueB with
            | None => Throw (TypeError "Cannot read property of undefined")
            | Some valueB =>
                match pos valueA with
                | Some posA =>
                    match pos valueB with
                    | None => Throw (TypeError "Cannot read property 'line' of undefined")
                    | Some posB =>
                        let comp := line posA - line posB in
                        if comp =? 0
                        then Normal (Num (character posA - character posB))
                        else Normal (Num comp)
                    end
                | None =>
                    if isSeverity valueA
                    then Normal (numSub (optNum (severityLevelOrder valueA))
                                        (optNum (severityLevelOrder valueB)))
                    else Normal (last valueB)
                end
            end in
          match value valueA with
          | VUndefined =>
              match valueB with
              | None => Throw (TypeError "Cannot read property 'value' of undefined")
              | Some valueB =>
                  match value valueB with
                  | VUndefined => Normal (Num 0)
                  | _ => Normal (Num (-1))
                  end
              end
          | VNum n => byKind (fun valueB => numSub (Num n) (ToNumber (value valueB)))
          | VStr s => byKind (fun valueB => Num (localeCompare s (ToString (value valueB))))
          end
      end
  end.

(** The group comparator of getResultData. *)
Definition compareGroups (a b : ResultsListGroup.t) : Completion JsNum :=
  Normal (Num (Z.of_nat (List.length (ResultsListGroup.rows b))
               - Z.of_nat (List.length (ResultsListGroup.rows a)))).

(** The grouping key of a cell under the current [groupBy]. *)
Definition groupingKey (groupBy : option string) (v : ResultsListValue) : JsVal :=
  if (match groupBy with
      | Some g => String.eqb g "sarifFile" || String.eqb g "resultFile"
      | None => false
      end)%bool
  then optStr (tooltip v)
  else value v.

(** One turn of the grouping loop of getResultData. *)
Definition addToGroups (c : Controller) (groups : JsMap JsVal ResultsListGroup.t)
  (id : string) : Completion (JsMap JsVal ResultsListGroup.t) :=
  match mapGet String.eqb (resultsListRows c) id with
  | None => Throw (TypeError "Cannot read property of undefined")
  | Some row =>
      match rowGet row (keyOf (groupBy c)) with
      | None => Throw (TypeError "Cannot read property 'value' of undefined")
      | Some resultsListValue =>
          let key := groupingKey (groupBy c) resultsListValue in
          match mapGet JsVal_eqb groups key with
          | Some g =>
              Normal (mapSet JsVal_eqb groups key
                        {| ResultsListGroup.rows := ResultsListGroup.rows g ++ [row];
                           ResultsListGroup.text := ResultsListGroup.text g;
                           ResultsListGroup.tooltip := ResultsListGroup.tooltip g |})
          | None =>
              Normal (mapSet JsVal_eqb groups key
                        {| ResultsListGroup.rows := [row];
                           ResultsListGroup.text := value resultsListValue;
                           ResultsListGroup.tooltip := tooltip resultsListValue |})
          end
      end
  end.

Fixpoint foldC {A B} (f : B -> A -> Completion B) (l : list A) (acc : B) : Completion B :=
  match l with
  | [] => Normal acc
  | x :: t => acc' <~ f acc x ;; foldC f t acc'
  end.

(** The grouping loop of getResultData, over the post-filter list. *)
Definition groupRows (c : Controller) : Completion (list ResultsListGroup.t) :=
  groups <~ foldC (addToGroups c) (postFilterListRows c) [] ;;
  Normal (mapValues groups).

(** Sorts the rows of each group in turn. *)
Fixpoint sortGroupRows (sortBy : option ResultsListSortBy) (gs : list ResultsListGroup.t)
  : Completion (list ResultsListGroup.t) :=
  match gs with
  | [] => Normal []
  | g :: t =>
      rows' <~ arraySort (compareRows sortBy) (ResultsListGroup.rows g) ;;
      t' <~ sortGroupRows sortBy t ;;
      Normal ({| ResultsListGroup.rows := rows';
                 ResultsListGroup.text := ResultsListGroup.text g;
                 ResultsListGroup.tooltip := ResultsListGroup.tooltip g |} :: t')
  end.

(** getResultData *)
Definition getResultData (c : Controller) : Completion ResultsListData.t :=
  groups <~ groupRows c ;;
  groups <~ arraySort compareGroups groups ;;
  groups <~ sortGroupRows (sortBy c) groups ;;
  Normal {| ResultsListData.columns := columns c;
            ResultsListData.filterCaseMatch := filterCaseMatch c;
            ResultsListData.filterText := filterText c;
            ResultsListData.groupBy := groupBy c;
            ResultsListData.groups := groups;
            ResultsListData.resultCount := mapSize (resultsListRows c);
            ResultsListData.sortBy := sortBy c |}.

(** postDataToExplorer *)
Definition postDataToExplorer : M unit :=
  c <- getThis ;;
  data <- lift (getResultData c) ;;
  fun w => (Normal tt, setExplorerData (explorerData w ++ [data]) w).

(** checkIfColumnsChanged: the new columns and whether any changed. *)
Fixpoint updateHide (hideCols : list string) (cols : list (string * ResultsListColumn))
  : list (string * ResultsListColumn) * bool :=
  match cols with
  | [] => ([], false)
  | (col, d) :: t =>
      let shouldHide := negb (indexOf hideCols col =? -1) in
      let (t', changed) := updateHide hideCols t in
      if Bool.eqb shouldHide (hide d)
      then ((col, d) :: t', changed)
      else ((col, {| description := description d; hide := shouldHide;
                     title := title d |}) :: t', true)
  end.

Definition checkIfColumnsChanged : M bool :=
  fun w =>
    let hideCols := resultsListHideColumns (sarifConfig w) in
    let (cols, changed) := updateHide hideCols (columns (this w)) in
    (Normal changed, setThis (setColumns cols (this w)) w).

Definition optString_eqb (a b : option string) : bool :=
  match a, b with
  | Some x, Some y => String.eqb x y
  | None, None => true
  | _, _ => false
  end.

(** checkIfGroupByChanged *)
Definition checkIfGroupByChanged : M bool :=
  fun w =>
    let group := resultsListGroupBy (sarifConfig w) in
    if negb (optString_eqb group (groupBy (this w)))
    then (Normal true, setThis (setGroupBy group (this w)) w)
    else (Normal false, w).

(** checkIfSortByChanged.  The settings store hands out a fresh copy of the
    sort-by object on every read, so the comparison by reference finds the
    new object different from the stored one whenever it is an object. *)
Definition checkIfSortByChanged : M bool :=
  fun w =>
    let sort := resultsListSortBy (sarifConfig w) in
    let differs :=
      match sort, sortBy (this w) with
      | None, None => false
      | _, _ => true
      end in
    if differs
    then (Normal true, setThis (setSortBy sort (this w)) w)
    else (Normal false, w).

(** onSettingsChanged; [event] is [None] for [undefined], else the answer of
    [affectsConfiguration]. *)
Definition onSettingsChanged (event : option bool) : M unit :=
  match event with
  | Some false => ret tt
  | _ =>
      c1 <- checkIfColumnsChanged ;;
      c2 <- checkIfGroupByChanged ;;
      c3 <- checkIfSortByChanged ;;
      if (c1 || c2 || c3)%bool then postDataToExplorer else ret tt
  end.

Definition updateConfig (f : WorkspaceConfiguration -> WorkspaceConfiguration) : M unit :=
  fun w => (Normal tt, setSarifConfig (f (sarifConfig w)) w).

(** onResultsListMessage *)
Definition onResultsListMessage (msg : WebviewMessage) : M unit :=
  match msg with
  | ResultsListColumnToggled data =>
      updateConfig (fun cfg =>
        let hideColsConfig := resultsListHideColumns cfg in
        let index := indexOf hideColsConfig data in
        {| resultsListHideColumns :=
             if negb (index =? -1) then splice_one hideColsConfig index
             else hideColsConfig ++ [data];
           resultsListGroupBy := resultsListGroupBy cfg;
           resultsListSortBy := resultsListSortBy cfg |})
  | ResultsListFilterApplied data =>
      let input := trim data in
      c <- getThis ;;
      if negb (String.eqb input (filterText c))
      then modifyThis (setFilterText input) ;;;
           updateFilteredRowsList ;;;
           postDataToExplorer
      else ret tt
  | ResultsListFilterCaseToggled =>
      modifyThis (fun c => setFilterCaseMatch (negb (filterCaseMatch c)) c) ;;;
      updateFilteredRowsList ;;;
      postDataToExplorer
  | ResultsListGroupChanged data =>
      updateConfig (fun cfg =>
        {| resultsListHideColumns := resultsListHideColumns cfg;
           resultsListGroupBy := Some data;
           resultsListSortBy := resultsListSortBy cfg |})
  | ResultsListResultSelected id =>
      fun w =>
        match getResultInfo w (selectedResultId id) (selectedRunId id) with
        | None => (Throw (TypeError "Cannot read property 'resultInfo' of undefined"), w)
        | Some diagnostic =>
            match ResultInfo.assignedLocation (resultInfo diagnostic) with
            | None => (Throw (TypeError "Cannot read property 'uri' of undefined"), w)
            | Some diagLocation =>
                (Normal tt, setRevealed (revealed w ++ [diagLocation]) w)
            end
        end
  | ResultsListSortChanged data =>
      fun w =>
        match resultsListSortBy (sarifConfig w) with
        | None => (Throw (TypeError "Cannot read property 'column' of undefined"), w)
        | Some sortByConfig =>
            let sortByConfig :=
              if optString_eqb (column sortByConfig) (Some data)
              then {| column := column sortByConfig;
                      ascending := negb (ascending sortByConfig) |}
              else {| column := Some data; ascending := true |} in
            updateConfig (fun cfg =>
              {| resultsListHideColumns := resultsListHideColumns cfg;
                 resultsListGroupBy := resultsListGroupBy cfg;
                 resultsListSortBy := Some sortByConfig |}) w
        end
  end.

(** The controller as the constructor leaves its fields before it reads the
    settings. *)
Definition newController : Controller :=
  {| columns := initializeColumns; groupBy := None; sortBy := None;
     resultsListRows := []; filterCaseMatch := false; filterText := "";
     postFilterListRows := [] |}.

(** The constructor, run when [Instance] is first read. *)
Definition construct : M unit :=
  modifyThis (fun _ => newController) ;;;
  onSettingsChanged None.

(** ** Reachable worlds

    The world after construction, then any sequence of the public
    operations; between two of them the settings store and the diagnostic
    collection may change in any way. *)
Inductive reachable : World -> Prop :=
| reach_construct w : reachable (snd (construct w))
| reach_update w diags remove :
    reachable w -> reachable (snd (updateResultsListData diags remove w))
| reach_message w msg :
    reachable w -> reachable (snd (onResultsListMessage msg w))
| reach_settings w event :
    reachable w -> reachable (snd (onSettingsChanged event w))
| reach_post w :
    reachable w -> reachable (snd (postDataToExplorer w))
| reach_environment w cfg runs results :
    reachable w ->
    reachable {| this := this w; sarifConfig := cfg; getRunInfo := runs;
                 getResultInfo := results; explorerData := explorerData w;
                 revealed := revealed w |}.

End ResultsListController.

(** ** Concrete worlds

    Small inputs on which the controller is run below, with the executable
    pattern fragment as runtime. *)
Module Scenario.

(** Modelled from the spec: the rank table of common/Enums is not among the
    sources; the spec only fixes that each level has an integer rank and
    that [error] ranks before [note].  Ranks follow the order of the cases
    in createResultsListRow, texts are the SARIF level names. *)
#[export] Instance sarifEnums : SarifEnums := {|
  levelText := fun l =>
    match l with
    | LevelError => "error"
    | LevelWarning => "warning"
    | LevelOpen => "open"
    | LevelPass => "pass"
    | LevelNotApplicable => "notApplicable"
    | LevelNote => "note"
    end;
  SeverityLevelOrder := fun l =>
    match l with
    | LevelError => 0
    | LevelWarning => 1
    | LevelOpen => 2
    | LevelPass => 3
    | LevelNotApplicable => 4
    | LevelNote => 5
    end
|}.

#[export] Existing Instance EcmaRegExp.runtime.

Definition locationAt (path name : string) (l ch : Z) : Location :=
  {| fileName := name; uri := {| fsPath := path |};
     range := {| start := {| line := l; character := ch |};
                 end_ := {| line := l; character := ch + 1 |} |} |}.

(** A diagnostic of run [run] with result id [n]. *)
Definition diag (run n : Z) (msg : string) (rule ruleNm : option string)
  (level : SarifLevel) (locs : list (option Location)) : SarifViewerDiagnostic :=
  {| resultInfo :=
       {| ResultInfo.id := n; ResultInfo.runId := run;
          ResultInfo.message := {| text := Some msg |};
          ResultInfo.ruleId := rule; ResultInfo.ruleName := ruleNm;
          ResultInfo.severityLevel := level; ResultInfo.locations := locs;
          ResultInfo.assignedLocation := nth 0 locs None |} |}.

Definition d11 : SarifViewerDiagnostic :=
  diag 1 1 "first" (Some "R1") (Some "abc") LevelError
       [Some (locationAt "/x/a.c" "a.c" 2 5)].

Definition d12 : SarifViewerDiagnostic :=
  diag 1 2 "second" (Some "R1") None LevelWarning
       [Some (locationAt "/y/a.c" "a.c" 2 9)].

Definition d13 : SarifViewerDiagnostic :=
  diag 1 3 "third" (Some "R1") (Some "zeta") LevelNote
       [Some (locationAt "/x/a.c" "a.c" 7 1)].

Definition settings (group : string) (sortColumn : string) (asc : bool)
  : WorkspaceConfiguration :=
  {| resultsListHideColumns := [];
     resultsListGroupBy := Some group;
     resultsListSortBy := Some {| column := Some sortColumn; ascending := asc |} |}.

(** Before the controller exists: one run, no diagnostic resolvable. *)
Definition blank (cfg : WorkspaceConfiguration) : World :=
  {| this := newController;
     sarifConfig := cfg;
     getRunInfo := fun _ =>
       Some {| sarifFileName := "scan.sarif"; sarifFileFullPath := "/out/scan.sarif" |};
     getResultInfo := fun _ _ => None;
     explorerData := [];
     revealed := [] |}.

(** After construction. *)
Definition started (cfg : WorkspaceConfiguration) : World :=
  snd (construct (blank cfg)).

(** After construction and the arrival of the given diagnostics. *)
Definition loaded (cfg : WorkspaceConfiguration) (diags : list SarifViewerDiagnostic)
  : World :=
  snd (updateResultsListData diags None (started cfg)).

(** The same with a diagnostic collection that resolves [d11]. *)
Definition resolving (w : World) : World :=
  {| this := this w; sarifConfig := sarifConfig w; getRunInfo := getRunInfo w;
     getResultInfo := fun resultId runId =>
       if ((resultId =? 1) && (runId =? 1))%bool then Some d11 else None;
     explorerData := explorerData w; revealed := revealed w |}.

End Scenario.


(** ** Vocabulary of the properties

    Predicates and functions in which the properties below are stated. *)

Section Vocabulary.
Context {runtime : JsRuntime} {enums : SarifEnums}.

(** Strings of white space only, and the first and last character of a
    string being white space. *)
Fixpoint allTrimmable (s : string) : bool :=
  match s with
  | EmptyString => true
  | String c t => isTrimmable c && allTrimmable t
  end.

Definition startsTrimmable (s : string) : bool :=
  match s with
  | EmptyString => false
  | String c _ => isTrimmable c
  end.

Fixpoint endsTrimmable (s : string) : bool :=
  match s with
  | EmptyString => false
  | String c EmptyString => isTrimmable c
  | String _ t => endsTrimmable t
  end.

(** A filter text the RegExp constructor rejects, with or without the
    [i] flag. *)
Definition invalidPattern (p : string) : Prop :=
  forall flags, flags = None \/ flags = Some "i" ->
  exists e, newRegExp (Some p) flags = Throw e.

(** The cells the filter looks at, in the order it tests them. *)
Definition filterFields (row : ResultsListRow) : list ResultsListValue :=
  [message row; ruleId row; ruleName row; severityLevel row; resultFile row;
   sarifFile row].

(** The text a cell is tested by: [RegExp.prototype.test] converts its
    argument to a string, so a cell without display value is tested as the
    text [undefined]. *)
Definition testedText (cell : ResultsListValue) : string :=
  match value cell with
  | VUndefined => "undefined"
  | VNum n => string_of_Z n
  | VStr s => s
  end.

(** Does the pattern match what the cell displays?  A cell without display
    value displays nothing. *)
Definition displayMatches (regExp : RegExp) (cell : ResultsListValue) : bool :=
  match value cell with
  | VUndefined => false
  | VNum n => regExpTest regExp (string_of_Z n)
  | VStr s => regExpTest regExp s
  end.

(** The pattern and the flags generateFilterRegExp hands to the RegExp
    constructor for a filter text and a case setting. *)
Definition filterPattern (filterText : string) : option string :=
  if String.eqb filterText "" then None else Some filterText.

Definition filterFlags (filterCaseMatch : bool) : option string :=
  if filterCaseMatch then None else Some "i".

(** The shape createResultsListRow gives a row: the position cell carries a
    position, no other cell does. *)
Definition rowShape (row : ResultsListRow) : Prop :=
  pos (resultStartPos row) <> None
  /\ pos (message row) = None /\ pos (resultId row) = None
  /\ pos (ruleId row) = None /\ pos (ruleName row) = None
  /\ pos (runId row) = None /\ pos (sarifFile row) = None
  /\ pos (severityLevel row) = None /\ pos (resultFile row) = None.

(** Keys of the row table are distinct, the filtered list has no
    duplicates and names stored rows only, and the rows have the shape
    above. *)
Record Inv (c : Controller) : Prop := {
  inv_keys : NoDup (mapKeys (resultsListRows c));
  inv_nodup : NoDup (postFilterListRows c);
  inv_stored : forall id, In id (postFilterListRows c) -> In id (mapKeys (resultsListRows c));
  inv_shape : forall row, In row (mapValues (resultsListRows c)) -> rowShape row
}.

(** What the filtered list is after a recomputation that did not raise:
    the keys of the stored rows that pass, in the order of the table. *)
Definition passing (c : Controller) (regEx : RegExp) : list string :=
  map fst (filter (fun entry : string * ResultsListRow =>
                     (String.eqb (filterText c) "" || applyFilterToRow (snd entry) regEx)%bool)
                  (resultsListRows c)).

(** A sort-by setting that is missing, or whose column names no property of
    a row. *)
Definition unresolvedSortBy (sortBy : option ResultsListSortBy) : Prop :=
  match sortBy with
  | None => True
  | Some sb => forall row, rowGet row (keyOf (column sb)) = None
  end.

(** The cell a row is grouped by, and its grouping key. *)
Definition cellOf (c : Controller) (row : ResultsListRow) : option ResultsListValue :=
  rowGet row (keyOf (groupBy c)).

Definition rowKey (c : Controller) (row : ResultsListRow) : option JsVal :=
  match cellOf c row with
  | Some v => Some (groupingKey (groupBy c) v)
  | None => None
  end.

Definition keyIs (c : Controller) (k : JsVal) (row : ResultsListRow) : bool :=
  match rowKey c row with
  | Some k' => JsVal_eqb k' k
  | None => false
  end.

(** The stored rows the ids name, in the order of the ids. *)
Definition memberRows (c : Controller) (ids : list string) : list ResultsListRow :=
  flat_map (fun id => match mapGet String.eqb (resultsListRows c) id with
                      | Some row => [row]
                      | None => []
                      end) ids.

(** Those of them with grouping key [k], in the same order. *)
Definition rowsWithKey (c : Controller) (k : JsVal) (ids : list string)
  : list ResultsListRow :=
  filter (keyIs c k) (memberRows c ids).

Definition totalRows (gs : list ResultsListGroup.t) : nat :=
  list_sum (map (fun g => List.length (ResultsListGroup.rows g)) gs).

(** What the map of groups is after the ids [done] have been put in. *)
Record Grouped (c : Controller) (done : list string)
  (gm : JsMap JsVal ResultsListGroup.t) : Prop := {
  grouped_keys : NoDup (mapKeys gm);
  grouped_rows : forall k g,
    mapGet JsVal_eqb gm k = Some g ->
    ResultsListGroup.rows g = rowsWithKey c k done
    /\ exists r0 rest v0,
         ResultsListGroup.rows g = r0 :: rest
         /\ cellOf c r0 = Some v0
         /\ ResultsListGroup.text g = value v0
         /\ ResultsListGroup.tooltip g = tooltip v0;
  grouped_all : forall r,
    In r (memberRows c done) -> exists k, rowKey c r = Some k /\ In k (mapKeys gm);
  grouped_total : totalRows (mapValues gm) = List.length done
}.

(** Does [name] name a property of a row, own or inherited? *)
Definition namesRowProperty (name : string) : bool :=
  existsb (String.eqb name)
    (["message"; "resultId"; "ruleId"; "ruleName"; "runId"; "sarifFile";
      "severityLevel"; "resultFile"; "resultStartPos"] ++ objectPrototypeNames).

(** A group after its rows were sorted: the same rows in some order, the
    same label. *)
Definition sameGroup (g g' : ResultsListGroup.t) : Prop :=
  Permutation (ResultsListGroup.rows g) (ResultsListGroup.rows g')
  /\ ResultsListGroup.text g' = ResultsListGroup.text g
  /\ ResultsListGroup.tooltip g' = ResultsListGroup.tooltip g.

Definition groupsByFile (c : Controller) : Prop :=
  groupBy c = Some "sarifFile" \/ groupBy c = Some "resultFile".

(** Under a file column: the cell of that column, the full path it carries
    as tooltip, the short name it displays, and the listed rows of a path
    in the order of the list. *)
Definition fileCell (c : Controller) (row : ResultsListRow) : ResultsListValue :=
  if optString_eqb (groupBy c) (Some "sarifFile") then sarifFile row else resultFile row.

Definition fullPath (c : Controller) (row : ResultsListRow) : option string :=
  tooltip (fileCell c row).

Definition shortName (c : Controller) (row : ResultsListRow) : JsVal :=
  value (fileCell c row).

Definition rowsOfPath (c : Controller) (path : option string) : list ResultsListRow :=
  filter (fun row => optString_eqb (fullPath c row) path)
         (memberRows c (postFilterListRows c)).

(** The id a removal computes for a diagnostic. *)
Definition diagId (diag : SarifViewerDiagnostic) : string :=
  rowIdOf (VNum (ResultInfo.runId (resultInfo diag)))
          (VNum (ResultInfo.id (resultInfo diag))).

(** The groups the grouping loop makes of a state, none if it raises. *)
Definition groupsOf (c : Controller) : list ResultsListGroup.t :=
  match groupRows c with
  | Normal gs => gs
  | Throw _ => []
  end.

(** *** Vocabulary of the further properties *)

(** What an operation leaves alone outside the controller: the settings,
    the diagnostic collection, the data handed to the explorer and the
    reveal requests. *)
Definition sameSurroundings (w w' : World) : Prop :=
  sarifConfig w' = sarifConfig w
  /\ getRunInfo w' = getRunInfo w
  /\ getResultInfo w' = getResultInfo w
  /\ explorerData w' = explorerData w
  /\ revealed w' = revealed w.

(** The view settings and the filter settings of two controllers agree. *)
Definition sameView (c c' : Controller) : Prop :=
  columns c' = columns c /\ groupBy c' = groupBy c /\ sortBy c' = sortBy c.

Definition sameFilter (c c' : Controller) : Prop :=
  filterText c' = filterText c /\ filterCaseMatch c' = filterCaseMatch c.

(** A row as createResultsListRow makes them. *)
Definition created (row : ResultsListRow) : Prop :=
  exists w info, createResultsListRow w info = Normal row.

(** What of a column descriptor never changes: its key, description and
    title. *)
Definition columnsLayout (cols : list (string * ResultsListColumn))
  : list (string * string * string) :=
  map (fun e => (fst e, description (snd e), title (snd e))) cols.

(** Is the column [col] hidden according to the descriptors? *)
Definition hidden (cols : list (string * ResultsListColumn)) (col : string) : option bool :=
  option_map hide (mapGet String.eqb cols col).

(** The label of a group. *)
Definition labelOf (g : ResultsListGroup.t) : JsVal * option string :=
  (ResultsListGroup.text g, ResultsListGroup.tooltip g).

Definition sizeIs (n : nat) (g : ResultsListGroup.t) : bool :=
  Nat.eqb (List.length (ResultsListGroup.rows g)) n.

(** The keys the typed columns are compared by: the position of a row as a
    pair, the rank of its severity, the number in a cell. *)
Definition positionOf (row : ResultsListRow) : Z * Z :=
  match pos (resultStartPos row) with
  | Some p => (line p, character p)
  | None => (0, 0)
  end.


Definition numberOf (cell : ResultsListValue) : Z :=
  match value cell with
  | VNum n => n
  | _ => 0
  end.

(** Order of positions: by line, then by column. *)
Definition positionLe (a b : Z * Z) : Prop :=
  fst a < fst b \/ (fst a = fst b /\ snd a <= snd b).

(** The order a direction asks for. *)
Definition directed {K} (ascending : bool) (le : K -> K -> Prop) (a b : K) : Prop :=
  if ascending then le a b else le b a.

(** The order in which a run of the sort goes: each element not below the
    one before it, or each strictly below the one before it. *)
Definition runOrder {A} (le : A -> A -> Prop) (descending : bool) (a b : A) : Prop :=
  if descending then ~ le a b else le a b.

(** A group with the rows sorted by [sortBy], label kept. *)
Definition sortedFrom (sortBy : option ResultsListSortBy) (g g' : ResultsListGroup.t) : Prop :=
  arraySort (compareRows sortBy) (ResultsListGroup.rows g) = Normal (ResultsListGroup.rows g')
  /\ ResultsListGroup.text g' = ResultsListGroup.text g
  /\ ResultsListGroup.tooltip g' = ResultsListGroup.tooltip g.

(** The data set getResultData assembles around a list of groups. *)
Definition dataWith (c : Controller) (groups : list ResultsListGroup.t) : ResultsListData.t :=
  {| ResultsListData.columns := columns c;
     ResultsListData.filterCaseMatch := filterCaseMatch c;
     ResultsListData.filterText := filterText c;
     ResultsListData.groupBy := groupBy c;
     ResultsListData.groups := groups;
     ResultsListData.resultCount := mapSize (resultsListRows c);
     ResultsListData.sortBy := sortBy c |}.

(** Does a string hold the character [c]? *)
Fixpoint holds (c : ascii) (s : string) : bool :=
  match s with
  | EmptyString => false
  | String a t => Ascii.eqb a c || holds c t
  end.

(** The messages that are answered by writing a setting. *)
Definition writesSetting (msg : WebviewMessage) : bool :=
  match msg with
  | ResultsListColumnToggled _ | ResultsListGroupChanged _ | ResultsListSortChanged _ => true
  | _ => false
  end.

(** The controller after the update loop has taken in one row [row] with
    id [id], under the compiled filter [regEx]. *)
Definition upserted (c : Controller) (id : string) (row : ResultsListRow) (regEx : RegExp)
  : Controller :=
  let c1 := setResultsListRows (mapSet String.eqb (resultsListRows c) id row) c in
  let index := indexOf (postFilterListRows c) id in
  if applyFilterToRow row regEx
  then if index =? -1
       then setPostFilterListRows (postFilterListRows c ++ [id]) c1
       else c1
  else if negb (index =? -1)
       then setPostFilterListRows (splice1 (postFilterListRows c) index) c1
       else c1.

(** The id of a stored row, from its own cells. *)
Definition ownId (row : ResultsListRow) : string :=
  rowIdOf (value (runId row)) (value (resultId row)).

(** Every entry of the row table is a row made by createResultsListRow,
    stored under its own id. *)
Definition keyedByIdentity (c : Controller) : Prop :=
  forall id row, In (id, row) (resultsListRows c) -> created row /\ id = ownId row.

(** The comparison of two keys that are pairs: by the first parts, and by
    the second parts when the first are equal. *)
Definition pairDiff (a b : Z * Z) : Z :=
  if fst a - fst b =? 0 then snd a - snd b else fst a - fst b.


Definition runIdKey (row : ResultsListRow) : Z * Z := (numberOf (runId row), 0).

Definition keyEqb (k : Z * Z) (k' : Z * Z) : bool :=
  ((fst k =? fst k') && (snd k =? snd k'))%bool.

Definition resultIdKey (row : ResultsListRow) : Z * Z := (numberOf (resultId row), 0).

(** Rows sorted by a key, in the direction asked for. *)
Definition sortedByKey (key : ResultsListRow -> Z * Z) (ascending : bool)
  (rows : list ResultsListRow) : Prop :=
  StronglySorted (fun a b => directed ascending positionLe (key a) (key b)) rows.

(** Rows with equal keys stand as they stood in [before]. *)
Definition tiesKeepOrder (key : ResultsListRow -> Z * Z)
  (before after : list ResultsListRow) : Prop :=
  forall k, filter (fun r => keyEqb k (key r)) after
            = filter (fun r => keyEqb k (key r)) before.

End Vocabulary.

(** ** Concrete runs of the further properties *)

Module Runs.
Import Scenario.

Definition blankRow : ResultsListRow :=
  {| message := inheritedMember; resultId := inheritedMember; ruleId := inheritedMember;
     ruleName := inheritedMember; runId := inheritedMember; sarifFile := inheritedMember;
     severityLevel := inheritedMember; resultFile := inheritedMember;
     resultStartPos := inheritedMember |}.

(** The row made of a diagnostic, the compiled filter and the data set of a
    state, where they exist. *)
Definition rowOf (w : World) (diag : SarifViewerDiagnostic) : ResultsListRow :=
  match createResultsListRow w (resultInfo diag) with
  | Normal row => row
  | Throw _ => blankRow
  end.

Definition filterOf (c : Controller) : EcmaRegExp.compiled :=
  match generateFilterRegExp c with
  | Normal regEx => regEx
  | Throw _ => {| EcmaRegExp.source := EcmaRegExp.Eps; EcmaRegExp.ignoreCase := false |}
  end.

Definition dataOf (c : Controller) : ResultsListData.t :=
  match getResultData c with
  | Normal data => data
  | Throw _ => dataWith c []
  end.

(** The first group of the data set. *)
Definition firstGroup (c : Controller) : ResultsListGroup.t :=
  hd {| ResultsListGroup.rows := []; ResultsListGroup.text := VUndefined;
        ResultsListGroup.tooltip := None |}
     (ResultsListData.groups (dataOf c)).

Definition secondGroup (c : Controller) : ResultsListGroup.t :=
  nth 1 (ResultsListData.groups (dataOf c)) (firstGroup c).

(** Two and three rows under one rule, grouped by rule; and three rows
    loaded last position first, sorted by a given column. *)
Definition two : World := loaded (settings "ruleId" "ruleName" true) [d11; d12].

Definition three : World := loaded (settings "ruleId" "ruleName" true) [d11; d12; d13].

Definition sortedBy (col : string) (asc : bool) : World :=
  loaded (settings "ruleId" col asc) [d13; d12; d11].

(** Three rows, two of [/x/a.c] and one of [/y/a.c], grouped by result
    file. *)
Definition byFile : World :=
  loaded (settings "resultFile" "resultStartPos" true) [d11; d12; d13].

(** [three] with the filter text [sec]. *)
Definition filtered : World :=
  snd (onResultsListMessage (ResultsListFilterApplied "sec") three).

End Runs.
(** * Properties *)

(** ** Facts about the JavaScript model *)

Lemma JsVal_eqb_spec a b : reflect (a = b) (JsVal_eqb a b).
Proof.
  destruct a as [|x|s], b as [|y|t]; simpl; try (constructor; congruence).
  - destruct (Z.eqb_spec x y); constructor; congruence.
  - destruct (String.eqb_spec s t); constructor; congruence.
Qed.

Lemma JsVal_eqb_refl a : JsVal_eqb a a = true.
Proof. destruct (JsVal_eqb_spec a a); congruence. Qed.

Lemma indexOf_range l x : indexOf l x = -1 \/ 0 <= indexOf l x < Z.of_nat (List.length l).
Proof.
  induction l as [|y t IH]; simpl; [now left|].
  destruct (String.eqb y x); [right; lia|].
  destruct (Z.eqb_spec (indexOf t x) (-1)); [now left|right; lia].
Qed.

Lemma indexOf_absent l x : indexOf l x = -1 <-> ~ In x l.
Proof.
  induction l as [|y t IH]; simpl; [tauto|].
  destruct (String.eqb_spec y x) as [->|Hne].
  - split; [lia|tauto].
  - destruct (Z.eqb_spec (indexOf t x) (-1)) as [E|E].
    + split; [|reflexivity]. intros _ [H|H]; [congruence|tauto].
    + destruct (indexOf_range t x) as [R|R]; [congruence|].
      split; [lia|]. intros H. exfalso. apply E, IH. tauto.
Qed.

(** [splice(index)] keeps a prefix. *)
Lemma splice1_prefix {A} (l : list A) i : exists n, splice1 l i = firstn n l.
Proof. unfold splice1. destruct (i <? 0); eauto. Qed.

Lemma NoDup_firstn {A} n (l : list A) : NoDup l -> NoDup (firstn n l).
Proof.
  intros H. rewrite <- (firstn_skipn n l) in H.
  eapply NoDup_app_remove_r; eauto.
Qed.

Lemma In_firstn {A} n (l : list A) x : In x (firstn n l) -> In x l.
Proof.
  intros H. rewrite <- (firstn_skipn n l). apply in_or_app. now left.
Qed.

(** [trim] cuts a run of white space off each end and leaves none there. *)
Lemma trimStart_spec s :
  exists a, s = (a ++ trimStart s)%string
            /\ allTrimmable a = true /\ startsTrimmable (trimStart s) = false.
Proof.
  induction s as [|c t IH]; simpl.
  - exists EmptyString. auto.
  - destruct (isTrimmable c) eqn:E.
    + destruct IH as [a [Ha [Hall Hs]]]. exists (String c a). simpl.
      rewrite E, Hall, <- Ha. auto.
    + exists EmptyString. simpl. auto.
Qed.

Lemma trimEnd_spec s :
  exists b, s = (trimEnd s ++ b)%string
            /\ allTrimmable b = true /\ endsTrimmable (trimEnd s) = false.
Proof.
  induction s as [|c t IH]; simpl.
  - exists EmptyString. auto.
  - destruct IH as [b [Hb [Hall He]]].
    destruct (trimEnd t) as [|c' t'] eqn:Et.
    + simpl in Hb. subst b. destruct (isTrimmable c) eqn:E.
      * exists (String c t). simpl. rewrite E, Hall. auto.
      * exists t. simpl. rewrite E. auto.
    + exists b. simpl. rewrite Hb at 1. auto.
Qed.

Lemma trimEnd_keeps_start s :
  startsTrimmable s = false -> startsTrimmable (trimEnd s) = false.
Proof.
  destruct s as [|c t]; simpl; [auto|]. intros E.
  destruct (trimEnd t); [rewrite E|]; simpl; auto.
Qed.

Lemma trim_spec s :
  exists a b, s = (a ++ trim s ++ b)%string
              /\ allTrimmable a = true /\ allTrimmable b = true
              /\ startsTrimmable (trim s) = false /\ endsTrimmable (trim s) = false.
Proof.
  unfold trim.
  destruct (trimStart_spec s) as [a [Ha [Haa Hs]]].
  destruct (trimEnd_spec (trimStart s)) as [b [Hb [Hbb He]]].
  exists a, b. rewrite <- Hb, <- Ha.
  repeat split; auto. now apply trimEnd_keeps_start.
Qed.

(** ** Filter messages *)

Section FilterMessages.
Context {runtime : JsRuntime} {enums : SarifEnums}.

Lemma generateFilterRegExp_invalid c :
  filterText c <> "" -> invalidPattern (filterText c) ->
  exists e, generateFilterRegExp c = Throw e.
Proof.
  intros Hne Hinv. unfold generateFilterRegExp.
  destruct (String.eqb_spec (filterText c) "") as [E|_]; [contradiction|].
  simpl. apply Hinv. destruct (filterCaseMatch c); simpl; auto.
Qed.

(** Recomputing the filtered list with an invalid pattern: the list has
    been emptied when the constructor raises. *)
Lemma updateFilteredRowsList_invalid w :
  filterText (this w) <> "" -> invalidPattern (filterText (this w)) ->
  exists e, updateFilteredRowsList w
            = (Throw e, setThis (setPostFilterListRows [] (this w)) w).
Proof.
  intros Hne Hinv.
  destruct (@generateFilterRegExp_invalid (setPostFilterListRows [] (this w)) Hne Hinv)
    as [e He].
  exists e. unfold updateFilteredRowsList, bind, modifyThis, getThis, lift.
  simpl. rewrite He. reflexivity.
Qed.

(** C1, as the code has it: with a filter text the RegExp constructor
    rejects, filter-apply and filter-case-toggle do raise through
    onResultsListMessage.  Nothing catches the SyntaxError of
    generateFilterRegExp: the handler stops there, the new filter text (or
    the toggled case flag) stays in place, the filtered list is left empty,
    and nothing is posted to the explorer. *)
Theorem invalid_filter_pattern_raises (w : World) (raw : string) :
  (trim raw <> "" -> trim raw <> filterText (this w) -> invalidPattern (trim raw) ->
   exists e,
     onResultsListMessage (ResultsListFilterApplied raw) w
     = (Throw e,
        setThis (setPostFilterListRows [] (setFilterText (trim raw) (this w))) w))
  /\
  (filterText (this w) <> "" -> invalidPattern (filterText (this w)) ->
   exists e,
     onResultsListMessage ResultsListFilterCaseToggled w
     = (Throw e,
        setThis (setPostFilterListRows []
                   (setFilterCaseMatch (negb (filterCaseMatch (this w))) (this w))) w)).
Proof.
  split.
  - intros Hne Hdiff Hinv.
    set (w1 := setThis (setFilterText (trim raw) (this w)) w).
    destruct (@updateFilteredRowsList_invalid w1 Hne Hinv) as [e He].
    exists e. unfold onResultsListMessage, bind, getThis, modifyThis.
    destruct (String.eqb_spec (trim raw) (filterText (this w))); [contradiction|].
    simpl. fold w1. rewrite He. reflexivity.
  - intros Hne Hinv.
    set (w1 := setThis (setFilterCaseMatch (negb (filterCaseMatch (this w))) (this w)) w).
    destruct (@updateFilteredRowsList_invalid w1 Hne Hinv) as [e He].
    exists e. unfold onResultsListMessage, bind, modifyThis.
    fold w1. rewrite He. reflexivity.
Qed.

(** postDataToExplorer leaves the controller's fields alone. *)
Lemma postDataToExplorer_this w : this (snd (postDataToExplorer w)) = this w.
Proof.
  unfold postDataToExplorer, bind, getThis, lift.
  destruct (getResultData (this w)); reflexivity.
Qed.

Lemma forEachM_filterText {A} (f : A -> M unit) (l : list A) :
  (forall x w, filterText (this (snd (f x w))) = filterText (this w)) ->
  forall w, filterText (this (snd (forEachM f l w))) = filterText (this w).
Proof.
  intros Hf. induction l as [|x t IH]; intros w; [reflexivity|].
  simpl. unfold bind. specialize (Hf x w).
  destruct (f x w) as [[[]|e] w']; simpl in *; [rewrite IH|]; assumption.
Qed.

(** updateFilteredRowsList leaves the filter text alone. *)
Lemma updateFilteredRowsList_filterText w :
  filterText (this (snd (updateFilteredRowsList w))) = filterText (this w).
Proof.
  unfold updateFilteredRowsList, bind, modifyThis, getThis, lift. simpl.
  destruct (generateFilterRegExp _) as [re|e]; [|reflexivity].
  rewrite forEachM_filterText; [reflexivity|].
  intros [key row] w'. unfold modifyThis. simpl.
  destruct (_ || _)%bool; reflexivity.
Qed.

(** C10: filter-apply trims the raw text, that is, compares and stores the
    text without the white space at its two ends; when the trimmed text is
    the current filter text the message changes nothing at all (the filtered
    list is not recomputed, nothing is posted to the explorer), and
    otherwise the trimmed text becomes the filter text. *)
Theorem filter_apply_trims_and_skips_same_text (w : World) (raw : string) :
  (trim raw = filterText (this w) ->
   onResultsListMessage (ResultsListFilterApplied raw) w = (Normal tt, w))
  /\
  (trim raw <> filterText (this w) ->
   filterText (this (snd (onResultsListMessage (ResultsListFilterApplied raw) w)))
   = trim raw)
  /\
  (exists a b, raw = (a ++ trim raw ++ b)%string
               /\ allTrimmable a = true /\ allTrimmable b = true
               /\ startsTrimmable (trim raw) = false
               /\ endsTrimmable (trim raw) = false).
Proof.
  split; [|split; [|apply trim_spec]];
    intros H; unfold onResultsListMessage, bind, getThis.
  - destruct (String.eqb_spec (trim raw) (filterText (this w))); [reflexivity|contradiction].
  - destruct (String.eqb_spec (trim raw) (filterText (this w))); [contradiction|].
    simpl. unfold modifyThis.
    set (w1 := setThis (setFilterText (trim raw) (this w)) w).
    pose proof (updateFilteredRowsList_filterText w1) as Hu.
    destruct (updateFilteredRowsList w1) as [[[]|e] w2]; simpl in *.
    + rewrite postDataToExplorer_this. exact Hu.
    + exact Hu.
Qed.

(** C2, as the code has it: a row-select message never changes the
    controller's fields, the settings or what was posted to the explorer.
    When the identity resolves to a diagnostic with a location the handler
    returns and asks for that location to be revealed; when it does not
    resolve, reading the diagnostic raises a TypeError out of
    onResultsListMessage, and the world is left as it was. *)
Theorem row_select_keeps_state_but_raises_when_unresolved (w : World) (id : RowIdentity) :
  let out := onResultsListMessage (ResultsListResultSelected id) w in
  this (snd out) = this w
  /\ sarifConfig (snd out) = sarifConfig w
  /\ explorerData (snd out) = explorerData w
  /\ (getResultInfo w (selectedResultId id) (selectedRunId id) = None ->
      exists e, out = (Throw e, w))
  /\ (forall diagnostic loc,
        getResultInfo w (selectedResultId id) (selectedRunId id) = Some diagnostic ->
        ResultInfo.assignedLocation (resultInfo diagnostic) = Some loc ->
        out = (Normal tt, setRevealed (revealed w ++ [loc]) w)).
Proof.
  cbv zeta. unfold onResultsListMessage.
  destruct (getResultInfo w _ _) as [d|].
  - destruct (ResultInfo.assignedLocation (resultInfo d)) as [loc|] eqn:E; simpl;
      repeat split; try discriminate; intros d' loc' Hd Hl; congruence.
  - simpl. repeat split; eauto; discriminate.
Qed.

End FilterMessages.

(** ** The filter *)

Section Filter.
Context {runtime : JsRuntime} {enums : SarifEnums}.

Lemma generateFilterRegExp_eq c :
  generateFilterRegExp c
  = newRegExp (filterPattern (filterText c)) (filterFlags (filterCaseMatch c)).
Proof.
  unfold generateFilterRegExp, filterPattern, filterFlags.
  destruct (String.eqb (filterText c) ""), (filterCaseMatch c); reflexivity.
Qed.

(** C5, as the code has it: a row passes the compiled filter exactly when
    the pattern matches the tested text of at least one of the six cells
    message, ruleId, ruleName, severityLevel, resultFile and sarifFile,
    where a cell without display value is tested as the text [undefined].
    So a row passes exactly when the pattern matches what one of the six
    cells displays, or matches the text [undefined] while one of the six
    cells displays nothing.  The pattern is compiled from the filter text
    with the [i] flag unless case is to be matched; and with an empty
    filter text the filter compiles and every row passes. *)
Theorem applyFilterToRow_any_of_six_fields (c : Controller) (row : ResultsListRow) :
  (forall regExp,
     applyFilterToRow row regExp = true
     <-> exists cell, In cell (filterFields row)
                      /\ regExpTest regExp (testedText cell) = true)
  /\ (forall regExp,
        applyFilterToRow row regExp = true
        <-> (exists cell, In cell (filterFields row) /\ displayMatches regExp cell = true)
            \/ (regExpTest regExp "undefined" = true
                /\ exists cell, In cell (filterFields row) /\ value cell = VUndefined))
  /\ generateFilterRegExp c
     = newRegExp (filterPattern (filterText c)) (filterFlags (filterCaseMatch c))
  /\ (filterText c = "" ->
      exists regExp, generateFilterRegExp c = Normal regExp
                     /\ forall row', applyFilterToRow row' regExp = true).
Proof.
  assert (applyFilterToRow_text : forall regExp cell,
            regExpTest regExp (ToString (value cell)) = true
            <-> regExpTest regExp (testedText cell) = true).
  { intros regExp cell. unfold testedText. destruct (value cell); reflexivity. }
  assert (Htested : forall regExp,
            applyFilterToRow row regExp = true
            <-> exists cell, In cell (filterFields row)
                             /\ regExpTest regExp (testedText cell) = true).
  { intros regExp. unfold applyFilterToRow, filterFields. split.
    - intros H.
      destruct (regExpTest regExp (ToString (value (message row)))) eqn:E1;
        [exists (message row); split; [simpl; tauto|exact (proj1 (applyFilterToRow_text _ _) E1)]|].
      destruct (regExpTest regExp (ToString (value (ruleId row)))) eqn:E2;
        [exists (ruleId row); split; [simpl; tauto|exact (proj1 (applyFilterToRow_text _ _) E2)]|].
      destruct (regExpTest regExp (ToString (value (ruleName row)))) eqn:E3;
        [exists (ruleName row); split; [simpl; tauto|exact (proj1 (applyFilterToRow_text _ _) E3)]|].
      destruct (regExpTest regExp (ToString (value (severityLevel row)))) eqn:E4;
        [exists (severityLevel row); split;
           [simpl; tauto|exact (proj1 (applyFilterToRow_text _ _) E4)]|].
      destruct (regExpTest regExp (ToString (value (resultFile row)))) eqn:E5;
        [exists (resultFile row); split; [simpl; tauto|exact (proj1 (applyFilterToRow_text _ _) E5)]|].
      destruct (regExpTest regExp (ToString (value (sarifFile row)))) eqn:E6;
        [exists (sarifFile row); split; [simpl; tauto|exact (proj1 (applyFilterToRow_text _ _) E6)]|].
      discriminate H.
    - intros [cell [Hin Hcell]]. apply (proj2 (applyFilterToRow_text _ _)) in Hcell. simpl in Hin.
      destruct Hin as [<-|[<-|[<-|[<-|[<-|[<-|[]]]]]]]; rewrite Hcell;
        rewrite ?orb_true_r; reflexivity. }
  split; [exact Htested|]. split; [|split].
  - intros regExp. rewrite Htested. split.
    + intros [cell [Hin Hcell]].
      destruct (value cell) as [|n|s] eqn:Ev.
      * right. unfold testedText in Hcell. rewrite Ev in Hcell. split; [exact Hcell|eauto].
      * left. exists cell. split; [exact Hin|].
        unfold displayMatches, testedText in *. now rewrite Ev in *.
      * left. exists cell. split; [exact Hin|].
        unfold displayMatches, testedText in *. now rewrite Ev in *.
    + intros [[cell [Hin Hcell]]|[Hu [cell [Hin Ev]]]]; exists cell; split; try exact Hin.
      * unfold displayMatches, testedText in *.
        destruct (value cell); [discriminate|exact Hcell|exact Hcell].
      * unfold testedText. now rewrite Ev.
  - apply generateFilterRegExp_eq.
  - intros Hempty. rewrite generateFilterRegExp_eq, Hempty. unfold filterPattern. simpl.
    destruct (newRegExp_undefined (flags := filterFlags (filterCaseMatch c)))
      as [regExp [Hre Hall]].
    { unfold filterFlags. destruct (filterCaseMatch c); auto. }
    exists regExp. split; [exact Hre|].
    intros row'. unfold applyFilterToRow. rewrite Hall. reflexivity.
Qed.

End Filter.


(** ** Facts about the insertion-ordered map *)

Section MapFacts.
Variables K V : Type.
Variable keq : K -> K -> bool.
Hypothesis keq_spec : forall a b, reflect (a = b) (keq a b).

Lemma mapGet_In_keys (m : JsMap K V) k v : mapGet keq m k = Some v -> In k (mapKeys m).
Proof.
  induction m as [|[k' v'] t IH]; simpl; [discriminate|].
  destruct (keq_spec k' k); [intros _; now left|intros H; right; auto].
Qed.

Lemma mapGet_In_values (m : JsMap K V) k v : mapGet keq m k = Some v -> In v (mapValues m).
Proof.
  induction m as [|[k' v'] t IH]; simpl; [discriminate|].
  destruct (keq_spec k' k); [intros [= ->]; now left|intros H; right; auto].
Qed.

Lemma mapGet_None_keys (m : JsMap K V) k : mapGet keq m k = None <-> ~ In k (mapKeys m).
Proof.
  induction m as [|[k' v'] t IH]; simpl; [tauto|].
  destruct (keq_spec k' k); [split; [discriminate|tauto]|].
  rewrite IH. tauto.
Qed.

Lemma In_keys_mapGet (m : JsMap K V) k : In k (mapKeys m) -> exists v, mapGet keq m k = Some v.
Proof.
  intros H. destruct (mapGet keq m k) as [v|] eqn:E; [eauto|].
  apply mapGet_None_keys in E. contradiction.
Qed.

Lemma mapKeys_mapSet_present (m : JsMap K V) k v :
  In k (mapKeys m) -> mapKeys (mapSet keq m k v) = mapKeys m.
Proof.
  induction m as [|[k' v'] t IH]; simpl; [tauto|].
  destruct (keq_spec k' k); [reflexivity|].
  intros [H|H]; [contradiction|]. simpl. now rewrite IH.
Qed.

Lemma mapKeys_mapSet_absent (m : JsMap K V) k v :
  ~ In k (mapKeys m) -> mapKeys (mapSet keq m k v) = mapKeys m ++ [k].
Proof.
  induction m as [|[k' v'] t IH]; simpl; [reflexivity|].
  destruct (keq_spec k' k); [tauto|].
  intros H. simpl. rewrite IH; tauto.
Qed.

Lemma In_mapKeys_mapSet (m : JsMap K V) k v x :
  In x (mapKeys (mapSet keq m k v)) <-> x = k \/ In x (mapKeys m).
Proof.
  induction m as [|[k' v'] t IH]; simpl; [firstorder|].
  destruct (keq_spec k' k) as [->|Hne]; simpl; [|rewrite IH]; firstorder.
Qed.

Lemma NoDup_mapKeys_mapSet (m : JsMap K V) k v :
  NoDup (mapKeys m) -> NoDup (mapKeys (mapSet keq m k v)).
Proof.
  induction m as [|[k' v'] t IH]; simpl; intros H.
  - constructor; [tauto|constructor].
  - inversion H; subst. destruct (keq_spec k' k) as [->|Hne]; simpl.
    + constructor; assumption.
    + constructor; [|auto]. rewrite In_mapKeys_mapSet. intros [E|E]; [congruence|tauto].
Qed.

Lemma In_mapValues_mapSet (m : JsMap K V) k v x :
  In x (mapValues (mapSet keq m k v)) -> x = v \/ In x (mapValues m).
Proof.
  induction m as [|[k' v'] t IH]; simpl; [firstorder|].
  destruct (keq_spec k' k); simpl; [firstorder|].
  intros [H|H]; [tauto|]. apply IH in H. tauto.
Qed.

Lemma mapGet_mapSet_same (m : JsMap K V) k v : mapGet keq (mapSet keq m k v) k = Some v.
Proof.
  induction m as [|[k' v'] t IH]; simpl.
  - destruct (keq_spec k k); congruence.
  - destruct (keq_spec k' k) as [->|Hne]; simpl.
    + destruct (keq_spec k k); congruence.
    + destruct (keq_spec k' k); [contradiction|exact IH].
Qed.

Lemma mapGet_mapSet_other (m : JsMap K V) k v k0 :
  k0 <> k -> mapGet keq (mapSet keq m k v) k0 = mapGet keq m k0.
Proof.
  intros Hne. induction m as [|[k' v'] t IH]; simpl.
  - destruct (keq_spec k k0); congruence.
  - destruct (keq_spec k' k) as [->|Hne']; simpl.
    + destruct (keq_spec k k0); congruence.
    + destruct (keq_spec k' k0); [reflexivity|exact IH].
Qed.

Lemma In_mapKeys_mapDelete (m : JsMap K V) k x :
  In x (mapKeys (mapDelete keq m k)) -> In x (mapKeys m).
Proof.
  induction m as [|[k' v'] t IH]; simpl; [tauto|].
  destruct (keq_spec k' k); simpl; [tauto|]. intros [H|H]; auto.
Qed.

Lemma mapKeys_mapDelete_keeps (m : JsMap K V) k x :
  x <> k -> In x (mapKeys m) -> In x (mapKeys (mapDelete keq m k)).
Proof.
  intros Hne. induction m as [|[k' v'] t IH]; simpl; [tauto|].
  destruct (keq_spec k' k) as [->|Hne']; simpl; [|tauto].
  intros [H|H]; [congruence|assumption].
Qed.

Lemma NoDup_mapKeys_mapDelete (m : JsMap K V) k :
  NoDup (mapKeys m) -> NoDup (mapKeys (mapDelete keq m k)).
Proof.
  induction m as [|[k' v'] t IH]; simpl; intros H; [constructor|].
  inversion H; subst. destruct (keq_spec k' k); simpl; [assumption|].
  constructor; [|auto]. intros Hin. apply In_mapKeys_mapDelete in Hin. contradiction.
Qed.

Lemma mapDelete_gone (m : JsMap K V) k :
  NoDup (mapKeys m) -> ~ In k (mapKeys (mapDelete keq m k)).
Proof.
  induction m as [|[k' v'] t IH]; simpl; intros H; [tauto|].
  inversion H; subst. destruct (keq_spec k' k) as [->|Hne]; simpl; [assumption|].
  intros [E|E]; [contradiction|]. now apply IH.
Qed.

Lemma In_mapValues_mapDelete (m : JsMap K V) k x :
  In x (mapValues (mapDelete keq m k)) -> In x (mapValues m).
Proof.
  induction m as [|[k' v'] t IH]; simpl; [tauto|].
  destruct (keq_spec k' k); simpl; [tauto|]. intros [H|H]; auto.
Qed.

(** Deleting a key that is not there changes nothing. *)
Lemma mapDelete_absent (m : JsMap K V) k : ~ In k (mapKeys m) -> mapDelete keq m k = m.
Proof.
  induction m as [|[k' v'] t IH]; simpl; [reflexivity|].
  destruct (keq_spec k' k); [tauto|]. intros H. rewrite IH; tauto.
Qed.

(** Deleting a key that is there takes the size down by one. *)
Lemma mapSize_mapDelete_present (m : JsMap K V) k :
  In k (mapKeys m) -> mapSize (mapDelete keq m k) = mapSize m - 1.
Proof.
  unfold mapSize. intros Hin.
  assert (H : S (List.length (mapDelete keq m k)) = List.length m).
  { induction m as [|[k' v'] t IH]; cbn [mapKeys map fst In mapDelete] in *; [tauto|].
    destruct (keq_spec k' k) as [->|Hne]; [reflexivity|].
    destruct Hin as [H|H]; [contradiction|]. cbn [List.length]. now rewrite IH. }
  lia.
Qed.

End MapFacts.

(** ** Invariant of the controller *)

Section Invariant.
Context {runtime : JsRuntime} {enums : SarifEnums}.

Lemma createResultsListRow_shape w info row :
  createResultsListRow w info = Normal row -> rowShape row.
Proof.
  unfold createResultsListRow.
  destruct (getRunInfo w _) as [run|]; [|discriminate].
  destruct (nth_error (ResultInfo.locations info) 0) as [[loc|]|];
    intros [= <-]; unfold rowShape; simpl; repeat split; discriminate.
Qed.

Lemma In_splice1_indexOf l x y :
  indexOf l x <> -1 -> In y (splice1 l (indexOf l x)) -> In y l /\ y <> x.
Proof.
  intros Hi. unfold splice1.
  destruct (indexOf_range l x) as [R|R]; [contradiction|].
  destruct (Z.ltb_spec (indexOf l x) 0); [lia|]. clear Hi.
  induction l as [|z t IH]; simpl in *; [lia|].
  destruct (String.eqb_spec z x) as [->|Hne]; [simpl; tauto|].
  destruct (Z.eqb_spec (indexOf t x) (-1)) as [E|E]; [lia|].
  destruct (indexOf_range t x) as [R'|R']; [contradiction|].
  replace (Z.to_nat (indexOf t x + 1)) with (S (Z.to_nat (indexOf t x))) by lia.
  simpl. intros [<-|Hin]; [split; [now left|congruence]|].
  destruct IH as [? ?]; auto; try lia.
Qed.

Lemma NoDup_splice1 {A} (l : list A) i : NoDup l -> NoDup (splice1 l i).
Proof. destruct (splice1_prefix l i) as [n ->]. apply NoDup_firstn. Qed.

Lemma In_splice1 {A} (l : list A) i x : In x (splice1 l i) -> In x l.
Proof. destruct (splice1_prefix l i) as [n ->]. apply In_firstn. Qed.

Lemma removeDiag_Inv diag c : Inv c -> Inv (removeDiag diag c).
Proof.
  intros [Hk Hn Hs Hr]. unfold removeDiag.
  set (id := rowIdOf _ _). simpl.
  destruct (Z.eqb_spec (indexOf (postFilterListRows c) id) (-1)) as [E|E]; simpl.
  - constructor; simpl.
    + now apply NoDup_mapKeys_mapDelete; [apply String.eqb_spec|].
    + assumption.
    + intros x Hx. apply mapKeys_mapDelete_keeps; [apply String.eqb_spec| |auto].
      intros ->. apply indexOf_absent in E. contradiction.
    + intros row Hrow. apply Hr. eapply In_mapValues_mapDelete; [apply String.eqb_spec|eauto].
  - constructor; simpl.
    + now apply NoDup_mapKeys_mapDelete; [apply String.eqb_spec|].
    + now apply NoDup_splice1.
    + intros x Hx. apply In_splice1_indexOf in Hx; [|assumption].
      destruct Hx as [Hx Hne].
      apply mapKeys_mapDelete_keeps; [apply String.eqb_spec|assumption|auto].
    + intros row Hrow. apply Hr. eapply In_mapValues_mapDelete; [apply String.eqb_spec|eauto].
Qed.

Lemma updateDiag_Inv regEx diag w : Inv (this w) -> Inv (this (snd (updateDiag regEx diag w))).
Proof.
  intros [Hk Hn Hs Hr]. unfold updateDiag.
  destruct (createResultsListRow w (resultInfo diag)) as [row|e] eqn:Hrow; simpl;
    [|constructor; assumption].
  set (id := rowIdOf _ _).
  assert (Hk' : NoDup (mapKeys (mapSet String.eqb (resultsListRows (this w)) id row)))
    by (apply NoDup_mapKeys_mapSet; [apply String.eqb_spec|assumption]).
  assert (Hs' : forall x, In x (postFilterListRows (this w)) ->
                          In x (mapKeys (mapSet String.eqb (resultsListRows (this w)) id row))).
  { intros x Hx. apply In_mapKeys_mapSet; [apply String.eqb_spec|]. right; auto. }
  assert (Hr' : forall r, In r (mapValues (mapSet String.eqb (resultsListRows (this w)) id row))
                          -> rowShape r).
  { intros r Hin. apply In_mapValues_mapSet in Hin; [|apply String.eqb_spec].
    destruct Hin as [->|Hin]; [eapply createResultsListRow_shape; eauto|auto]. }
  destruct (applyFilterToRow row regEx);
    destruct (Z.eqb_spec (indexOf (postFilterListRows (this w)) id) (-1)) as [E|E];
    simpl; constructor; simpl; auto.
  - apply NoDup_app; [assumption|repeat constructor; simpl; tauto|].
    intros a Ha [<-|[]]. apply indexOf_absent in E. contradiction.
  - intros x Hx. apply in_app_or in Hx. destruct Hx as [Hx|[<-|[]]]; [auto|].
    apply In_mapKeys_mapSet; [apply String.eqb_spec|]. now left.
  - now apply NoDup_splice1.
  - intros x Hx. apply Hs'. eapply In_splice1; eauto.
Qed.

Lemma forEachM_preserves {A} (P : World -> Prop) (f : A -> M unit) (l : list A) :
  (forall x w, P w -> P (snd (f x w))) ->
  forall w, P w -> P (snd (forEachM f l w)).
Proof.
  intros Hf. induction l as [|x t IH]; intros w Hw; [exact Hw|].
  simpl. unfold bind. specialize (Hf x w Hw).
  destruct (f x w) as [[[]|e] w']; simpl in *; auto.
Qed.

Lemma updateResultsListData_Inv diags remove w :
  Inv (this w) -> Inv (this (snd (updateResultsListData diags remove w))).
Proof.
  intros H. unfold updateResultsListData.
  assert (Hrem : Inv (this (snd (forEachM (fun diag => modifyThis (removeDiag diag)) diags w)))).
  { apply (forEachM_preserves (fun w => Inv (this w))); [|assumption].
    intros d w' Hw'. simpl. now apply removeDiag_Inv. }
  assert (Hupd : Inv (this (snd ((c <- getThis ;;
                                  regEx <- lift (generateFilterRegExp c) ;;
                                  forEachM (updateDiag regEx) diags) w)))).
  { unfold bind, getThis, lift.
    destruct (generateFilterRegExp (this w)) as [re|e]; [|assumption].
    apply (forEachM_preserves (fun w => Inv (this w))); [|assumption].
    intros d w' Hw'. now apply updateDiag_Inv. }
  destruct remove as [[|]|]; assumption.
Qed.

Lemma pushPassing_loop c0 regEx (l : list (string * ResultsListRow)) :
  forall w,
    filterText (this w) = filterText c0 ->
    forEachM
      (fun entry : string * ResultsListRow =>
         let (key, row) := entry in
         modifyThis (fun c =>
           if (String.eqb (filterText c) "" || applyFilterToRow row regEx)%bool
           then setPostFilterListRows (postFilterListRows c ++ [key]) c
           else c)) l w
    = (Normal tt,
       setThis (setPostFilterListRows
                  (postFilterListRows (this w)
                   ++ map fst (filter (fun entry : string * ResultsListRow =>
                        (String.eqb (filterText c0) "" || applyFilterToRow (snd entry) regEx)%bool) l))
                  (this w)) w).
Proof.
  induction l as [|[key row] t IH]; intros w Hw; simpl.
  - rewrite app_nil_r. destruct w as [[]]; reflexivity.
  - unfold bind, modifyThis at 1. rewrite IH.
    + simpl. rewrite <- Hw.
      destruct (String.eqb (filterText (this w)) "" || applyFilterToRow row regEx)%bool;
        simpl; [rewrite <- app_assoc|]; destruct w as [[]]; reflexivity.
    + simpl. destruct (_ || _)%bool; simpl; assumption.
Qed.

Lemma updateFilteredRowsList_Normal w regEx :
  generateFilterRegExp (this w) = Normal regEx ->
  updateFilteredRowsList w
  = (Normal tt, setThis (setPostFilterListRows (passing (this w) regEx) (this w)) w).
Proof.
  intros Hre. unfold updateFilteredRowsList, bind, modifyThis at 1, getThis, lift.
  simpl.
  replace (generateFilterRegExp (setPostFilterListRows [] (this w)))
    with (Normal (A := RegExp) regEx) by (rewrite <- Hre; reflexivity).
  rewrite (pushPassing_loop (this w)); [|reflexivity].
  simpl. destruct w as [[]]; reflexivity.
Qed.

Lemma updateFilteredRowsList_Throw w e :
  generateFilterRegExp (this w) = Throw e ->
  updateFilteredRowsList w = (Throw e, setThis (setPostFilterListRows [] (this w)) w).
Proof.
  intros Hre. unfold updateFilteredRowsList, bind, modifyThis at 1, getThis, lift.
  simpl.
  replace (generateFilterRegExp (setPostFilterListRows [] (this w)))
    with (Throw (A := RegExp) e) by (rewrite <- Hre; reflexivity).
  reflexivity.
Qed.

Lemma NoDup_map_fst_filter {A B} (p : A * B -> bool) (l : list (A * B)) :
  NoDup (map fst l) -> NoDup (map fst (filter p l)).
Proof.
  induction l as [|x t IH]; simpl; intros H; [constructor|].
  inversion H; subst. destruct (p x); simpl; auto.
  constructor; auto. intros Hin. apply H2.
  apply in_map_iff in Hin. destruct Hin as [y [Hy Hin]].
  apply filter_In in Hin. apply in_map_iff. exists y. tauto.
Qed.

Lemma In_passing c regEx id : In id (passing c regEx) -> In id (mapKeys (resultsListRows c)).
Proof.
  unfold passing, mapKeys. intros Hin.
  apply in_map_iff in Hin. destruct Hin as [y [Hy Hin]].
  apply filter_In in Hin. apply in_map_iff. exists y. tauto.
Qed.

Lemma updateFilteredRowsList_Inv w :
  Inv (this w) -> Inv (this (snd (updateFilteredRowsList w))).
Proof.
  intros [Hk Hn Hs Hr].
  destruct (generateFilterRegExp (this w)) as [re|e] eqn:Hre.
  - rewrite (updateFilteredRowsList_Normal _ Hre). constructor; simpl; auto.
    + now apply NoDup_map_fst_filter.
    + intros id. apply In_passing.
  - rewrite (updateFilteredRowsList_Throw _ Hre). constructor; simpl; auto.
    + constructor.
    + intros id [].
Qed.

Lemma onSettingsChanged_Inv event w :
  Inv (this w) -> Inv (this (snd (onSettingsChanged event w))).
Proof.
  intros [Hk Hn Hs Hr].
  assert (H : Inv (this (snd ((c1 <- checkIfColumnsChanged ;;
                               c2 <- checkIfGroupByChanged ;;
                               c3 <- checkIfSortByChanged ;;
                               if (c1 || c2 || c3)%bool then postDataToExplorer else ret tt) w)))).
  { unfold bind, checkIfColumnsChanged.
    destruct (updateHide _ _) as [cols ch1].
    unfold checkIfGroupByChanged. simpl.
    destruct (negb (optString_eqb _ _)); simpl;
      unfold checkIfSortByChanged; simpl;
      destruct (resultsListSortBy (sarifConfig w)), (sortBy (this w)); simpl;
      repeat match goal with
             | |- context [if ?b then postDataToExplorer else ret tt] => destruct b
             end;
      rewrite ?postDataToExplorer_this; simpl; constructor; assumption. }
  destruct event as [[|]|]; simpl; [exact H| |exact H].
  constructor; assumption.
Qed.

Lemma onResultsListMessage_Inv msg w :
  Inv (this w) -> Inv (this (snd (onResultsListMessage msg w))).
Proof.
  intros H. destruct msg as [col|raw| |col|id|col]; simpl; try exact H.
  - unfold bind, getThis. destruct (negb (String.eqb (trim raw) (filterText (this w))));
      [|exact H].
    unfold modifyThis at 1.
    set (w1 := setThis (setFilterText (trim raw) (this w)) w).
    assert (H1 : Inv (this w1)) by (destruct H; constructor; assumption).
    apply updateFilteredRowsList_Inv in H1.
    destruct (updateFilteredRowsList w1) as [[[]|e] w2]; simpl in *;
      rewrite ?postDataToExplorer_this; assumption.
  - unfold bind. unfold modifyThis at 1.
    set (w1 := setThis (setFilterCaseMatch _ (this w)) w).
    assert (H1 : Inv (this w1)) by (destruct H; constructor; assumption).
    apply updateFilteredRowsList_Inv in H1.
    destruct (updateFilteredRowsList w1) as [[[]|e] w2]; simpl in *;
      rewrite ?postDataToExplorer_this; assumption.
  - destruct (getResultInfo w _ _) as [d|]; [|exact H].
    destruct (ResultInfo.assignedLocation _); exact H.
  - destruct (resultsListSortBy (sarifConfig w)); exact H.
Qed.

Lemma newController_Inv : Inv newController.
Proof.
  constructor; simpl.
  - apply NoDup_nil.
  - apply NoDup_nil.
  - intros id [].
  - intros row [].
Qed.

Lemma construct_Inv w : Inv (this (snd (construct w))).
Proof.
  unfold construct, bind, modifyThis at 1.
  apply onSettingsChanged_Inv. simpl. apply newController_Inv.
Qed.

Lemma reachable_Inv w : reachable w -> Inv (this w).
Proof.
  induction 1.
  - apply construct_Inv.
  - now apply updateResultsListData_Inv.
  - now apply onResultsListMessage_Inv.
  - now apply onSettingsChanged_Inv.
  - now rewrite postDataToExplorer_this.
  - assumption.
Qed.

(** C9: in every reachable world (after construction and after any of the
    public operations, whether it returned or raised) the filtered list
    holds each row id at most once; an update of a row that is already
    listed adds nothing, and a recomputation that returns lists the passing
    keys of the table, which are distinct. *)
Theorem postFilterListRows_NoDup (w : World) :
  reachable w ->
  NoDup (postFilterListRows (this w))
  /\ (forall diags remove,
        NoDup (postFilterListRows (this (snd (updateResultsListData diags remove w)))))
  /\ (forall msg,
        NoDup (postFilterListRows (this (snd (onResultsListMessage msg w)))))
  /\ (forall event,
        NoDup (postFilterListRows (this (snd (onSettingsChanged event w)))))
  /\ (forall regEx,
        generateFilterRegExp (this w) = Normal regEx ->
        postFilterListRows (this (snd (updateFilteredRowsList w))) = passing (this w) regEx).
Proof.
  intros Hw. pose proof (reachable_Inv Hw) as HI.
  split; [apply HI|].
  split; [intros; apply (updateResultsListData_Inv _ _ _ HI)|].
  split; [intros; apply (onResultsListMessage_Inv _ _ HI)|].
  split; [intros; apply (onSettingsChanged_Inv _ _ HI)|].
  intros regEx Hre. rewrite (updateFilteredRowsList_Normal _ Hre). reflexivity.
Qed.

End Invariant.

(** ** Facts about sorting *)

Section SortFacts.
Variable A : Type.
Variable comparefn : A -> A -> Completion JsNum.

Lemma binaryInsert_Permutation steps x l l' :
  binaryInsert comparefn steps x l = Normal l' -> Permutation (x :: l) l'.
Proof.
  revert l l'. induction steps as [|steps IH]; simpl; intros l l'.
  - intros [= <-]. apply Permutation_refl.
  - pose proof (firstn_skipn (Nat.div2 (List.length l)) l) as Hl.
    destruct (skipn (Nat.div2 (List.length l)) l) as [|y above].
    + intros [= <-]. apply Permutation_cons_append.
    + destruct (comparefn x y) as [n|e]; simpl; [|discriminate].
      destruct (isNegative n).
      * destruct (binaryInsert comparefn steps x (firstn (Nat.div2 (List.length l)) l))
          as [below'|e] eqn:Hi; simpl; [|discriminate].
        intros [= <-]. apply IH in Hi. rewrite <- Hl at 1.
        change (Permutation ((x :: firstn (Nat.div2 (List.length l)) l) ++ y :: above)
                            (below' ++ y :: above)).
        now apply Permutation_app_tail.
      * destruct (binaryInsert comparefn steps x above) as [above'|e] eqn:Hi;
          simpl; [|discriminate].
        intros [= <-]. apply IH in Hi. rewrite <- Hl at 1.
        eapply perm_trans; [apply Permutation_middle|].
        apply Permutation_app_head.
        eapply perm_trans; [apply perm_swap|]. now apply perm_skip.
Qed.

Lemma runRest_app descending previous l run rest :
  runRest comparefn descending previous l = Normal (run, rest) -> l = run ++ rest.
Proof.
  revert previous run rest. induction l as [|current t IH]; simpl; intros previous run rest.
  - intros [= <- <-]. reflexivity.
  - destruct (comparefn current previous) as [n|e]; simpl; [|discriminate].
    destruct (if descending then negb (isNegative n) else isNegative n).
    + intros [= <- <-]. reflexivity.
    + destruct (runRest comparefn descending current t) as [[run' rest']|e] eqn:Hr;
        simpl; [|discriminate].
      intros [= <- <-]. simpl. f_equal. now apply IH with (previous := current).
Qed.

Lemma countAndMakeRun_Permutation first second l run rest :
  countAndMakeRun comparefn first second l = Normal (run, rest) ->
  Permutation (first :: second :: l) (run ++ rest).
Proof.
  unfold countAndMakeRun.
  destruct (comparefn second first) as [n|e]; simpl; [|discriminate].
  destruct (runRest comparefn (isNegative n) second l) as [[run' rest']|e] eqn:Hr;
    simpl; [|discriminate].
  apply runRest_app in Hr. subst l.
  intros [= <- <-].
  change (first :: second :: run' ++ rest') with ((first :: second :: run') ++ rest').
  apply Permutation_app_tail.
  destruct (isNegative n); [apply Permutation_rev|apply Permutation_refl].
Qed.

Lemma insertRest_Permutation work rest l' :
  insertRest comparefn work rest = Normal l' -> Permutation (work ++ rest) l'.
Proof.
  revert work l'. induction rest as [|pivot rest' IH]; simpl; intros work l'.
  - intros [= <-]. rewrite app_nil_r. apply Permutation_refl.
  - destruct (binaryInsert comparefn (List.length work) pivot work) as [work'|e] eqn:Hi;
      simpl; [|discriminate].
    intros H. apply IH in H. apply binaryInsert_Permutation in Hi.
    eapply perm_trans; [|exact H].
    eapply perm_trans; [apply Permutation_sym, Permutation_middle|].
    change (Permutation ((pivot :: work) ++ rest') (work' ++ rest')).
    now apply Permutation_app_tail.
Qed.

Lemma arraySort_Permutation l l' :
  arraySort comparefn l = Normal l' -> Permutation l l'.
Proof.
  destruct l as [|first [|second t]]; simpl.
  - intros [= <-]. constructor.
  - intros [= <-]. apply Permutation_refl.
  - destruct (countAndMakeRun comparefn first second t) as [[run rest]|e] eqn:Hr;
      simpl; [|discriminate].
    intros H. apply insertRest_Permutation in H.
    apply countAndMakeRun_Permutation in Hr.
    eapply perm_trans; eassumption.
Qed.

(** An array shorter than two is returned as it is: the comparator is not
    called. *)
Lemma arraySort_short l : (List.length l <= 1)%nat -> arraySort comparefn l = Normal l.
Proof.
  destruct l as [|x [|y t]]; simpl; intros H; try reflexivity. lia.
Qed.

(** The sort returns when the comparator returns on the elements. *)
Lemma binaryInsert_total steps x l :
  (forall y, In y l -> exists n, comparefn x y = Normal n) ->
  exists l', binaryInsert comparefn steps x l = Normal l'.
Proof.
  revert l. induction steps as [|steps IH]; simpl; intros l H; [eauto|].
  pose proof (firstn_skipn (Nat.div2 (List.length l)) l) as Hl.
  destruct (skipn (Nat.div2 (List.length l)) l) as [|y above]; [eauto|].
  assert (Hin : forall z, In z (firstn (Nat.div2 (List.length l)) l ++ y :: above) ->
                          exists n, comparefn x z = Normal n).
  { rewrite Hl. exact H. }
  destruct (Hin y) as [n ->]; [apply in_or_app; right; now left|]. simpl.
  destruct (isNegative n).
  - destruct (IH (firstn (Nat.div2 (List.length l)) l)) as [below' ->].
    + intros z Hz. apply Hin. apply in_or_app. now left.
    + simpl. eauto.
  - destruct (IH above) as [above' ->].
    + intros z Hz. apply Hin. apply in_or_app. right. now right.
    + simpl. eauto.
Qed.

Lemma runRest_total descending previous l :
  (forall x y, In x (previous :: l) -> In y (previous :: l) ->
               exists n, comparefn x y = Normal n) ->
  exists taken, runRest comparefn descending previous l = Normal taken.
Proof.
  revert previous. induction l as [|current t IH]; simpl; intros previous H; [eauto|].
  destruct (H current previous) as [n ->]; [tauto|tauto|]. simpl.
  destruct (if descending then negb (isNegative n) else isNegative n); [eauto|].
  destruct (IH current) as [taken ->]; [|simpl; eauto].
  intros x y Hx Hy. apply H; right; assumption.
Qed.

Lemma insertRest_total work rest :
  (forall x y, In x (work ++ rest) -> In y (work ++ rest) ->
               exists n, comparefn x y = Normal n) ->
  exists l', insertRest comparefn work rest = Normal l'.
Proof.
  revert work. induction rest as [|pivot rest' IH]; simpl; intros work H; [eauto|].
  destruct (@binaryInsert_total (List.length work) pivot work) as [work' Hi].
  { intros y Hy. apply H; apply in_or_app; [right; now left|now left]. }
  rewrite Hi. simpl. apply IH.
  apply binaryInsert_Permutation in Hi.
  assert (Hp : Permutation (work ++ pivot :: rest') (work' ++ rest')).
  { eapply perm_trans; [apply Permutation_sym, Permutation_middle|].
    change (Permutation ((pivot :: work) ++ rest') (work' ++ rest')).
    now apply Permutation_app_tail. }
  intros x y Hx Hy.
  apply H; eapply Permutation_in; try (apply Permutation_sym; exact Hp); assumption.
Qed.

Lemma arraySort_total l :
  (forall x y, In x l -> In y l -> exists n, comparefn x y = Normal n) ->
  exists l', arraySort comparefn l = Normal l'.
Proof.
  intros H. destruct l as [|first [|second t]]; [simpl; eauto|simpl; eauto|].
  cbn [arraySort].
  assert (Hrun : exists made, countAndMakeRun comparefn first second t = Normal made).
  { unfold countAndMakeRun.
    destruct (H second first) as [n ->]; [simpl; tauto|simpl; tauto|]. simpl.
    destruct (@runRest_total (isNegative n) second t) as [taken ->]; [|simpl; eauto].
    intros x y Hx Hy. apply H; right; assumption. }
  destruct Hrun as [[run rest] Hr]. rewrite Hr. simpl.
  apply insertRest_total.
  apply countAndMakeRun_Permutation in Hr.
  intros x y Hx Hy.
  apply H; eapply Permutation_in; try (apply Permutation_sym; exact Hr); assumption.
Qed.

(** With a comparator that raises on every pair, sorting two or more
    elements raises, at the first comparison. *)
Lemma arraySort_raises l :
  (forall x y, exists e, comparefn x y = Throw e) ->
  (2 <= List.length l)%nat -> exists e, arraySort comparefn l = Throw e.
Proof.
  intros Hc. destruct l as [|first [|second t]]; simpl; intros Hlen; try lia.
  unfold countAndMakeRun. destruct (Hc second first) as [e ->]. simpl. eauto.
Qed.

End SortFacts.

(** ** Sorting the rows of the groups *)

Section RowSort.
Context {runtime : JsRuntime} {enums : SarifEnums}.

Lemma compareGroups_total l : exists l', arraySort compareGroups l = Normal l'.
Proof. apply arraySort_total. intros x y _ _. unfold compareGroups. eauto. Qed.

Lemma compareRows_unresolved sortBy a b :
  unresolvedSortBy sortBy -> exists e, compareRows sortBy a b = Throw e.
Proof.
  unfold compareRows. destruct sortBy as [sb|]; simpl; [|eauto].
  intros H. rewrite !H. destruct (ascending sb); eauto.
Qed.

Lemma sortGroupRows_short sortBy gs :
  Forall (fun g => (List.length (ResultsListGroup.rows g) <= 1)%nat) gs ->
  sortGroupRows sortBy gs = Normal gs.
Proof.
  induction 1 as [|g t Hg Ht IH]; simpl; [reflexivity|].
  rewrite arraySort_short by assumption. simpl. rewrite IH. simpl.
  destruct g; reflexivity.
Qed.

Lemma sortGroupRows_raises sortBy gs :
  unresolvedSortBy sortBy ->
  Exists (fun g => (2 <= List.length (ResultsListGroup.rows g))%nat) gs ->
  exists e, sortGroupRows sortBy gs = Throw e.
Proof.
  intros Hu. induction 1 as [g t Hg|g t Ht IH]; simpl.
  - destruct (@arraySort_raises _ (compareRows sortBy) (ResultsListGroup.rows g))
      as [e ->]; [intros; now apply compareRows_unresolved|assumption|].
    simpl. eauto.
  - destruct (arraySort (compareRows sortBy) (ResultsListGroup.rows g)); simpl; [|eauto].
    destruct IH as [e ->]. simpl. eauto.
Qed.

(** C8, as the code has it: with a sort-by setting that is missing or
    whose column names no property of a row, the comparator raises a
    TypeError at its first call, so building the data set raises as soon as
    one group holds two rows or more; when every group holds at most one
    row the comparator is not called, and the data set comes out with the
    rows of each group as they were. *)
Theorem unresolved_sort_column_raises_on_first_comparison
  (c : Controller) (gs : list ResultsListGroup.t) :
  unresolvedSortBy (sortBy c) ->
  groupRows c = Normal gs ->
  (Exists (fun g => (2 <= List.length (ResultsListGroup.rows g))%nat) gs ->
   exists e, getResultData c = Throw e)
  /\
  (Forall (fun g => (List.length (ResultsListGroup.rows g) <= 1)%nat) gs ->
   exists gs',
     arraySort compareGroups gs = Normal gs'
     /\ getResultData c
        = Normal {| ResultsListData.columns := columns c;
                    ResultsListData.filterCaseMatch := filterCaseMatch c;
                    ResultsListData.filterText := filterText c;
                    ResultsListData.groupBy := groupBy c;
                    ResultsListData.groups := gs';
                    ResultsListData.resultCount := mapSize (resultsListRows c);
                    ResultsListData.sortBy := sortBy c |}).
Proof.
  intros Hu Hg. unfold getResultData. rewrite Hg. simpl.
  destruct (compareGroups_total gs) as [gs' Hs]. rewrite Hs. simpl.
  pose proof (arraySort_Permutation _ _ Hs) as Hp.
  split.
  - intros Hex.
    destruct (@sortGroupRows_raises (sortBy c) gs' Hu) as [e ->]; [|simpl; eauto].
    apply Exists_exists in Hex. destruct Hex as [g [Hin Hlen]].
    apply Exists_exists. exists g. split; [|assumption].
    eapply Permutation_in; eauto.
  - intros Hall. exists gs'. split; [reflexivity|].
    rewrite sortGroupRows_short; [reflexivity|].
    apply Forall_forall. intros g Hin. rewrite Forall_forall in Hall. apply Hall.
    eapply Permutation_in; [apply Permutation_sym|]; eauto.
Qed.

End RowSort.

(** ** Grouping *)

Section Grouping.
Context {runtime : JsRuntime} {enums : SarifEnums}.

Lemma memberRows_app c l1 l2 : memberRows c (l1 ++ l2) = memberRows c l1 ++ memberRows c l2.
Proof. unfold memberRows. apply flat_map_app. Qed.

Lemma rowsWithKey_app c k l1 l2 :
  rowsWithKey c k (l1 ++ l2) = rowsWithKey c k l1 ++ rowsWithKey c k l2.
Proof. unfold rowsWithKey. rewrite memberRows_app. apply filter_app. Qed.

Lemma memberRows_one c id row :
  mapGet String.eqb (resultsListRows c) id = Some row -> memberRows c [id] = [row].
Proof. unfold memberRows. simpl. intros ->. reflexivity. Qed.

Lemma filter_none {A} (p : A -> bool) l : (forall x, In x l -> p x = false) -> filter p l = [].
Proof.
  induction l as [|x t IH]; simpl; intros H; [reflexivity|].
  rewrite (H x (or_introl eq_refl)). apply IH. intros; apply H; now right.
Qed.

Lemma totalRows_mapSet_present (gm : JsMap JsVal ResultsListGroup.t) k g g' :
  mapGet JsVal_eqb gm k = Some g ->
  (totalRows (mapValues (mapSet JsVal_eqb gm k g'))
   + List.length (ResultsListGroup.rows g)
   = totalRows (mapValues gm) + List.length (ResultsListGroup.rows g'))%nat.
Proof.
  unfold totalRows. induction gm as [|[k0 g0] t IH]; simpl; [discriminate|].
  destruct (JsVal_eqb k0 k); simpl.
  - intros [= ->]. lia.
  - intros H. specialize (IH H). lia.
Qed.

Lemma totalRows_mapSet_absent (gm : JsMap JsVal ResultsListGroup.t) k g' :
  mapGet JsVal_eqb gm k = None ->
  totalRows (mapValues (mapSet JsVal_eqb gm k g'))
  = (totalRows (mapValues gm) + List.length (ResultsListGroup.rows g'))%nat.
Proof.
  unfold totalRows. induction gm as [|[k0 g0] t IH]; simpl; [lia|].
  destruct (JsVal_eqb k0 k); simpl; [discriminate|].
  intros H. specialize (IH H). lia.
Qed.

(** One turn of the loop keeps the description. *)
Lemma addToGroups_Grouped c done gm id gm' :
  Grouped c done gm ->
  addToGroups c gm id = Normal gm' ->
  Grouped c (done ++ [id]) gm'.
Proof.
  intros [Hk Hr Ha Ht]. unfold addToGroups.
  destruct (mapGet String.eqb (resultsListRows c) id) as [row|] eqn:Hrow; [|discriminate].
  destruct (rowGet row (keyOf (groupBy c))) as [v|] eqn:Hv; [|discriminate].
  set (key := groupingKey (groupBy c) v).
  assert (Hkey : rowKey c row = Some key) by (unfold rowKey, cellOf; now rewrite Hv).
  assert (Hone : forall k, rowsWithKey c k (done ++ [id])
                           = rowsWithKey c k done ++ (if JsVal_eqb key k then [row] else [])).
  { intros k. rewrite rowsWithKey_app. f_equal. unfold rowsWithKey.
    rewrite (memberRows_one _ _ Hrow). simpl. unfold keyIs. rewrite Hkey. reflexivity. }
  destruct (mapGet JsVal_eqb gm key) as [g|] eqn:Hg; intros [= <-].
  - destruct (Hr _ _ Hg) as [Hrows [r0 [rest [v0 [Hhd [Hc0 [Htx Htp]]]]]]].
    constructor.
    + apply NoDup_mapKeys_mapSet; [apply JsVal_eqb_spec|assumption].
    + intros k g1 Hg1. destruct (JsVal_eqb_spec key k) as [<-|Hne].
      * rewrite mapGet_mapSet_same in Hg1 by apply JsVal_eqb_spec.
        injection Hg1 as <-. simpl. split.
        -- rewrite Hone, JsVal_eqb_refl, Hrows. reflexivity.
        -- exists r0, (rest ++ [row]), v0. rewrite Hhd. auto.
      * rewrite mapGet_mapSet_other in Hg1 by (apply JsVal_eqb_spec || congruence).
        destruct (Hr _ _ Hg1) as [Hrows1 Hlab]. split; [|exact Hlab].
        rewrite Hone. destruct (JsVal_eqb_spec key k); [contradiction|].
        now rewrite app_nil_r.
    + intros r Hin. rewrite memberRows_app, (memberRows_one _ _ Hrow) in Hin.
      apply in_app_or in Hin. destruct Hin as [Hin|[<-|[]]].
      * destruct (Ha _ Hin) as [k [Hk1 Hk2]]. exists k. split; [assumption|].
        apply In_mapKeys_mapSet; [apply JsVal_eqb_spec|]. now right.
      * exists key. split; [assumption|].
        apply In_mapKeys_mapSet; [apply JsVal_eqb_spec|]. now left.
    + pose proof (totalRows_mapSet_present gm key
        {| ResultsListGroup.rows := ResultsListGroup.rows g ++ [row];
           ResultsListGroup.text := ResultsListGroup.text g;
           ResultsListGroup.tooltip := ResultsListGroup.tooltip g |} Hg) as Hsum.
      simpl in Hsum. rewrite !length_app in *. simpl in *. lia.
  - assert (Hfresh : ~ In key (mapKeys gm))
      by (apply (@mapGet_None_keys _ _ _ JsVal_eqb_spec); assumption).
    constructor.
    + apply NoDup_mapKeys_mapSet; [apply JsVal_eqb_spec|assumption].
    + intros k g1 Hg1. destruct (JsVal_eqb_spec key k) as [<-|Hne].
      * rewrite mapGet_mapSet_same in Hg1 by apply JsVal_eqb_spec.
        injection Hg1 as <-. simpl. split.
        -- rewrite Hone, JsVal_eqb_refl. unfold rowsWithKey.
           rewrite filter_none; [reflexivity|].
           intros r Hin. destruct (Ha _ Hin) as [k [Hk1 Hk2]].
           unfold keyIs. rewrite Hk1. destruct (JsVal_eqb_spec k key); congruence.
        -- exists row, [], v. unfold cellOf. auto.
      * rewrite mapGet_mapSet_other in Hg1 by (apply JsVal_eqb_spec || congruence).
        destruct (Hr _ _ Hg1) as [Hrows1 Hlab]. split; [|exact Hlab].
        rewrite Hone. destruct (JsVal_eqb_spec key k); [contradiction|].
        now rewrite app_nil_r.
    + intros r Hin. rewrite memberRows_app, (memberRows_one _ _ Hrow) in Hin.
      apply in_app_or in Hin. destruct Hin as [Hin|[<-|[]]].
      * destruct (Ha _ Hin) as [k [Hk1 Hk2]]. exists k. split; [assumption|].
        apply In_mapKeys_mapSet; [apply JsVal_eqb_spec|]. now right.
      * exists key. split; [assumption|].
        apply In_mapKeys_mapSet; [apply JsVal_eqb_spec|]. now left.
    + rewrite totalRows_mapSet_absent by assumption.
      rewrite length_app. simpl. lia.
Qed.

Lemma foldC_Grouped c ids :
  forall done gm gm',
    Grouped c done gm ->
    foldC (addToGroups c) ids gm = Normal gm' ->
    Grouped c (done ++ ids) gm'.
Proof.
  induction ids as [|id t IH]; simpl; intros done gm gm' HG.
  - intros [= <-]. now rewrite app_nil_r.
  - destruct (addToGroups c gm id) as [gm1|e] eqn:H1; simpl; [|discriminate].
    intros H2. replace (done ++ id :: t) with ((done ++ [id]) ++ t)
      by (rewrite <- app_assoc; reflexivity).
    eapply IH; [|exact H2]. eapply addToGroups_Grouped; eauto.
Qed.

Lemma Grouped_empty c : Grouped c [] [].
Proof.
  constructor; simpl.
  - constructor.
  - discriminate.
  - intros r [].
  - reflexivity.
Qed.

(** The loop returns when every id names a stored row and the group-by
    column names a property of a row. *)
Lemma foldC_addToGroups_total c ids :
  (forall id, In id ids -> In id (mapKeys (resultsListRows c))) ->
  (forall row, rowGet row (keyOf (groupBy c)) <> None) ->
  forall gm, exists gm', foldC (addToGroups c) ids gm = Normal gm'.
Proof.
  intros Hids Hcol. induction ids as [|id t IH]; simpl; intros gm; [eauto|].
  unfold addToGroups at 1.
  destruct (@In_keys_mapGet _ _ _ String.eqb_spec (resultsListRows c) id) as [row ->];
    [apply Hids; now left|].
  destruct (rowGet row (keyOf (groupBy c))) as [v|] eqn:Hv; [|now apply Hcol in Hv].
  destruct (mapGet JsVal_eqb gm _); simpl; apply IH; intros; apply Hids; now right.
Qed.

(** The groups as the loop leaves them. *)
Lemma groupRows_spec c gs :
  groupRows c = Normal gs ->
  exists gm, gs = mapValues gm /\ Grouped c (postFilterListRows c) gm.
Proof.
  unfold groupRows.
  destruct (foldC (addToGroups c) (postFilterListRows c) []) as [gm|e] eqn:H; simpl;
    [|discriminate].
  intros [= <-]. exists gm. split; [reflexivity|].
  change (postFilterListRows c) with ([] ++ postFilterListRows c).
  eapply foldC_Grouped; [apply Grouped_empty|exact H].
Qed.

End Grouping.

(** ** The data set built by getResultData *)

Section Projection.
Context {runtime : JsRuntime} {enums : SarifEnums}.

Lemma rowGet_names row name : namesRowProperty name = true -> rowGet row name <> None.
Proof.
  unfold namesRowProperty, rowGet. rewrite existsb_app. cbn [existsb].
  destruct (existsb (String.eqb name) objectPrototypeNames);
    repeat match goal with
           | |- context [String.eqb name ?s] => destruct (String.eqb name s)
           end; simpl; intros; congruence.
Qed.

Lemma rowGet_not_names row name : namesRowProperty name = false -> rowGet row name = None.
Proof.
  unfold namesRowProperty, rowGet. rewrite existsb_app. cbn [existsb].
  destruct (existsb (String.eqb name) objectPrototypeNames);
    repeat match goal with
           | |- context [String.eqb name ?s] => destruct (String.eqb name s)
           end; simpl; intros; congruence.
Qed.

(** In rows of the shape createResultsListRow gives, the cells of one
    column agree on carrying a position. *)
Lemma rowGet_pos_consistent a b name va vb :
  rowShape a -> rowShape b ->
  rowGet a name = Some va -> rowGet b name = Some vb ->
  (pos va = None <-> pos vb = None).
Proof.
  unfold rowShape, rowGet. intros Ha Hb.
  destruct (existsb (String.eqb name) objectPrototypeNames);
    repeat match goal with
           | |- context [String.eqb name ?s] => destruct (String.eqb name s)
           end;
    try discriminate;
    intros [= <-] [= <-]; simpl; intuition congruence.
Qed.

(** On such rows and with a sort column that names a property, the
    comparator returns. *)
Lemma compareRows_total sb a b :
  rowShape a -> rowShape b ->
  namesRowProperty (keyOf (column sb)) = true ->
  exists n, compareRows (Some sb) a b = Normal n.
Proof.
  intros Ha Hb Hn. unfold compareRows.
  destruct (rowGet a (keyOf (column sb))) as [va|] eqn:Ea;
    [|now apply (rowGet_names a) in Hn].
  destruct (rowGet b (keyOf (column sb))) as [vb|] eqn:Eb;
    [|now apply (rowGet_names b) in Hn].
  pose proof (rowGet_pos_consistent _ Ha Hb Ea Eb) as Hp.
  destruct (ascending sb).
  - destruct (value va); [destruct (value vb); eauto| |];
      (destruct (pos va), (pos vb);
       [destruct (_ =? 0); eauto
       |exfalso; destruct Hp as [_ Hp]; now specialize (Hp eq_refl)
       |exfalso; destruct Hp as [Hp _]; now specialize (Hp eq_refl)
       |destruct (isSeverity va); eauto]).
  - destruct (value vb); [destruct (value va); eauto| |];
      (destruct (pos va), (pos vb);
       [destruct (_ =? 0); eauto
       |exfalso; destruct Hp as [_ Hp]; now specialize (Hp eq_refl)
       |exfalso; destruct Hp as [Hp _]; now specialize (Hp eq_refl)
       |destruct (isSeverity vb); eauto]).
Qed.

Lemma sortGroupRows_spec sortBy gs gs' :
  sortGroupRows sortBy gs = Normal gs' -> Forall2 sameGroup gs gs'.
Proof.
  revert gs'. induction gs as [|g t IH]; simpl; intros gs'.
  - intros [= <-]. constructor.
  - destruct (arraySort (compareRows sortBy) (ResultsListGroup.rows g)) as [rows'|e] eqn:Hs;
      simpl; [|discriminate].
    destruct (sortGroupRows sortBy t) as [t'|e]; simpl; [|discriminate].
    intros [= <-]. constructor; [|now apply IH].
    unfold sameGroup. simpl. split; [now apply arraySort_Permutation in Hs|tauto].
Qed.

Lemma sortGroupRows_total sortBy gs :
  (forall g a b, In g gs -> In a (ResultsListGroup.rows g) -> In b (ResultsListGroup.rows g) ->
                 exists n, compareRows sortBy a b = Normal n) ->
  exists gs', sortGroupRows sortBy gs = Normal gs'.
Proof.
  induction gs as [|g t IH]; simpl; intros H; [eauto|].
  destruct (@arraySort_total _ (compareRows sortBy) (ResultsListGroup.rows g)) as [rows' ->];
    [intros a b; apply H; now left|].
  destruct IH as [t' ->]; [intros g' a b Hg; apply H; now right|].
  simpl. eauto.
Qed.

Lemma totalRows_Permutation gs gs' : Permutation gs gs' -> totalRows gs = totalRows gs'.
Proof.
  unfold totalRows. induction 1; simpl; lia.
Qed.

Lemma totalRows_sameGroup gs gs' : Forall2 sameGroup gs gs' -> totalRows gs = totalRows gs'.
Proof.
  unfold totalRows. induction 1 as [|g g' t t' [Hp _] _ IH]; simpl; [reflexivity|].
  apply Permutation_length in Hp. lia.
Qed.

(** How a data set that was returned relates to the state: its groups are
    the groups of the grouping loop, reordered, each with its rows
    reordered. *)
Lemma getResultData_spec c data :
  getResultData c = Normal data ->
  exists gm gs,
    Grouped c (postFilterListRows c) gm
    /\ Permutation (mapValues gm) gs
    /\ Forall2 sameGroup gs (ResultsListData.groups data)
    /\ ResultsListData.resultCount data = mapSize (resultsListRows c).
Proof.
  unfold getResultData.
  destruct (groupRows c) as [gs0|e] eqn:Hg; simpl; [|discriminate].
  destruct (arraySort compareGroups gs0) as [gs1|e] eqn:Hs; simpl; [|discriminate].
  destruct (sortGroupRows (sortBy c) gs1) as [gs2|e] eqn:Hr; simpl; [|discriminate].
  intros [= <-]. simpl.
  destruct (groupRows_spec _ Hg) as [gm [-> HG]].
  exists gm, gs1.
  split; [exact HG|].
  split; [now apply arraySort_Permutation in Hs|].
  split; [now apply sortGroupRows_spec in Hr|reflexivity].
Qed.

(** The part of C4 the code keeps: a data set that is returned reports the
    size of the row table as its result count, and its groups hold as many
    rows as the filtered list has ids. *)
Lemma getResultData_counts c data :
  getResultData c = Normal data ->
  ResultsListData.resultCount data = mapSize (resultsListRows c)
  /\ totalRows (ResultsListData.groups data) = List.length (postFilterListRows c).
Proof.
  intros H. destruct (getResultData_spec _ H) as [gm [gs [HG [Hp [Hf Hc]]]]].
  split; [exact Hc|].
  rewrite <- (totalRows_sameGroup Hf), <- (totalRows_Permutation Hp).
  apply HG.
Qed.

Lemma In_memberRows c ids row :
  In row (memberRows c ids) -> In row (mapValues (resultsListRows c)).
Proof.
  unfold memberRows. rewrite in_flat_map. intros [id [_ Hin]].
  destruct (mapGet String.eqb (resultsListRows c) id) as [r|] eqn:E; [|destruct Hin].
  destruct Hin as [<-|[]]. eapply mapGet_In_values; [apply String.eqb_spec|eauto].
Qed.

Lemma In_mapValues_mapGet {K V} (keq : K -> K -> bool)
  (keq_spec : forall a b, reflect (a = b) (keq a b)) (m : JsMap K V) v :
  NoDup (mapKeys m) -> In v (mapValues m) -> exists k, mapGet keq m k = Some v.
Proof.
  induction m as [|[k0 v0] t IH]; simpl; intros Hn [].
  - subst. exists k0. destruct (keq_spec k0 k0); congruence.
  - inversion Hn; subst. destruct (IH H3 H) as [k Hk]. exists k.
    destruct (keq_spec k0 k) as [->|]; [|assumption].
    exfalso. apply H2. eapply mapGet_In_keys; eauto.
Qed.

(** getResultData returns in a state that satisfies the invariant, when the
    group-by and the sort-by column name properties of a row. *)
Lemma getResultData_total c sb :
  Inv c ->
  namesRowProperty (keyOf (groupBy c)) = true ->
  sortBy c = Some sb ->
  namesRowProperty (keyOf (column sb)) = true ->
  exists data, getResultData c = Normal data.
Proof.
  intros HI Hgb Hsb Hcol. unfold getResultData, groupRows.
  assert (Hfold : exists gm, foldC (addToGroups c) (postFilterListRows c) [] = Normal gm).
  { apply foldC_addToGroups_total; [apply HI|intros row; now apply rowGet_names]. }
  destruct Hfold as [gm Hgm].
  rewrite Hgm. simpl.
  destruct (compareGroups_total (mapValues gm)) as [gs1 Hs]. rewrite Hs. simpl.
  assert (HG : Grouped c (postFilterListRows c) gm).
  { change (postFilterListRows c) with ([] ++ postFilterListRows c).
    eapply foldC_Grouped; [apply Grouped_empty|exact Hgm]. }
  destruct (@sortGroupRows_total (sortBy c) gs1) as [gs2 ->]; [|simpl; eauto].
  intros g a b Hg Ha Hb. rewrite Hsb.
  apply arraySort_Permutation, Permutation_sym in Hs.
  pose proof (Permutation_in _ Hs Hg) as Hg'.
  destruct (In_mapValues_mapGet JsVal_eqb JsVal_eqb_spec gm g (grouped_keys HG) Hg') as [k Hk].
  destruct (grouped_rows HG _ Hk) as [Hrows _].
  assert (Hstored : forall r, In r (ResultsListGroup.rows g) -> rowShape r).
  { intros r Hr. rewrite Hrows in Hr. unfold rowsWithKey in Hr.
    apply filter_In in Hr. destruct Hr as [Hr _].
    apply (inv_shape HI). eapply In_memberRows; eauto. }
  apply compareRows_total; auto.
Qed.

End Projection.

(** ** Grouping by a file column *)

Section FileGroups.
Context {runtime : JsRuntime} {enums : SarifEnums}.

Lemma optStr_inj a b : optStr a = optStr b -> a = b.
Proof. destruct a, b; simpl; congruence. Qed.

Lemma groupsByFile_names c : groupsByFile c -> namesRowProperty (keyOf (groupBy c)) = true.
Proof. intros [-> | ->]; reflexivity. Qed.

(** Under a file column the key of a row is the tooltip of its cell. *)
Lemma rowKey_file c row k :
  groupsByFile c -> rowKey c row = Some k ->
  exists v, cellOf c row = Some v /\ k = optStr (tooltip v).
Proof.
  unfold rowKey. intros Hf. destruct (cellOf c row) as [v|]; [|discriminate].
  intros [= <-]. exists v. split; [reflexivity|].
  unfold groupingKey. destruct Hf as [-> | ->]; reflexivity.
Qed.

Lemma keyIs_rowKey c k row : keyIs c k row = true <-> rowKey c row = Some k.
Proof.
  unfold keyIs. destruct (rowKey c row) as [k'|]; [|split; discriminate].
  destruct (JsVal_eqb_spec k' k); split; congruence.
Qed.

Lemma In_memberRows_of c ids id row :
  In id ids -> mapGet String.eqb (resultsListRows c) id = Some row ->
  In row (memberRows c ids).
Proof.
  intros Hin Hget. unfold memberRows. apply in_flat_map. exists id.
  split; [assumption|]. rewrite Hget. now left.
Qed.

(** The key under which a group sits is the tooltip on its label. *)
Lemma Grouped_file_key c ids gm k g :
  groupsByFile c -> Grouped c ids gm -> mapGet JsVal_eqb gm k = Some g ->
  k = optStr (ResultsListGroup.tooltip g).
Proof.
  intros Hf HG Hk.
  destruct (grouped_rows HG _ Hk) as [Hrows [r0 [rest [v0 [Hhd [Hc0 [_ Htp]]]]]]].
  assert (Hin : In r0 (rowsWithKey c k ids)) by (rewrite <- Hrows, Hhd; now left).
  unfold rowsWithKey in Hin. apply filter_In in Hin. destruct Hin as [_ Hkey].
  apply keyIs_rowKey in Hkey.
  destruct (rowKey_file r0 Hf Hkey) as [v [Hv ->]].
  rewrite Htp. congruence.
Qed.

Lemma mapGet_of_entry {K V} (keq : K -> K -> bool)
  (keq_spec : forall a b, reflect (a = b) (keq a b)) (m : JsMap K V) k v :
  NoDup (mapKeys m) -> In (k, v) m -> mapGet keq m k = Some v.
Proof.
  induction m as [|[k0 v0] t IH]; simpl; intros Hn []; inversion Hn; subst.
  - injection H as -> ->. destruct (keq_spec k k); congruence.
  - destruct (keq_spec k0 k) as [->|]; [|auto].
    exfalso. apply H2. apply in_map_iff. exists (k, v). auto.
Qed.

Lemma mapKeys_by_value {K V} (f : V -> K) (m : JsMap K V) :
  (forall k v, In (k, v) m -> k = f v) -> mapKeys m = map f (mapValues m).
Proof.
  induction m as [|[k0 v0] t IH]; simpl; intros H; [reflexivity|].
  rewrite (H k0 v0) by now left. f_equal. apply IH. intros; apply H; now right.
Qed.

Lemma Forall2_In_r {A B} (R : A -> B -> Prop) l l' y :
  Forall2 R l l' -> In y l' -> exists x, In x l /\ R x y.
Proof.
  induction 1 as [|a b t t' Hab _ IH]; simpl; [tauto|].
  intros [<-|Hin]; [eauto|]. destruct (IH Hin) as [x [? ?]]. eauto.
Qed.

Lemma Forall2_In_l {A B} (R : A -> B -> Prop) l l' x :
  Forall2 R l l' -> In x l -> exists y, In y l' /\ R x y.
Proof.
  induction 1 as [|a b t t' Hab _ IH]; simpl; [tauto|].
  intros [<-|Hin]; [eauto|]. destruct (IH Hin) as [y [? ?]]. eauto.
Qed.

Lemma sameGroup_tooltips gs gs' :
  Forall2 sameGroup gs gs' ->
  map ResultsListGroup.tooltip gs' = map ResultsListGroup.tooltip gs.
Proof.
  induction 1 as [|g g' t t' [_ [_ Ht]] _ IH]; simpl; [reflexivity|].
  now rewrite Ht, IH.
Qed.

(** The groups under a file column, in terms of the cell the group-by
    reads. *)
Lemma file_groups_by_cell (c : Controller) :
  Inv c -> groupsByFile c ->
  (exists gs, groupRows c = Normal gs)
  /\ (forall sb, sortBy c = Some sb -> namesRowProperty (keyOf (column sb)) = true ->
      exists data, getResultData c = Normal data)
  /\ forall data, getResultData c = Normal data ->
     let groups := ResultsListData.groups data in
     (forall id, In id (postFilterListRows c) ->
        exists row v g,
          mapGet String.eqb (resultsListRows c) id = Some row
          /\ cellOf c row = Some v
          /\ In g groups /\ In row (ResultsListGroup.rows g)
          /\ ResultsListGroup.tooltip g = tooltip v)
     /\ (forall g row v,
           In g groups -> In row (ResultsListGroup.rows g) -> cellOf c row = Some v ->
           tooltip v = ResultsListGroup.tooltip g)
     /\ (forall g1 g2 r1 r2 v1 v2,
           In g1 groups -> In g2 groups ->
           In r1 (ResultsListGroup.rows g1) -> In r2 (ResultsListGroup.rows g2) ->
           cellOf c r1 = Some v1 -> cellOf c r2 = Some v2 ->
           value v1 = value v2 -> tooltip v1 <> tooltip v2 ->
           g1 <> g2)
     /\ NoDup (map ResultsListGroup.tooltip groups)
     /\ (forall g, In g groups ->
           exists r0 rest v0,
             rowsWithKey c (optStr (ResultsListGroup.tooltip g)) (postFilterListRows c)
             = r0 :: rest
             /\ Permutation (r0 :: rest) (ResultsListGroup.rows g)
             /\ cellOf c r0 = Some v0
             /\ ResultsListGroup.text g = value v0).
Proof.
  intros HI Hf.
  pose proof (groupsByFile_names Hf) as Hnames.
  split.
  { unfold groupRows.
    assert (Hfold : exists gm, foldC (addToGroups c) (postFilterListRows c) [] = Normal gm).
    { apply foldC_addToGroups_total; [apply HI|intros row; now apply rowGet_names]. }
    destruct Hfold as [gm ->]. simpl. eauto. }
  split.
  { intros sb Hsb Hcol. eapply getResultData_total; eauto. }
  intros data Hdata groups.
  destruct (getResultData_spec _ Hdata) as [gm [gs [HG [Hp [Hs _]]]]].
  fold groups in Hs.
  (* every group of the data set comes from an entry of the map *)
  assert (Horigin : forall g, In g groups ->
            exists g0, mapGet JsVal_eqb gm (optStr (ResultsListGroup.tooltip g)) = Some g0
                       /\ sameGroup g0 g).
  { intros g Hg. destruct (Forall2_In_r g Hs Hg) as [g0 [Hg0 Hsame]].
    apply (Permutation_in _ (Permutation_sym Hp)) in Hg0.
    destruct (In_mapValues_mapGet JsVal_eqb JsVal_eqb_spec gm g0 (grouped_keys HG) Hg0)
      as [k Hk].
    exists g0. split; [|exact Hsame].
    rewrite (Grouped_file_key k Hf HG Hk) in Hk.
    destruct Hsame as [_ [_ Ht]]. now rewrite Ht. }
  assert (Hshare : forall g row v,
            In g groups -> In row (ResultsListGroup.rows g) -> cellOf c row = Some v ->
            tooltip v = ResultsListGroup.tooltip g).
  { intros g row v Hg Hrow Hv.
    destruct (Horigin g Hg) as [g0 [Hk [Hperm _]]].
    destruct (grouped_rows HG _ Hk) as [Hrows _].
    apply (Permutation_in _ (Permutation_sym Hperm)) in Hrow.
    rewrite Hrows in Hrow. unfold rowsWithKey in Hrow.
    apply filter_In in Hrow. destruct Hrow as [_ Hkey].
    apply keyIs_rowKey in Hkey.
    destruct (rowKey_file row Hf Hkey) as [v' [Hv' Heq]].
    apply optStr_inj in Heq. congruence. }
  split; [|split; [exact Hshare|split; [|split]]].
  - intros id Hid.
    destruct (@In_keys_mapGet _ _ _ String.eqb_spec (resultsListRows c) id) as [row Hrow];
      [now apply (inv_stored HI)|].
    pose proof (In_memberRows_of c _ id Hid Hrow) as Hmem.
    destruct (grouped_all HG row Hmem) as [k [Hkey Hk]].
    destruct (@In_keys_mapGet _ _ _ JsVal_eqb_spec gm k Hk) as [g0 Hg0].
    destruct (rowKey_file row Hf Hkey) as [v [Hv Hkv]].
    destruct (grouped_rows HG _ Hg0) as [Hrows _].
    assert (Hin0 : In g0 (mapValues gm))
      by (eapply mapGet_In_values; [apply JsVal_eqb_spec|eauto]).
    apply (Permutation_in _ Hp) in Hin0.
    destruct (Forall2_In_l g0 Hs Hin0) as [g [Hg [Hperm [_ Ht]]]].
    exists row, v, g. repeat split; auto.
    + apply (Permutation_in _ Hperm). rewrite Hrows. unfold rowsWithKey.
      apply filter_In. split; [assumption|]. now apply keyIs_rowKey.
    + rewrite Ht. apply optStr_inj.
      rewrite <- (Grouped_file_key k Hf HG Hg0). exact Hkv.
  - intros g1 g2 r1 r2 v1 v2 Hg1 Hg2 Hr1 Hr2 Hv1 Hv2 _ Hne ->.
    apply Hne. rewrite (Hshare _ _ _ Hg2 Hr1 Hv1), (Hshare _ _ _ Hg2 Hr2 Hv2). reflexivity.
  - unfold groups in *. rewrite (sameGroup_tooltips Hs).
    apply (Permutation_NoDup (Permutation_map _ Hp)).
    apply (NoDup_map_inv optStr). rewrite map_map.
    rewrite <- (mapKeys_by_value (fun g => optStr (ResultsListGroup.tooltip g)) gm).
    + apply HG.
    + intros k g Hin. eapply Grouped_file_key; eauto.
      apply mapGet_of_entry; [apply JsVal_eqb_spec|apply HG|exact Hin].
  - intros g Hg. destruct (Horigin g Hg) as [g0 [Hk [Hperm [Htx _]]]].
    destruct (grouped_rows HG _ Hk) as [Hrows [r0 [rest [v0 [Hhd [Hc0 [Ht0 _]]]]]]].
    exists r0, rest, v0. rewrite <- Hrows, <- Hhd. repeat split; auto.
    congruence.
Qed.

(** Under a file column the group-by reads the cell of that column. *)
Lemma cellOf_file c row : groupsByFile c -> cellOf c row = Some (fileCell c row).
Proof. unfold cellOf, fileCell. intros [-> | ->]; reflexivity. Qed.

Lemma JsVal_eqb_optStr a b : JsVal_eqb (optStr a) (optStr b) = optString_eqb a b.
Proof. destruct a, b; reflexivity. Qed.

Lemma rowsWithKey_file c path :
  groupsByFile c ->
  rowsWithKey c (optStr path) (postFilterListRows c) = rowsOfPath c path.
Proof.
  intros Hf. unfold rowsWithKey, rowsOfPath. apply filter_ext. intros row.
  unfold keyIs, rowKey. rewrite (cellOf_file row Hf).
  unfold fullPath, groupingKey.
  destruct Hf as [-> | ->]; apply JsVal_eqb_optStr.
Qed.

(** C7: with [groupBy] set to [sarifFile] or [resultFile] the rows are
    grouped by the tooltip of that cell of theirs, the full path, not by
    its display value, the short name.  In a reachable state the grouping
    returns, and the data set is returned whenever the sort column names a
    property of a row.  In the data set every listed row sits in the group
    whose tooltip is the row's own full path; the rows of one group all
    have the group's path, so two rows with the same short name and
    different full paths are in different groups; no two groups share a
    path; and the text of a group is the short name of the first listed
    row with the group's path. *)
Theorem file_groups_keyed_by_full_path (c : Controller) :
  Inv c -> groupsByFile c ->
  (exists gs, groupRows c = Normal gs)
  /\ (forall sb, sortBy c = Some sb -> namesRowProperty (keyOf (column sb)) = true ->
      exists data, getResultData c = Normal data)
  /\ forall data, getResultData c = Normal data ->
     let groups := ResultsListData.groups data in
     (forall id, In id (postFilterListRows c) ->
        exists row g,
          mapGet String.eqb (resultsListRows c) id = Some row
          /\ In g groups /\ In row (ResultsListGroup.rows g)
          /\ ResultsListGroup.tooltip g = fullPath c row)
     /\ (forall g row,
           In g groups -> In row (ResultsListGroup.rows g) ->
           fullPath c row = ResultsListGroup.tooltip g)
     /\ (forall g1 g2 r1 r2,
           In g1 groups -> In g2 groups ->
           In r1 (ResultsListGroup.rows g1) -> In r2 (ResultsListGroup.rows g2) ->
           shortName c r1 = shortName c r2 -> fullPath c r1 <> fullPath c r2 ->
           g1 <> g2)
     /\ NoDup (map ResultsListGroup.tooltip groups)
     /\ (forall g, In g groups ->
           exists r0 rest,
             rowsOfPath c (ResultsListGroup.tooltip g) = r0 :: rest
             /\ Permutation (r0 :: rest) (ResultsListGroup.rows g)
             /\ ResultsListGroup.text g = shortName c r0).
Proof.
  intros HI Hf.
  assert (Hcell : forall row, cellOf c row = Some (fileCell c row)).
  { intros row. unfold cellOf, fileCell. destruct Hf as [-> | ->]; reflexivity. }
  destruct (file_groups_by_cell HI Hf) as [Hgr [Hret Hdata]].
  split; [exact Hgr|]. split; [exact Hret|].
  intros data Hd groups.
  destruct (Hdata data Hd) as [Hlisted [Hshare [Hapart [Hnodup Hfirst]]]].
  fold groups in Hlisted, Hshare, Hapart, Hnodup, Hfirst.
  split; [|split; [|split; [|split; [exact Hnodup|]]]].
  - intros id Hid.
    destruct (Hlisted id Hid) as [row [v [g [Hrow [Hv [Hg [Hin Ht]]]]]]].
    rewrite (Hcell row) in Hv. injection Hv as <-.
    exists row, g. auto.
  - intros g row Hg Hin.
    exact (Hshare g row _ Hg Hin (Hcell row)).
  - intros g1 g2 r1 r2 Hg1 Hg2 Hr1 Hr2 Hname Hpath.
    exact (Hapart g1 g2 r1 r2 _ _ Hg1 Hg2 Hr1 Hr2
             (Hcell r1) (Hcell r2) Hname Hpath).
  - intros g Hg.
    destruct (Hfirst g Hg) as [r0 [rest [v0 [Hrows [Hperm [Hv0 Htext]]]]]].
    rewrite (Hcell r0) in Hv0. injection Hv0 as <-.
    rewrite (rowsWithKey_file _ Hf) in Hrows.
    exists r0, rest. auto.
Qed.

End FileGroups.

(** ** Removal, and the comparator on undefined values *)

Section RemovalAndOrder.
Context {runtime : JsRuntime} {enums : SarifEnums}.

(** The part of C3 the code keeps: a removal deletes exactly the row of that
    id from the table; a missing id leaves the table as it is, a present one
    takes its size down by one. *)
Lemma removeDiag_table diag c :
  resultsListRows (removeDiag diag c)
  = mapDelete String.eqb (resultsListRows c) (diagId diag)
  /\ (~ In (diagId diag) (mapKeys (resultsListRows c)) ->
      resultsListRows (removeDiag diag c) = resultsListRows c)
  /\ (In (diagId diag) (mapKeys (resultsListRows c)) ->
      mapSize (resultsListRows (removeDiag diag c)) = mapSize (resultsListRows c) - 1).
Proof.
  assert (E : resultsListRows (removeDiag diag c)
              = mapDelete String.eqb (resultsListRows c) (diagId diag)).
  { unfold removeDiag, diagId. simpl. destruct (negb _); reflexivity. }
  rewrite E. split; [reflexivity|split].
  - apply mapDelete_absent, String.eqb_spec.
  - apply mapSize_mapDelete_present, String.eqb_spec.
Qed.

(** What a removal does to the filtered list: when the id is listed, the
    list is cut at its position, so every id listed after it goes as well. *)
Lemma removeDiag_cuts_list diag c :
  In (diagId diag) (postFilterListRows c) ->
  postFilterListRows (removeDiag diag c)
  = firstn (Z.to_nat (indexOf (postFilterListRows c) (diagId diag)))
           (postFilterListRows c).
Proof.
  intros Hin. unfold removeDiag. fold (diagId diag). simpl.
  destruct (Z.eqb_spec (indexOf (postFilterListRows c) (diagId diag)) (-1)) as [E|E]; simpl.
  - apply indexOf_absent in E. contradiction.
  - unfold splice1.
    destruct (indexOf_range (postFilterListRows c) (diagId diag)) as [R|R];
      [contradiction|].
    destruct (Z.ltb_spec (indexOf (postFilterListRows c) (diagId diag)) 0);
      [lia|reflexivity].
Qed.

(** Descending order is the ascending comparison with the operands
    swapped. *)
Lemma compareRows_descending_swaps col a b :
  compareRows (Some {| column := col; ascending := false |}) a b
  = compareRows (Some {| column := col; ascending := true |}) b a.
Proof. reflexivity. Qed.

(** An undefined first operand is less than a defined second operand and
    equal to an undefined one. *)
Lemma compareRows_undefined_first sb a b va vb :
  rowGet (if ascending sb then a else b) (keyOf (column sb)) = Some va ->
  rowGet (if ascending sb then b else a) (keyOf (column sb)) = Some vb ->
  value va = VUndefined ->
  compareRows (Some sb) a b
  = Normal (match value vb with VUndefined => Num 0 | _ => Num (-1) end).
Proof.
  intros Ha Hb Hu. unfold compareRows.
  destruct (ascending sb); rewrite Ha, Hb, Hu; destruct (value vb); reflexivity.
Qed.

(** A text as first operand against an undefined second operand is not
    "greater": the cells are plain, so the last branch compares the text
    with the string the undefined value converts to. *)
Lemma compareRows_text_against_undefined sb a b va vb s :
  rowGet (if ascending sb then a else b) (keyOf (column sb)) = Some va ->
  rowGet (if ascending sb then b else a) (keyOf (column sb)) = Some vb ->
  value va = VStr s -> pos va = None -> isSeverity va = false ->
  value vb = VUndefined ->
  compareRows (Some sb) a b = Normal (Num (localeCompare s "undefined")).
Proof.
  intros Ha Hb Hs Hp Hsev Hu. unfold compareRows.
  destruct (ascending sb); rewrite Ha, Hb, Hs, Hp, Hsev, Hu; reflexivity.
Qed.

End RemovalAndOrder.

(** ** What each operation leaves alone *)

Section Frames.
Context {runtime : JsRuntime} {enums : SarifEnums}.

Lemma postDataToExplorer_effect w :
  match getResultData (this w) with
  | Normal data =>
      postDataToExplorer w = (Normal tt, setExplorerData (explorerData w ++ [data]) w)
  | Throw e => postDataToExplorer w = (Throw e, w)
  end.
Proof.
  unfold postDataToExplorer, bind, getThis, lift.
  destruct (getResultData (this w)); reflexivity.
Qed.

Lemma updateFilteredRowsList_effect w :
  exists r l, updateFilteredRowsList w = (r, setThis (setPostFilterListRows l (this w)) w).
Proof.
  destruct (generateFilterRegExp (this w)) as [re|e] eqn:Hre.
  - rewrite (updateFilteredRowsList_Normal _ Hre). eauto.
  - rewrite (updateFilteredRowsList_Throw _ Hre). eauto.
Qed.

(** The world after a filter message: the filter settings as given, some
    filtered list, and at most one more data set at the explorer. *)
Lemma refilter_effect w c1 :
  resultsListRows c1 = resultsListRows (this w) ->
  sameView (this w) c1 ->
  let w' := snd ((updateFilteredRowsList ;;; postDataToExplorer) (setThis c1 w)) in
  resultsListRows (this w') = resultsListRows (this w)
  /\ sameView (this w) (this w')
  /\ sameFilter c1 (this w')
  /\ sarifConfig w' = sarifConfig w
  /\ getRunInfo w' = getRunInfo w
  /\ getResultInfo w' = getResultInfo w
  /\ revealed w' = revealed w.
Proof.
  intros Hrows Hview. cbv zeta. unfold bind.
  destruct (updateFilteredRowsList_effect (setThis c1 w)) as [r [l ->]].
  destruct r as [[]|e]; simpl.
  - pose proof (postDataToExplorer_effect
                  (setThis (setPostFilterListRows l c1) (setThis c1 w))) as Hp.
    destruct (getResultData _); rewrite Hp; simpl; unfold sameFilter; auto 10.
  - unfold sameFilter; auto 10.
Qed.

Lemma filter_apply_unfold w raw :
  onResultsListMessage (ResultsListFilterApplied raw) w
  = if String.eqb (trim raw) (filterText (this w))
    then (Normal tt, w)
    else (updateFilteredRowsList ;;; postDataToExplorer)
           (setThis (setFilterText (trim raw) (this w)) w).
Proof.
  unfold onResultsListMessage, bind, getThis, modifyThis.
  destruct (String.eqb (trim raw) (filterText (this w))); reflexivity.
Qed.

Lemma filter_case_toggled_unfold w :
  onResultsListMessage ResultsListFilterCaseToggled w
  = (updateFilteredRowsList ;;; postDataToExplorer)
      (setThis (setFilterCaseMatch (negb (filterCaseMatch (this w))) (this w)) w).
Proof. reflexivity. Qed.

Lemma removeDiag_frame diag c :
  sameView c (removeDiag diag c) /\ sameFilter c (removeDiag diag c).
Proof.
  unfold removeDiag, sameView, sameFilter. destruct (negb _); simpl; auto 10.
Qed.

Lemma updateDiag_frame regEx diag w :
  let w' := snd (updateDiag regEx diag w) in
  sameSurroundings w w' /\ sameView (this w) (this w') /\ sameFilter (this w) (this w').
Proof.
  cbv zeta. unfold updateDiag, sameSurroundings, sameView, sameFilter.
  destruct (createResultsListRow w (resultInfo diag)); simpl; [|auto 20].
  destruct (applyFilterToRow _ _), (_ =? -1); simpl; auto 20.
Qed.

(** X1: updateResultsListData changes the row table and the filtered list
    and nothing else.  It posts no data set to the explorer, writes no
    setting, asks for no reveal, and leaves the columns, the group-by, the
    sort-by and the filter settings as they were, for every batch, with or
    without the remove flag, whether it returns or raises. *)
Theorem updateResultsListData_touches_rows_only
  (diags : list SarifViewerDiagnostic) (remove : option bool) (w : World) :
  let w' := snd (updateResultsListData diags remove w) in
  sameSurroundings w w' /\ sameView (this w) (this w') /\ sameFilter (this w) (this w').
Proof.
  cbv zeta.
  set (P := fun w' : World =>
              sameSurroundings w w' /\ sameView (this w) (this w')
              /\ sameFilter (this w) (this w')).
  assert (P0 : P w) by (unfold P, sameSurroundings, sameView, sameFilter; auto 20).
  assert (Hrem : P (snd (forEachM (fun diag => modifyThis (removeDiag diag)) diags w))).
  { apply forEachM_preserves; [|exact P0].
    intros d w1 [Hs [Hv Hf]]. unfold P, modifyThis. simpl.
    destruct (removeDiag_frame d (this w1)) as [Hv1 Hf1].
    unfold sameSurroundings, sameView, sameFilter in *. simpl.
    intuition congruence. }
  assert (Hupd : P (snd ((c <- getThis ;;
                          regEx <- lift (generateFilterRegExp c) ;;
                          forEachM (updateDiag regEx) diags) w))).
  { unfold bind, getThis, lift.
    destruct (generateFilterRegExp (this w)) as [re|e]; [|exact P0].
    apply forEachM_preserves; [|exact P0].
    intros d w1 [Hs [Hv Hf]]. unfold P.
    destruct (updateDiag_frame re d w1) as [Hs1 [Hv1 Hf1]].
    unfold sameSurroundings, sameView, sameFilter in *.
    intuition congruence. }
  unfold updateResultsListData. destruct remove as [[|]|]; assumption.
Qed.

Lemma checks_frame w :
  let w' := snd ((c1 <- checkIfColumnsChanged ;;
                  c2 <- checkIfGroupByChanged ;;
                  c3 <- checkIfSortByChanged ;;
                  if (c1 || c2 || c3)%bool then postDataToExplorer else ret tt) w) in
  resultsListRows (this w') = resultsListRows (this w)
  /\ postFilterListRows (this w') = postFilterListRows (this w)
  /\ sameFilter (this w) (this w')
  /\ sarifConfig w' = sarifConfig w
  /\ getRunInfo w' = getRunInfo w
  /\ getResultInfo w' = getResultInfo w
  /\ revealed w' = revealed w.
Proof.
  cbv zeta. unfold bind, checkIfColumnsChanged.
  destruct (updateHide _ _) as [cols ch1].
  unfold checkIfGroupByChanged. simpl.
  destruct (negb (optString_eqb _ _)); simpl;
    unfold checkIfSortByChanged; simpl;
    destruct (resultsListSortBy (sarifConfig w)), (sortBy (this w)); simpl;
    repeat match goal with
           | |- context [if ?b then postDataToExplorer else ret tt] => destruct b
           end;
    try match goal with
        | |- context [postDataToExplorer ?x] =>
            let H := fresh in
            pose proof (postDataToExplorer_effect x) as H;
            destruct (getResultData (this x)); rewrite H
        end;
    simpl; unfold sameFilter; auto 10.
Qed.

(** X2: the row table is changed by updateResultsListData alone.  No
    message from the list, no settings notification and no posting to the
    explorer adds, replaces or deletes a stored row; a settings
    notification leaves the filtered list and the filter settings alone as
    well, and a message leaves the columns, the group-by and the sort-by of
    the controller alone: those change only through the settings. *)
Theorem row_table_changes_on_update_only (w : World) :
  (forall msg,
     let w' := snd (onResultsListMessage msg w) in
     resultsListRows (this w') = resultsListRows (this w)
     /\ sameView (this w) (this w')
     /\ getRunInfo w' = getRunInfo w /\ getResultInfo w' = getResultInfo w)
  /\ (forall event,
        let w' := snd (onSettingsChanged event w) in
        resultsListRows (this w') = resultsListRows (this w)
        /\ postFilterListRows (this w') = postFilterListRows (this w)
        /\ sameFilter (this w) (this w')
        /\ sarifConfig w' = sarifConfig w /\ revealed w' = revealed w
        /\ getRunInfo w' = getRunInfo w /\ getResultInfo w' = getResultInfo w)
  /\ (let w' := snd (postDataToExplorer w) in
      this w' = this w /\ sarifConfig w' = sarifConfig w /\ revealed w' = revealed w).
Proof.
  split; [|split].
  - intros msg. cbv zeta.
    assert (V0 : sameView (this w) (this w)) by (unfold sameView; auto).
    destruct msg as [col|raw| |col|id|col];
      [simpl; auto| | |simpl; auto| |].
    + rewrite filter_apply_unfold.
      destruct (String.eqb (trim raw) (filterText (this w))); [simpl; auto|].
      destruct (@refilter_effect w (setFilterText (trim raw) (this w)) eq_refl V0)
        as [H1 [H2 [_ [_ [H5 [H6 _]]]]]].
      auto.
    + rewrite filter_case_toggled_unfold.
      destruct (@refilter_effect w
                  (setFilterCaseMatch (negb (filterCaseMatch (this w))) (this w)) eq_refl V0)
        as [H1 [H2 [_ [_ [H5 [H6 _]]]]]].
      auto.
    + simpl. destruct (getResultInfo w _ _) as [d|]; [|simpl; auto].
      destruct (ResultInfo.assignedLocation _); simpl; auto.
    + simpl. destruct (resultsListSortBy (sarifConfig w)); simpl; auto.
  - intros event. cbv zeta.
    destruct event as [[|]|]; simpl;
      try (destruct (checks_frame w) as [H1 [H2 [H3 [H4 [H5 [H6 H7]]]]]]; auto 10).
    unfold sameFilter; auto 10.
  - cbv zeta. pose proof (postDataToExplorer_effect w) as H.
    destruct (getResultData (this w)); rewrite H; simpl; auto.
Qed.

(** X3: the three messages that change a view setting (column toggled,
    group changed, sort changed) are answered by writing the setting and by
    nothing else: the controller keeps all its fields, nothing is posted to
    the explorer and nothing is revealed.  The view itself changes only
    when the settings notification comes back. *)
Theorem view_messages_only_write_settings (msg : WebviewMessage) (w : World) :
  writesSetting msg = true ->
  let w' := snd (onResultsListMessage msg w) in
  this w' = this w
  /\ explorerData w' = explorerData w
  /\ revealed w' = revealed w
  /\ getRunInfo w' = getRunInfo w /\ getResultInfo w' = getResultInfo w.
Proof.
  destruct msg as [col|raw| |col|id|col]; simpl; try discriminate; intros _; auto.
  destruct (resultsListSortBy (sarifConfig w)); simpl; auto.
Qed.

End Frames.

(** ** Settings and the view *)

Section Settings.
Context {runtime : JsRuntime} {enums : SarifEnums}.

Lemma optString_eqb_spec a b : reflect (a = b) (optString_eqb a b).
Proof.
  destruct a as [x|], b as [y|]; simpl; try (constructor; congruence).
  destruct (String.eqb_spec x y); constructor; congruence.
Qed.

Lemma Controller_ext c c' :
  columns c = columns c' -> groupBy c = groupBy c' -> sortBy c = sortBy c' ->
  resultsListRows c = resultsListRows c' -> filterCaseMatch c = filterCaseMatch c' ->
  filterText c = filterText c' -> postFilterListRows c = postFilterListRows c' ->
  c = c'.
Proof. destruct c, c'; simpl; intros; subst; reflexivity. Qed.

Lemma updateHide_layout hideCols cols :
  columnsLayout (fst (updateHide hideCols cols)) = columnsLayout cols.
Proof.
  induction cols as [|[col d] t IH]; simpl; [reflexivity|].
  destruct (updateHide hideCols t) as [t' ch]. simpl in IH.
  destruct (Bool.eqb _ (hide d)); simpl; now rewrite IH.
Qed.

Lemma updateHide_hide hideCols cols col d :
  In (col, d) (fst (updateHide hideCols cols)) -> (hide d = true <-> In col hideCols).
Proof.
  induction cols as [|[col0 d0] t IH]; simpl; [tauto|].
  destruct (updateHide hideCols t) as [t' ch]. simpl in IH.
  assert (Hflag : forall b, b = negb (indexOf hideCols col0 =? -1) ->
                            (b = true <-> In col0 hideCols)).
  { intros b ->. destruct (Z.eqb_spec (indexOf hideCols col0) (-1)) as [E|E]; simpl.
    - apply indexOf_absent in E. split; [discriminate|tauto].
    - split; [intros _|reflexivity].
      destruct (in_dec string_dec col0 hideCols) as [|Hn]; [assumption|].
      apply indexOf_absent in Hn. contradiction. }
  destruct (Bool.eqb _ (hide d0)) eqn:E; simpl; intros [H|H]; auto.
  - injection H as <- <-. apply Hflag. symmetry. now apply Bool.eqb_prop.
  - injection H as <- <-. simpl. now apply Hflag.
Qed.

(** The answer of checkIfColumnsChanged is "changed" exactly when a hide
    flag was rewritten. *)
Lemma updateHide_changed hideCols cols :
  snd (updateHide hideCols cols) = false <-> fst (updateHide hideCols cols) = cols.
Proof.
  induction cols as [|[col d] t IH]; simpl; [tauto|].
  destruct (updateHide hideCols t) as [t' ch]. simpl in IH.
  destruct (Bool.eqb _ (hide d)) eqn:E; simpl.
  - rewrite IH. split; [intros ->; reflexivity|intros [= ->]; reflexivity].
  - split; [discriminate|]. intros H. exfalso.
    injection H as Hd _. destruct d as [ds h ti]. simpl in *.
    injection Hd as Hh. rewrite Hh in E.
    now rewrite Bool.eqb_reflx in E.
Qed.

Lemma updateHide_idempotent hideCols cols :
  fst (updateHide hideCols (fst (updateHide hideCols cols)))
  = fst (updateHide hideCols cols).
Proof.
  induction cols as [|[col d] t IH]; simpl; [reflexivity|].
  destruct (updateHide hideCols t) as [t' ch] eqn:Et. simpl in IH.
  destruct (Bool.eqb _ (hide d)) eqn:E; simpl.
  - destruct (updateHide hideCols t') as [t'' ch']. simpl in IH.
    rewrite E. simpl. now rewrite IH.
  - destruct (updateHide hideCols t') as [t'' ch']. simpl in IH.
    rewrite Bool.eqb_reflx. simpl. now rewrite IH.
Qed.

(** The view of the controller after the three checks of
    onSettingsChanged. *)
Lemma checks_view w :
  let w' := snd ((c1 <- checkIfColumnsChanged ;;
                  c2 <- checkIfGroupByChanged ;;
                  c3 <- checkIfSortByChanged ;;
                  if (c1 || c2 || c3)%bool then postDataToExplorer else ret tt) w) in
  columns (this w')
  = fst (updateHide (resultsListHideColumns (sarifConfig w)) (columns (this w)))
  /\ groupBy (this w') = resultsListGroupBy (sarifConfig w)
  /\ sortBy (this w') = resultsListSortBy (sarifConfig w).
Proof.
  cbv zeta. unfold bind, checkIfColumnsChanged.
  destruct (updateHide _ _) as [cols ch1].
  unfold checkIfGroupByChanged. simpl.
  destruct (optString_eqb_spec (resultsListGroupBy (sarifConfig w)) (groupBy (this w)));
    simpl; unfold checkIfSortByChanged; simpl;
    destruct (resultsListSortBy (sarifConfig w)) eqn:Es;
    destruct (sortBy (this w)) eqn:Et; simpl;
    repeat match goal with
           | |- context [if ?b then postDataToExplorer else ret tt] => destruct b
           end;
    rewrite ?postDataToExplorer_this; simpl; repeat split; congruence.
Qed.

(** X4: a settings notification that concerns the viewer (or the call made
    by the constructor) brings the view in line with the settings: the
    group-by and the sort-by of the controller are those of the settings,
    and a column is hidden exactly when the hidden-columns setting names it;
    the keys, titles and descriptions of the columns stay.  A second
    notification with the same settings leaves the controller as the first
    one left it, and a notification that does not concern the viewer
    changes nothing. *)
Theorem onSettingsChanged_adopts_settings (event : option bool) (w : World) :
  (event <> Some false ->
   let w' := snd (onSettingsChanged event w) in
   groupBy (this w') = resultsListGroupBy (sarifConfig w)
   /\ sortBy (this w') = resultsListSortBy (sarifConfig w)
   /\ columnsLayout (columns (this w')) = columnsLayout (columns (this w))
   /\ (forall col d, In (col, d) (columns (this w')) ->
         (hide d = true <-> In col (resultsListHideColumns (sarifConfig w))))
   /\ this (snd (onSettingsChanged event w')) = this w')
  /\ (event = Some false -> onSettingsChanged event w = (Normal tt, w)).
Proof.
  split; [|intros ->; reflexivity].
  intros Hev. cbv zeta.
  set (checks := (c1 <- checkIfColumnsChanged ;;
                  c2 <- checkIfGroupByChanged ;;
                  c3 <- checkIfSortByChanged ;;
                  if (c1 || c2 || c3)%bool then postDataToExplorer else ret tt)).
  assert (E : forall w0, onSettingsChanged event w0 = checks w0)
    by (destruct event as [[|]|]; [reflexivity|congruence|reflexivity]).
  rewrite !E.
  destruct (checks_view w) as [Hc [Hg Hs]]. fold checks in Hc, Hg, Hs.
  destruct (checks_frame w) as [Hr [Hl [[Hft Hfc] [Hcfg _]]]]. fold checks in Hr, Hl, Hft, Hfc, Hcfg.
  split; [exact Hg|]. split; [exact Hs|].
  split; [rewrite Hc; apply updateHide_layout|].
  split; [intros col d; rewrite Hc; apply updateHide_hide|].
  destruct (checks_view (snd (checks w))) as [Hc2 [Hg2 Hs2]]. fold checks in Hc2, Hg2, Hs2.
  destruct (checks_frame (snd (checks w))) as [Hr2 [Hl2 [[Hft2 Hfc2] _]]].
  fold checks in Hr2, Hl2, Hft2, Hfc2.
  apply Controller_ext; try assumption.
  - rewrite Hc2, Hcfg, Hc. apply updateHide_idempotent.
  - rewrite Hg2, Hcfg. now symmetry.
  - rewrite Hs2, Hcfg. now symmetry.
Qed.

Lemma updateResultsListData_columns diags remove w :
  columns (this (snd (updateResultsListData diags remove w))) = columns (this w).
Proof.
  set (P := fun w' : World => columns (this w') = columns (this w)).
  assert (Hrem : P (snd (forEachM (fun diag => modifyThis (removeDiag diag)) diags w))).
  { apply forEachM_preserves; [|reflexivity].
    intros d w1 H1. unfold P, modifyThis. simpl.
    destruct (removeDiag_frame d (this w1)) as [[Hc _] _]. congruence. }
  assert (Hupd : P (snd ((c <- getThis ;;
                          regEx <- lift (generateFilterRegExp c) ;;
                          forEachM (updateDiag regEx) diags) w))).
  { unfold bind, getThis, lift.
    destruct (generateFilterRegExp (this w)) as [re|e]; [|reflexivity].
    apply forEachM_preserves; [|reflexivity].
    intros d w1 H1. unfold P.
    destruct (updateDiag_frame re d w1) as [_ [[Hc _] _]]. congruence. }
  unfold updateResultsListData. destruct remove as [[|]|]; assumption.
Qed.

Lemma onResultsListMessage_columns msg w :
  columns (this (snd (onResultsListMessage msg w))) = columns (this w).
Proof.
  assert (V0 : sameView (this w) (this w)) by (unfold sameView; auto).
  destruct msg as [col|raw| |col|id|col]; [reflexivity| | |reflexivity| |].
  - rewrite filter_apply_unfold.
    destruct (String.eqb (trim raw) (filterText (this w))); [reflexivity|].
    now destruct (@refilter_effect _ w (setFilterText (trim raw) (this w)) eq_refl V0)
      as [_ [[H _] _]].
  - rewrite filter_case_toggled_unfold.
    now destruct (@refilter_effect _ w
                    (setFilterCaseMatch (negb (filterCaseMatch (this w))) (this w)) eq_refl V0)
      as [_ [[H _] _]].
  - simpl. destruct (getResultInfo w _ _) as [d|]; [|reflexivity].
    destruct (ResultInfo.assignedLocation _); reflexivity.
  - simpl. destruct (resultsListSortBy (sarifConfig w)); reflexivity.
Qed.

Lemma onSettingsChanged_layout event w :
  columnsLayout (columns (this (snd (onSettingsChanged event w))))
  = columnsLayout (columns (this w)).
Proof.
  destruct event as [[|]|]; [| reflexivity |];
    simpl; destruct (checks_view w) as [-> _]; apply updateHide_layout.
Qed.

(** X5: the set of columns is fixed.  In every reachable world the
    controller has the eight columns of initializeColumns, in that order and
    with their titles and descriptions; only the hide flags ever differ. *)
Theorem columns_layout_is_fixed (w : World) :
  reachable w ->
  columnsLayout (columns (this w)) = columnsLayout initializeColumns
  /\ map fst (columns (this w))
     = ["message"; "resultFile"; "resultStartPos"; "ruleId"; "ruleName"; "runId";
        "sarifFile"; "severityLevel"].
Proof.
  intros Hw.
  assert (H : columnsLayout (columns (this w)) = columnsLayout initializeColumns).
  { induction Hw.
    - unfold construct, bind, modifyThis at 1. rewrite onSettingsChanged_layout.
      reflexivity.
    - now rewrite updateResultsListData_columns.
    - now rewrite onResultsListMessage_columns.
    - now rewrite onSettingsChanged_layout.
    - now rewrite postDataToExplorer_this.
    - assumption. }
  split; [exact H|].
  change (map fst (columns (this w)))
    with (map (fun e : string * ResultsListColumn => fst e) (columns (this w))).
  replace (map (fun e : string * ResultsListColumn => fst e) (columns (this w)))
    with (map (fun t : string * string * string => fst (fst t))
              (columnsLayout (columns (this w))))
    by (unfold columnsLayout; rewrite map_map; reflexivity).
  rewrite H. reflexivity.
Qed.

End Settings.

(** ** Messages that change the view, and the constructor *)

Section ViewMessages.
Context {runtime : JsRuntime} {enums : SarifEnums}.

(** Where [indexOf] finds an element: after a prefix that does not hold it. *)
Lemma indexOf_split l x :
  In x l ->
  exists l1 l2, l = l1 ++ x :: l2 /\ ~ In x l1 /\ indexOf l x = Z.of_nat (List.length l1).
Proof.
  induction l as [|y t IH]; simpl; [tauto|].
  destruct (String.eqb_spec y x) as [->|Hne].
  - intros _. exists [], t. simpl. auto.
  - intros [H|H]; [contradiction|].
    destruct (IH H) as [l1 [l2 [-> [Hn Hi]]]].
    exists (y :: l1), l2. simpl. rewrite Hi.
    destruct (Z.eqb_spec (Z.of_nat (List.length l1)) (-1)); [lia|].
    repeat split; [tauto|lia].
Qed.

Lemma indexOf_app_absent l x :
  ~ In x l -> indexOf (l ++ [x]) x = Z.of_nat (List.length l).
Proof.
  intros Hn.
  destruct (@indexOf_split (l ++ [x]) x) as [l1 [l2 [E [Hn1 ->]]]];
    [apply in_or_app; right; now left|].
  f_equal.
  assert (Hl2 : l2 = []).
  { destruct l2 as [|z l2] using rev_ind; [reflexivity|].
    exfalso. rewrite app_comm_cons, app_assoc in E.
    apply app_inj_tail in E. destruct E as [-> _].
    apply Hn. apply in_or_app. right. now left. }
  subst l2. apply app_inj_tail in E. destruct E as [-> _]. reflexivity.
Qed.

Lemma splice_one_at {A} (l1 l2 : list A) x :
  splice_one (l1 ++ x :: l2) (Z.of_nat (List.length l1)) = l1 ++ l2.
Proof.
  unfold splice_one. destruct (Z.ltb_spec (Z.of_nat (List.length l1)) 0) as [H|_]; [lia|].
  rewrite Nat2Z.id.
  induction l1 as [|y t IH]; [reflexivity|].
  change (y :: (firstn (List.length t) (t ++ x :: l2)
                ++ skipn (S (List.length t)) (t ++ x :: l2)) = y :: (t ++ l2)).
  f_equal. exact IH.
Qed.

Lemma splice1_at {A} (l1 l2 : list A) :
  splice1 (l1 ++ l2) (Z.of_nat (List.length l1)) = l1.
Proof.
  unfold splice1. destruct (Z.ltb_spec (Z.of_nat (List.length l1)) 0) as [H|_]; [lia|].
  rewrite Nat2Z.id.
  induction l1 as [|y t IH]; [reflexivity|].
  cbn [List.length firstn app]. f_equal. exact IH.
Qed.

(** X6: a column-toggled message returns and flips the column in the
    hidden-columns setting, leaving the other two settings alone.  A column
    that was not named is appended, and toggling it once more gives the
    world back exactly; a column that was named loses its first entry, so
    that from a list without duplicates it is gone; whether any other
    column is named does not change. *)
Theorem column_toggle_flips_setting (col : string) (w : World) :
  let out := onResultsListMessage (ResultsListColumnToggled col) w in
  let hideCols := resultsListHideColumns (sarifConfig w) in
  let hideCols' := resultsListHideColumns (sarifConfig (snd out)) in
  fst out = Normal tt
  /\ resultsListGroupBy (sarifConfig (snd out)) = resultsListGroupBy (sarifConfig w)
  /\ resultsListSortBy (sarifConfig (snd out)) = resultsListSortBy (sarifConfig w)
  /\ (~ In col hideCols ->
      hideCols' = hideCols ++ [col]
      /\ snd (onResultsListMessage (ResultsListColumnToggled col) (snd out)) = w)
  /\ (In col hideCols ->
      exists l1 l2, hideCols = l1 ++ col :: l2 /\ ~ In col l1 /\ hideCols' = l1 ++ l2)
  /\ (In col hideCols -> NoDup hideCols -> ~ In col hideCols')
  /\ (forall other, other <> col -> (In other hideCols' <-> In other hideCols)).
Proof.
  cbv zeta. unfold onResultsListMessage, updateConfig. simpl.
  assert (Hpresent : In col (resultsListHideColumns (sarifConfig w)) ->
            exists l1 l2,
              resultsListHideColumns (sarifConfig w) = l1 ++ col :: l2 /\ ~ In col l1
              /\ (if negb (indexOf (resultsListHideColumns (sarifConfig w)) col =? -1)
                  then splice_one (resultsListHideColumns (sarifConfig w))
                         (indexOf (resultsListHideColumns (sarifConfig w)) col)
                  else resultsListHideColumns (sarifConfig w) ++ [col]) = l1 ++ l2).
  { intros Hin. destruct (indexOf_split _ _ Hin) as [l1 [l2 [E [Hn Hi]]]].
    exists l1, l2. split; [exact E|]. split; [exact Hn|].
    rewrite Hi. destruct (Z.eqb_spec (Z.of_nat (List.length l1)) (-1)); [lia|].
    simpl. rewrite E at 1. apply splice_one_at. }
  assert (Habsent : ~ In col (resultsListHideColumns (sarifConfig w)) ->
            (if negb (indexOf (resultsListHideColumns (sarifConfig w)) col =? -1)
             then splice_one (resultsListHideColumns (sarifConfig w))
                    (indexOf (resultsListHideColumns (sarifConfig w)) col)
             else resultsListHideColumns (sarifConfig w) ++ [col])
            = resultsListHideColumns (sarifConfig w) ++ [col]).
  { intros Hn. apply indexOf_absent in Hn. rewrite Hn. reflexivity. }
  repeat split.
  - now apply Habsent.
  - rewrite (Habsent H), (indexOf_app_absent _ _ H).
    destruct (Z.eqb_spec (Z.of_nat (List.length (resultsListHideColumns (sarifConfig w)))) (-1));
      [lia|].
    simpl. rewrite splice_one_at, app_nil_r.
    destruct w as [c cfg r1 r2 ex rv]; destruct cfg; reflexivity.
  - exact Hpresent.
  - intros Hin Hnd. destruct (Hpresent Hin) as [l1 [l2 [E [Hn ->]]]].
    rewrite E in Hnd. now apply NoDup_remove_2 in Hnd.
  - destruct (in_dec string_dec col (resultsListHideColumns (sarifConfig w))) as [Hin|Hn].
    + destruct (Hpresent Hin) as [l1 [l2 [E [_ ->]]]]. rewrite E.
      rewrite !in_app_iff. simpl. intuition congruence.
    + rewrite (Habsent Hn). rewrite in_app_iff. simpl. intuition congruence.
  - destruct (in_dec string_dec col (resultsListHideColumns (sarifConfig w))) as [Hin|Hn].
    + destruct (Hpresent Hin) as [l1 [l2 [E [_ ->]]]]. rewrite E.
      rewrite !in_app_iff. simpl. intuition congruence.
    + rewrite (Habsent Hn). rewrite in_app_iff. simpl. intuition congruence.
Qed.

(** X7: a sort-changed message needs a sort-by setting: without one it
    raises and changes nothing.  With one it returns and
    rewrites only that setting: for the column already sorted by, the
    direction flips and a second message gives the world back exactly; for
    another column, that column ascending, and a second message turns it
    descending. *)
Theorem sort_change_flips_or_resets (col : string) (w : World) :
  let out := onResultsListMessage (ResultsListSortChanged col) w in
  (resultsListSortBy (sarifConfig w) = None -> exists e, out = (Throw e, w))
  /\ (forall sb, resultsListSortBy (sarifConfig w) = Some sb ->
        fst out = Normal tt
        /\ this (snd out) = this w
        /\ resultsListHideColumns (sarifConfig (snd out))
           = resultsListHideColumns (sarifConfig w)
        /\ resultsListGroupBy (sarifConfig (snd out)) = resultsListGroupBy (sarifConfig w)
        /\ (column sb = Some col ->
            resultsListSortBy (sarifConfig (snd out))
            = Some {| column := Some col; ascending := negb (ascending sb) |}
            /\ snd (onResultsListMessage (ResultsListSortChanged col) (snd out)) = w)
        /\ (column sb <> Some col ->
            resultsListSortBy (sarifConfig (snd out))
            = Some {| column := Some col; ascending := true |}
            /\ resultsListSortBy
                 (sarifConfig (snd (onResultsListMessage (ResultsListSortChanged col)
                                      (snd out))))
               = Some {| column := Some col; ascending := false |})).
Proof.
  cbv zeta. unfold onResultsListMessage, updateConfig. split.
  - intros ->. eauto.
  - intros sb Hsb. rewrite Hsb. simpl.
    destruct (optString_eqb_spec (column sb) (Some col)) as [E|E].
    + repeat split; try congruence.
      simpl. rewrite E. simpl. rewrite String.eqb_refl. simpl.
      rewrite Bool.negb_involutive.
      destruct w as [c cfg r1 r2 ex rv]; destruct cfg as [h g s]; simpl in *.
      subst s. destruct sb as [cl asc]; simpl in *. subst cl. reflexivity.
    + repeat split; try congruence.
      simpl. rewrite String.eqb_refl. reflexivity.
Qed.



(** With an empty filtered list getResultData has nothing to group or to
    sort: it returns the data set without groups, whatever the group-by and
    the sort-by are. *)
Lemma getResultData_empty_list c :
  postFilterListRows c = [] -> getResultData c = Normal (dataWith c []).
Proof. intros H. unfold getResultData, groupRows. rewrite H. reflexivity. Qed.

Lemma checks_outcome_empty_list w :
  postFilterListRows (this w) = [] ->
  let out := (c1 <- checkIfColumnsChanged ;;
              c2 <- checkIfGroupByChanged ;;
              c3 <- checkIfSortByChanged ;;
              if (c1 || c2 || c3)%bool then postDataToExplorer else ret tt) w in
  fst out = Normal tt
  /\ (explorerData (snd out) = explorerData w
      \/ explorerData (snd out) = explorerData w ++ [dataWith (this (snd out)) []]).
Proof.
  intros Hl. cbv zeta. unfold bind, checkIfColumnsChanged.
  destruct (updateHide _ _) as [cols ch1].
  unfold checkIfGroupByChanged. simpl.
  destruct (negb (optString_eqb _ _)); simpl;
    unfold checkIfSortByChanged; simpl;
    destruct (resultsListSortBy (sarifConfig w)), (sortBy (this w)); simpl;
    repeat match goal with
           | |- context [if ?b then postDataToExplorer else ret tt] => destruct b
           end;
    try match goal with
        | |- context [postDataToExplorer ?x] =>
            let H := fresh in
            pose proof (postDataToExplorer_effect x) as H;
            rewrite (getResultData_empty_list (this x)) in H by exact Hl;
            rewrite H
        end;
    simpl; auto.
Qed.

(** X9: with a hidden-columns setting that holds a list of names, the
    constructor never raises, whatever that list names and whether the
    group-by and the sort-by setting are set or not.  It leaves an empty
    row table, an empty filtered list, the empty case-insensitive filter,
    the group-by and the sort-by of the settings, and at most one data set
    at the explorer, which has no groups.  (A hidden-columns setting that
    is not set is outside this statement: a World always carries a list.) *)
Theorem construct_never_raises (w : World) :
  let out := construct w in
  let c := this (snd out) in
  fst out = Normal tt
  /\ resultsListRows c = [] /\ postFilterListRows c = []
  /\ filterText c = "" /\ filterCaseMatch c = false
  /\ groupBy c = resultsListGroupBy (sarifConfig w)
  /\ sortBy c = resultsListSortBy (sarifConfig w)
  /\ (explorerData (snd out) = explorerData w
      \/ explorerData (snd out) = explorerData w ++ [dataWith c []]).
Proof.
  cbv zeta. unfold construct, bind, modifyThis at 1.
  set (w0 := setThis newController w).
  change (onSettingsChanged None w0)
    with ((c1 <- checkIfColumnsChanged ;;
           c2 <- checkIfGroupByChanged ;;
           c3 <- checkIfSortByChanged ;;
           if (c1 || c2 || c3)%bool then postDataToExplorer else ret tt) w0).
  destruct (checks_outcome_empty_list w0 eq_refl) as [Hr He].
  destruct (checks_frame w0) as [Hrows [Hlist [[Hft Hfc] _]]].
  destruct (checks_view w0) as [_ [Hg Hs]].
  repeat split; assumption.
Qed.

End ViewMessages.

(** ** The row table: update, lookup, removal *)

Section RowTable.
Context {runtime : JsRuntime} {enums : SarifEnums}.

Lemma World_eta w : setThis (this w) w = w.
Proof. destruct w; reflexivity. Qed.

Lemma createResultsListRow_id w diag row :
  createResultsListRow w (resultInfo diag) = Normal row -> ownId row = diagId diag.
Proof.
  unfold createResultsListRow.
  destruct (getRunInfo w _) as [run|]; [|discriminate].
  destruct (nth_error (ResultInfo.locations (resultInfo diag)) 0) as [[loc|]|];
    intros [= <-]; reflexivity.
Qed.

Lemma update_one_effect w diag remove :
  remove <> Some true ->
  updateResultsListData [diag] remove w
  = match generateFilterRegExp (this w) with
    | Throw e => (Throw e, w)
    | Normal regEx =>
        match createResultsListRow w (resultInfo diag) with
        | Throw e => (Throw e, w)
        | Normal row =>
            (Normal tt, setThis (upserted (this w) (diagId diag) row regEx) w)
        end
    end.
Proof.
  intros Hr.
  assert (E : updateResultsListData [diag] remove w
              = (c <- getThis ;;
                 regEx <- lift (generateFilterRegExp c) ;;
                 forEachM (updateDiag regEx) [diag]) w)
    by (destruct remove as [[|]|]; [congruence|reflexivity|reflexivity]).
  rewrite E. unfold bind, getThis, lift.
  destruct (generateFilterRegExp (this w)) as [regEx|e]; [|reflexivity].
  simpl. unfold bind, updateDiag.
  destruct (createResultsListRow w (resultInfo diag)) as [row|e] eqn:Hrow; [|reflexivity].
  change (rowIdOf (value (runId row)) (value (resultId row))) with (ownId row).
  rewrite (createResultsListRow_id _ _ Hrow). unfold upserted. simpl.
  destruct (applyFilterToRow row regEx), (_ =? -1); reflexivity.
Qed.

Lemma remove_one_effect w diag :
  updateResultsListData [diag] (Some true) w
  = (Normal tt, setThis (removeDiag diag (this w)) w).
Proof. reflexivity. Qed.

Lemma upserted_fields c id row regEx :
  resultsListRows (upserted c id row regEx) = mapSet String.eqb (resultsListRows c) id row
  /\ sameView c (upserted c id row regEx) /\ sameFilter c (upserted c id row regEx).
Proof.
  unfold upserted, sameView, sameFilter.
  destruct (applyFilterToRow row regEx), (_ =? -1); simpl; auto 10.
Qed.

(** An id is listed after the update of its row exactly when the row
    passes the filter. *)
Lemma upserted_listed c id row regEx :
  In id (postFilterListRows (upserted c id row regEx)) <-> applyFilterToRow row regEx = true.
Proof.
  unfold upserted.
  destruct (applyFilterToRow row regEx);
    destruct (Z.eqb_spec (indexOf (postFilterListRows c) id) (-1)) as [E|E]; simpl.
  - split; [reflexivity|]. intros _. apply in_or_app. right. now left.
  - split; [reflexivity|]. intros _.
    destruct (in_dec string_dec id (postFilterListRows c)) as [|Hn]; [assumption|].
    apply indexOf_absent in Hn. contradiction.
  - apply indexOf_absent in E. split; [tauto|discriminate].
  - split; [|discriminate]. intros H.
    now destruct (In_splice1_indexOf _ _ _ E H).
Qed.

Lemma mapSet_idempotent {K V} (keq : K -> K -> bool)
  (keq_spec : forall a b, reflect (a = b) (keq a b)) (m : JsMap K V) k v :
  mapSet keq (mapSet keq m k v) k v = mapSet keq m k v.
Proof.
  induction m as [|[k0 v0] t IH]; simpl.
  - destruct (keq_spec k k); congruence.
  - destruct (keq_spec k0 k) as [->|Hne]; simpl.
    + destruct (keq_spec k k); congruence.
    + destruct (keq_spec k0 k); [contradiction|now rewrite IH].
Qed.

Lemma mapDelete_mapSet_absent {K V} (keq : K -> K -> bool)
  (keq_spec : forall a b, reflect (a = b) (keq a b)) (m : JsMap K V) k v :
  ~ In k (mapKeys m) -> mapDelete keq (mapSet keq m k v) k = m.
Proof.
  induction m as [|[k0 v0] t IH]; simpl; intros Hn.
  - destruct (keq_spec k k); congruence.
  - destruct (keq_spec k0 k) as [->|Hne]; [tauto|]. simpl.
    destruct (keq_spec k0 k); [contradiction|]. rewrite IH; tauto.
Qed.

Lemma mapGet_mapDelete_other {K V} (keq : K -> K -> bool)
  (keq_spec : forall a b, reflect (a = b) (keq a b)) (m : JsMap K V) k k0 :
  k0 <> k -> mapGet keq (mapDelete keq m k) k0 = mapGet keq m k0.
Proof.
  intros Hne. induction m as [|[k1 v1] t IH]; simpl; [reflexivity|].
  destruct (keq_spec k1 k) as [->|Hne1]; simpl.
  - destruct (keq_spec k k0); congruence.
  - destruct (keq_spec k1 k0); [reflexivity|exact IH].
Qed.

(** X10: what an update of one diagnostic does when the filter compiles
    and the run of the diagnostic is known.  It returns; the table then
    maps the diagnostic's id to the freshly made row and every other id to
    what it was mapped to before; a row that was stored keeps its place in
    the table and a new one goes to its end; and the id is in the filtered
    list exactly when the row passes the filter. *)
Theorem update_then_lookup
  (w : World) (diag : SarifViewerDiagnostic) (remove : option bool)
  (regEx : RegExp) (row : ResultsListRow) :
  remove <> Some true ->
  generateFilterRegExp (this w) = Normal regEx ->
  createResultsListRow w (resultInfo diag) = Normal row ->
  let out := updateResultsListData [diag] remove w in
  let c := this w in
  let c' := this (snd out) in
  fst out = Normal tt
  /\ mapGet String.eqb (resultsListRows c') (diagId diag) = Some row
  /\ (forall id, id <> diagId diag ->
        mapGet String.eqb (resultsListRows c') id = mapGet String.eqb (resultsListRows c) id)
  /\ mapKeys (resultsListRows c')
     = match mapGet String.eqb (resultsListRows c) (diagId diag) with
       | Some _ => mapKeys (resultsListRows c)
       | None => mapKeys (resultsListRows c) ++ [diagId diag]
       end
  /\ (In (diagId diag) (postFilterListRows c') <-> applyFilterToRow row regEx = true).
Proof.
  intros Hr Hre Hrow. cbv zeta.
  rewrite (update_one_effect w diag Hr), Hre, Hrow. simpl.
  destruct (upserted_fields (this w) (diagId diag) row regEx) as [-> _].
  split; [reflexivity|].
  split; [apply mapGet_mapSet_same, String.eqb_spec|].
  split; [intros id Hne; apply mapGet_mapSet_other; [apply String.eqb_spec|exact Hne]|].
  split; [|apply upserted_listed].
  destruct (mapGet String.eqb (resultsListRows (this w)) (diagId diag)) as [r|] eqn:E.
  - apply mapKeys_mapSet_present; [apply String.eqb_spec|].
    eapply mapGet_In_keys; [apply String.eqb_spec|exact E].
  - apply mapKeys_mapSet_absent; [apply String.eqb_spec|].
    now apply (@mapGet_None_keys _ _ _ String.eqb_spec).
Qed.

Lemma upserted_idempotent c id row regEx :
  upserted (upserted c id row regEx) id row regEx = upserted c id row regEx.
Proof.
  destruct (upserted_fields c id row regEx) as [Hrows [[Hc [Hg Hs]] [Hft Hfc]]].
  pose proof (upserted_listed c id row regEx) as Hl.
  set (c1 := upserted c id row regEx) in *.
  unfold upserted at 1.
  assert (Hmap : mapSet String.eqb (resultsListRows c1) id row = resultsListRows c1)
    by (rewrite Hrows; apply mapSet_idempotent, String.eqb_spec).
  destruct (applyFilterToRow row regEx) eqn:Ep.
  - destruct (Z.eqb_spec (indexOf (postFilterListRows c1) id) (-1)) as [E|E].
    + apply indexOf_absent in E. exfalso. apply E, Hl. reflexivity.
    + apply Controller_ext; simpl; auto.
  - destruct (Z.eqb_spec (indexOf (postFilterListRows c1) id) (-1)) as [E|E]; simpl.
    + apply Controller_ext; simpl; auto.
    + exfalso. destruct (in_dec string_dec id (postFilterListRows c1)) as [Hin|Hn].
      * apply Hl in Hin. discriminate.
      * apply indexOf_absent in Hn. contradiction.
Qed.

(** X11: taking in the same diagnostic twice is the same as taking it in
    once: the second update leaves the world exactly as the first one left
    it, whether the row passes the filter or not, and also when the update
    raises. *)
Theorem update_is_idempotent
  (w : World) (diag : SarifViewerDiagnostic) (remove : option bool) :
  remove <> Some true ->
  let once := snd (updateResultsListData [diag] remove w) in
  snd (updateResultsListData [diag] remove once) = once.
Proof.
  intros Hr. cbv zeta.
  rewrite (update_one_effect w diag Hr).
  destruct (generateFilterRegExp (this w)) as [regEx|e] eqn:Hre.
  - destruct (createResultsListRow w (resultInfo diag)) as [row|e] eqn:Hrow.
    + simpl. rewrite (update_one_effect _ diag Hr). simpl.
      destruct (upserted_fields (this w) (diagId diag) row regEx) as [_ [_ [Hft Hfc]]].
      rewrite generateFilterRegExp_eq, Hft, Hfc, <- generateFilterRegExp_eq, Hre.
      change (createResultsListRow
                (setThis (upserted (this w) (diagId diag) row regEx) w) (resultInfo diag))
        with (createResultsListRow w (resultInfo diag)).
      rewrite Hrow. simpl. rewrite upserted_idempotent. reflexivity.
    + simpl. rewrite (update_one_effect w diag Hr), Hre, Hrow. reflexivity.
  - simpl. rewrite (update_one_effect w diag Hr), Hre. reflexivity.
Qed.

Lemma removeDiag_absent diag c :
  ~ In (diagId diag) (mapKeys (resultsListRows c)) ->
  ~ In (diagId diag) (postFilterListRows c) ->
  removeDiag diag c = c.
Proof.
  intros Hk Hl. unfold removeDiag. fold (diagId diag). simpl.
  pose proof Hl as Hi. apply indexOf_absent in Hi. rewrite Hi. simpl.
  apply Controller_ext; simpl; auto.
  apply mapDelete_absent; [apply String.eqb_spec|assumption].
Qed.

Lemma removeDiag_upserted_fresh diag c row regEx :
  ~ In (diagId diag) (mapKeys (resultsListRows c)) ->
  ~ In (diagId diag) (postFilterListRows c) ->
  removeDiag diag (upserted c (diagId diag) row regEx) = c.
Proof.
  intros Hk Hl.
  pose proof Hl as Hi. apply indexOf_absent in Hi.
  assert (Hmap : mapDelete String.eqb
                   (mapSet String.eqb (resultsListRows c) (diagId diag) row) (diagId diag)
                 = resultsListRows c)
    by (apply mapDelete_mapSet_absent; [apply String.eqb_spec|assumption]).
  unfold removeDiag. fold (diagId diag). unfold upserted. rewrite Hi. simpl.
  destruct (applyFilterToRow row regEx); simpl.
  - rewrite (indexOf_app_absent _ _ Hl).
    destruct (Z.eqb_spec (Z.of_nat (List.length (postFilterListRows c))) (-1)); [lia|].
    simpl. apply Controller_ext; simpl; auto. apply splice1_at.
  - rewrite Hi. simpl. apply Controller_ext; simpl; auto.
Qed.

(** X12: update and removal compute the same id, so a removal finds what
    the update stored.  For a diagnostic whose id is neither stored nor
    listed, taking it in and removing it again gives the world back
    exactly: the table with its order, and the filtered list. *)
Theorem update_then_remove_restores
  (w : World) (diag : SarifViewerDiagnostic) (remove : option bool) :
  remove <> Some true ->
  ~ In (diagId diag) (mapKeys (resultsListRows (this w))) ->
  ~ In (diagId diag) (postFilterListRows (this w)) ->
  snd (updateResultsListData [diag] (Some true)
         (snd (updateResultsListData [diag] remove w)))
  = w.
Proof.
  intros Hr Hk Hl.
  assert (Hnoop : snd (updateResultsListData [diag] (Some true) w) = w).
  { rewrite remove_one_effect. simpl.
    rewrite (removeDiag_absent diag (this w) Hk Hl). apply World_eta. }
  rewrite (update_one_effect w diag Hr).
  destruct (generateFilterRegExp (this w)) as [regEx|e]; [|exact Hnoop].
  destruct (createResultsListRow w (resultInfo diag)) as [row|e]; [|exact Hnoop].
  rewrite remove_one_effect. simpl.
  rewrite (removeDiag_upserted_fresh diag (this w) row regEx Hk Hl).
  destruct w; reflexivity.
Qed.

Lemma forEachM_modify_returns {A} (f : A -> Controller -> Controller) l w :
  fst (forEachM (fun x => modifyThis (f x)) l w) = Normal tt.
Proof.
  revert w. induction l as [|x t IH]; intros w; [reflexivity|].
  simpl. unfold bind, modifyThis at 1. apply IH.
Qed.

(** X13: a removal never raises, not even when the filter text is an
    invalid pattern, since it does not compile the filter.  In a reachable
    world, after the removal of one diagnostic its id is neither stored nor
    listed, every other id is mapped as before, and the filtered list is a
    prefix of what it was. *)
Theorem removal_returns_and_forgets_the_id
  (w : World) (diags : list SarifViewerDiagnostic) (diag : SarifViewerDiagnostic) :
  fst (updateResultsListData diags (Some true) w) = Normal tt
  /\ (reachable w ->
      let c := this w in
      let c' := this (snd (updateResultsListData [diag] (Some true) w)) in
      ~ In (diagId diag) (mapKeys (resultsListRows c'))
      /\ ~ In (diagId diag) (postFilterListRows c')
      /\ (forall id, id <> diagId diag ->
            mapGet String.eqb (resultsListRows c') id
            = mapGet String.eqb (resultsListRows c) id)
      /\ exists n, postFilterListRows c' = firstn n (postFilterListRows c)).
Proof.
  split; [apply forEachM_modify_returns|].
  intros Hw. cbv zeta. rewrite remove_one_effect. simpl.
  pose proof (reachable_Inv Hw) as HI.
  destruct (removeDiag_table diag (this w)) as [Hrows _].
  split; [rewrite Hrows; apply mapDelete_gone; [apply String.eqb_spec|apply HI]|].
  split; [|split].
  - unfold removeDiag. fold (diagId diag). simpl.
    destruct (Z.eqb_spec (indexOf (postFilterListRows (this w)) (diagId diag)) (-1)) as [E|E];
      simpl.
    + now apply indexOf_absent.
    + intros Hin. now destruct (In_splice1_indexOf _ _ _ E Hin).
  - intros id Hne. rewrite Hrows.
    apply mapGet_mapDelete_other; [apply String.eqb_spec|exact Hne].
  - unfold removeDiag. fold (diagId diag). simpl.
    destruct (negb _); simpl; [apply splice1_prefix|].
    exists (List.length (postFilterListRows (this w))). now rewrite firstn_all.
Qed.

End RowTable.

(** ** Row ids *)

Section Identity.
Context {runtime : JsRuntime} {enums : SarifEnums}.

Lemma string_of_Z_inj a b : string_of_Z a = string_of_Z b -> a = b.
Proof.
  unfold string_of_Z. intros H.
  assert (Hnn : forall n, Z.to_int n <> Decimal.Pos Decimal.Nil
                          /\ Z.to_int n <> Decimal.Neg Decimal.Nil).
  { intros [|p|p]; simpl; split; try discriminate;
      intros [= E]; now apply (Unsigned.to_uint_nonnil p). }
  assert (E : Some (Z.to_int a) = Some (Z.to_int b)).
  { rewrite <- (NilZero.isi (Z.to_int a)) by apply Hnn.
    rewrite <- (NilZero.isi (Z.to_int b)) by apply Hnn.
    now rewrite H. }
  injection E as E.
  rewrite <- (DecimalZ.of_to a), <- (DecimalZ.of_to b). now rewrite E.
Qed.

Lemma holds_append c a b : holds c (a ++ b)%string = (holds c a || holds c b)%bool.
Proof.
  induction a as [|x t IH]; simpl; [reflexivity|]. rewrite IH. apply orb_assoc.
Qed.

Lemma digits_no_underscore d : holds "_" (NilEmpty.string_of_uint d) = false.
Proof. induction d; simpl; auto. Qed.

Lemma string_of_Z_no_underscore n : holds "_" (string_of_Z n) = false.
Proof.
  unfold string_of_Z.
  assert (H : forall d, holds "_" (NilZero.string_of_uint d) = false).
  { intros d. pose proof (digits_no_underscore d) as Hd.
    destruct d; simpl in *; auto. }
  destruct (Z.to_int n) as [d|d]; simpl; apply H.
Qed.

(** Two texts that end a part free of [c] at the first [c] agree part by
    part. *)
Lemma split_at_separator c a a' b b' :
  holds c a = false -> holds c a' = false ->
  (a ++ String c b)%string = (a' ++ String c b')%string -> a = a' /\ b = b'.
Proof.
  revert a'. induction a as [|x t IH]; intros [|x' t']; simpl.
  - intros _ _ [= ->]. auto.
  - intros _ H [= <- _]. rewrite Ascii.eqb_refl in H. discriminate.
  - intros H _ [= -> _]. rewrite Ascii.eqb_refl in H. discriminate.
  - intros H H' [= -> E].
    apply orb_false_elim in H, H'. destruct H as [_ H], H' as [_ H'].
    destruct (IH t' H H' E) as [-> ->]. auto.
Qed.

Lemma rowIdOf_inj a b a' b' :
  rowIdOf (VNum a) (VNum b) = rowIdOf (VNum a') (VNum b') -> a = a' /\ b = b'.
Proof.
  unfold rowIdOf. simpl. intros H.
  apply split_at_separator in H; try apply string_of_Z_no_underscore.
  destruct H as [Ha Hb]. split; now apply string_of_Z_inj.
Qed.

Lemma In_entry_mapSet {K V} (keq : K -> K -> bool)
  (keq_spec : forall a b, reflect (a = b) (keq a b)) (m : JsMap K V) k v k0 v0 :
  In (k, v) (mapSet keq m k0 v0) -> (k = k0 /\ v = v0) \/ In (k, v) m.
Proof.
  induction m as [|[k1 v1] t IH]; simpl.
  - intros [[= <- <-]|[]]. auto.
  - destruct (keq_spec k1 k0) as [->|Hne]; simpl.
    + intros [[= <- <-]|H]; auto.
    + intros [H|H]; [auto|]. destruct (IH H); auto.
Qed.

Lemma In_entry_mapDelete {K V} (keq : K -> K -> bool) (m : JsMap K V) k v k0 :
  In (k, v) (mapDelete keq m k0) -> In (k, v) m.
Proof.
  induction m as [|[k1 v1] t IH]; simpl; [tauto|].
  destruct (keq k1 k0); simpl; [tauto|]. intros [H|H]; auto.
Qed.

Lemma mapGet_entry {K V} (keq : K -> K -> bool)
  (keq_spec : forall a b, reflect (a = b) (keq a b)) (m : JsMap K V) k v :
  mapGet keq m k = Some v -> In (k, v) m.
Proof.
  induction m as [|[k1 v1] t IH]; simpl; [discriminate|].
  destruct (keq_spec k1 k) as [->|Hne]; [intros [= ->]; now left|auto].
Qed.

Lemma removeDiag_keyed diag c : keyedByIdentity c -> keyedByIdentity (removeDiag diag c).
Proof.
  intros H id row Hin. apply H.
  destruct (removeDiag_table diag c) as [Hrows _]. rewrite Hrows in Hin.
  eapply In_entry_mapDelete; eauto.
Qed.

Lemma updateDiag_keyed regEx diag w :
  keyedByIdentity (this w) -> keyedByIdentity (this (snd (updateDiag regEx diag w))).
Proof.
  intros H. unfold updateDiag.
  destruct (createResultsListRow w (resultInfo diag)) as [row|e] eqn:Hrow; [|exact H].
  intros id r Hin.
  assert (Hin' : In (id, r) (mapSet String.eqb (resultsListRows (this w)) (ownId row) row)).
  { simpl in Hin. fold (ownId row) in Hin.
    destruct (applyFilterToRow row regEx), (_ =? -1); exact Hin. }
  apply In_entry_mapSet in Hin'; [|apply String.eqb_spec].
  destruct Hin' as [[-> ->]|Hold]; [|now apply H].
  split; [exists w, (resultInfo diag); exact Hrow|reflexivity].
Qed.

Lemma updateResultsListData_keyed diags remove w :
  keyedByIdentity (this w) ->
  keyedByIdentity (this (snd (updateResultsListData diags remove w))).
Proof.
  intros H. unfold updateResultsListData.
  assert (Hrem : keyedByIdentity
                   (this (snd (forEachM (fun diag => modifyThis (removeDiag diag)) diags w)))).
  { apply (forEachM_preserves (fun w => keyedByIdentity (this w))); [|assumption].
    intros d w' Hw'. simpl. now apply removeDiag_keyed. }
  assert (Hupd : keyedByIdentity
                   (this (snd ((c <- getThis ;;
                                regEx <- lift (generateFilterRegExp c) ;;
                                forEachM (updateDiag regEx) diags) w)))).
  { unfold bind, getThis, lift.
    destruct (generateFilterRegExp (this w)) as [re|e]; [|assumption].
    apply (forEachM_preserves (fun w => keyedByIdentity (this w))); [|assumption].
    intros d w' Hw'. now apply updateDiag_keyed. }
  destruct remove as [[|]|]; assumption.
Qed.

Lemma onResultsListMessage_rows msg w :
  resultsListRows (this (snd (onResultsListMessage msg w))) = resultsListRows (this w).
Proof.
  assert (V0 : sameView (this w) (this w)) by (unfold sameView; auto).
  destruct msg as [col|raw| |col|id|col]; [reflexivity| | |reflexivity| |].
  - rewrite filter_apply_unfold.
    destruct (String.eqb (trim raw) (filterText (this w))); [reflexivity|].
    now destruct (@refilter_effect _ w (setFilterText (trim raw) (this w)) eq_refl V0).
  - rewrite filter_case_toggled_unfold.
    now destruct (@refilter_effect _ w
                    (setFilterCaseMatch (negb (filterCaseMatch (this w))) (this w)) eq_refl V0).
  - simpl. destruct (getResultInfo w _ _) as [d|]; [|reflexivity].
    destruct (ResultInfo.assignedLocation _); reflexivity.
  - simpl. destruct (resultsListSortBy (sarifConfig w)); reflexivity.
Qed.

Lemma onSettingsChanged_rows event w :
  resultsListRows (this (snd (onSettingsChanged event w))) = resultsListRows (this w).
Proof.
  destruct event as [[|]|]; [|reflexivity|]; simpl; now destruct (checks_frame w).
Qed.

Lemma reachable_keyed w : reachable w -> keyedByIdentity (this w).
Proof.
  induction 1.
  - unfold construct, bind, modifyThis at 1.
    unfold keyedByIdentity. rewrite onSettingsChanged_rows. intros id row [].
  - now apply updateResultsListData_keyed.
  - unfold keyedByIdentity. now rewrite onResultsListMessage_rows.
  - unfold keyedByIdentity. now rewrite onSettingsChanged_rows.
  - now rewrite postDataToExplorer_this.
  - assumption.
Qed.

(** X14: in every reachable world the filtered list names stored rows only
    (an id never outlives its row), and every row of the table was made by
    createResultsListRow and is stored under the id built from its own run
    id and result id. *)
Theorem table_is_keyed_by_identity (w : World) :
  reachable w ->
  (forall id, In id (postFilterListRows (this w)) ->
     exists row, mapGet String.eqb (resultsListRows (this w)) id = Some row)
  /\ (forall id row, mapGet String.eqb (resultsListRows (this w)) id = Some row ->
        created row /\ id = ownId row).
Proof.
  intros Hw. split.
  - intros id Hin. apply In_keys_mapGet; [apply String.eqb_spec|].
    now apply (inv_stored (reachable_Inv Hw)).
  - intros id row Hget. apply (reachable_keyed Hw).
    eapply mapGet_entry; [apply String.eqb_spec|exact Hget].
Qed.

(** X15: the id of a row tells its result apart: two diagnostics get the
    same id only when they have the same run id and the same result id, so
    the update of one result never replaces the row of another. *)
Theorem row_ids_are_injective (d d' : SarifViewerDiagnostic) :
  (diagId d = diagId d'
   -> ResultInfo.runId (resultInfo d) = ResultInfo.runId (resultInfo d')
      /\ ResultInfo.id (resultInfo d) = ResultInfo.id (resultInfo d'))
  /\ (forall w remove,
        (ResultInfo.runId (resultInfo d) <> ResultInfo.runId (resultInfo d')
         \/ ResultInfo.id (resultInfo d) <> ResultInfo.id (resultInfo d')) ->
        mapGet String.eqb
          (resultsListRows (this (snd (updateResultsListData [d] remove w)))) (diagId d')
        = mapGet String.eqb (resultsListRows (this w)) (diagId d')).
Proof.
  assert (Hinj : diagId d = diagId d'
                 -> ResultInfo.runId (resultInfo d) = ResultInfo.runId (resultInfo d')
                    /\ ResultInfo.id (resultInfo d) = ResultInfo.id (resultInfo d'))
    by apply rowIdOf_inj.
  split; [exact Hinj|].
  intros w remove Hdiff.
  assert (Hne : diagId d' <> diagId d) by (intros E; symmetry in E; apply Hinj in E; tauto).
  destruct remove as [[|]|].
  - rewrite remove_one_effect. simpl.
    destruct (removeDiag_table d (this w)) as [-> _].
    apply mapGet_mapDelete_other; [apply String.eqb_spec|exact Hne].
  - rewrite update_one_effect by discriminate.
    destruct (generateFilterRegExp (this w)); [|reflexivity].
    destruct (createResultsListRow w (resultInfo d)); [|reflexivity].
    simpl. destruct (upserted_fields (this w) (diagId d) a0 a) as [-> _].
    apply mapGet_mapSet_other; [apply String.eqb_spec|exact Hne].
  - rewrite update_one_effect by discriminate.
    destruct (generateFilterRegExp (this w)); [|reflexivity].
    destruct (createResultsListRow w (resultInfo d)); [|reflexivity].
    simpl. destruct (upserted_fields (this w) (diagId d) a0 a) as [-> _].
    apply mapGet_mapSet_other; [apply String.eqb_spec|exact Hne].
Qed.

End Identity.

(** ** Recomputing the filtered list *)

Section Refilter.
Context {runtime : JsRuntime} {enums : SarifEnums}.

(** The two steps every filter message ends with, when the filter
    compiles. *)
Lemma refilter_Normal w regEx :
  generateFilterRegExp (this w) = Normal regEx ->
  let c' := setPostFilterListRows (passing (this w) regEx) (this w) in
  (updateFilteredRowsList ;;; postDataToExplorer) w
  = match getResultData c' with
    | Normal data =>
        (Normal tt, setExplorerData (explorerData w ++ [data]) (setThis c' w))
    | Throw e => (Throw e, setThis c' w)
    end.
Proof.
  intros Hre. cbv zeta. unfold bind.
  rewrite (updateFilteredRowsList_Normal _ Hre).
  pose proof (postDataToExplorer_effect
                (setThis (setPostFilterListRows (passing (this w) regEx) (this w)) w)) as H.
  simpl in H. destruct (getResultData _); rewrite H; reflexivity.
Qed.

Lemma In_passing_iff c regEx id :
  In id (passing c regEx)
  <-> exists row, In (id, row) (resultsListRows c)
                  /\ (filterText c = "" \/ applyFilterToRow row regEx = true).
Proof.
  unfold passing. rewrite in_map_iff. split.
  - intros [[k row] [Hk Hin]]. simpl in Hk. subst k.
    apply filter_In in Hin. destruct Hin as [Hin Hp]. exists row. split; [exact Hin|].
    simpl in Hp. apply orb_true_iff in Hp. destruct Hp as [Hp|Hp]; [left|now right].
    now apply String.eqb_eq.
  - intros [row [Hin Hp]]. exists (id, row). split; [reflexivity|].
    apply filter_In. split; [exact Hin|]. simpl. apply orb_true_iff.
    destruct Hp as [Hp|Hp]; [left|now right]. now apply String.eqb_eq.
Qed.

(** X16: a filter-apply message with a new text that compiles replaces
    the filtered list by the ids of exactly those stored rows that pass the
    new filter, in the order of the table, whatever the list held before.
    The message returns and hands one data set to the explorer when the
    data set can be built, and the groups of that data set hold as many
    rows as pass; when it cannot be built the message raises with the
    filter and the list already renewed. *)
Theorem filter_apply_lists_passing_rows (w : World) (raw : string) (regEx : RegExp) :
  trim raw <> filterText (this w) ->
  generateFilterRegExp (setFilterText (trim raw) (this w)) = Normal regEx ->
  let out := onResultsListMessage (ResultsListFilterApplied raw) w in
  let c' := this (snd out) in
  filterText c' = trim raw
  /\ filterCaseMatch c' = filterCaseMatch (this w)
  /\ resultsListRows c' = resultsListRows (this w)
  /\ postFilterListRows c' = passing c' regEx
  /\ (forall id, In id (postFilterListRows c')
        <-> exists row, In (id, row) (resultsListRows (this w))
                        /\ (trim raw = "" \/ applyFilterToRow row regEx = true))
  /\ (forall data, getResultData c' = Normal data ->
        fst out = Normal tt
        /\ explorerData (snd out) = explorerData w ++ [data]
        /\ totalRows (ResultsListData.groups data) = List.length (passing c' regEx))
  /\ (forall e, getResultData c' = Throw e ->
        fst out = Throw e /\ explorerData (snd out) = explorerData w).
Proof.
  intros Hne Hre. cbv zeta. rewrite filter_apply_unfold.
  destruct (String.eqb_spec (trim raw) (filterText (this w))); [contradiction|].
  set (w1 := setThis (setFilterText (trim raw) (this w)) w).
  rewrite (@refilter_Normal w1 regEx Hre).
  set (c' := setPostFilterListRows (passing (this w1) regEx) (this w1)).
  assert (Hlist : postFilterListRows c' = passing c' regEx) by reflexivity.
  assert (Hthis : forall r x, this (snd (A := Completion unit) (r, setExplorerData x (setThis c' w1))) = c')
    by reflexivity.
  assert (Hin : forall id, In id (passing c' regEx)
            <-> exists row, In (id, row) (resultsListRows (this w))
                            /\ (trim raw = "" \/ applyFilterToRow row regEx = true))
    by (intros id; apply (In_passing_iff c' regEx)).
  destruct (getResultData c') as [data|e] eqn:Hd; simpl.
  - split; [reflexivity|]. split; [reflexivity|]. split; [reflexivity|].
    split; [reflexivity|]. split; [exact Hin|]. split.
    + intros data0 H. change (getResultData c' = Normal data0) in H.
      rewrite Hd in H. injection H as H. subst data0.
      split; [reflexivity|]. split; [reflexivity|].
      now destruct (getResultData_counts _ Hd).
    + intros e0 H. change (getResultData c' = Throw e0) in H.
      rewrite Hd in H. discriminate H.
  - split; [reflexivity|]. split; [reflexivity|]. split; [reflexivity|].
    split; [reflexivity|]. split; [exact Hin|]. split.
    + intros data0 H. change (getResultData c' = Normal data0) in H.
      rewrite Hd in H. discriminate H.
    + intros e0 H. change (getResultData c' = Throw e0) in H.
      rewrite Hd in H. injection H as H. subst e0. split; reflexivity.
Qed.

(** X17: a filter-case-toggle message flips the case setting and keeps the
    filter text.  Two toggles in a row bring the filter settings back, and
    when the filter compiles under them the filtered list is then exactly
    the list of the stored rows that pass: the second toggle recomputes the
    list from the table even if the first one raised. *)
Theorem case_toggle_twice_refilters (w : World) (regEx : RegExp) :
  let once := snd (onResultsListMessage ResultsListFilterCaseToggled w) in
  let twice := snd (onResultsListMessage ResultsListFilterCaseToggled once) in
  filterCaseMatch (this once) = negb (filterCaseMatch (this w))
  /\ filterText (this once) = filterText (this w)
  /\ filterCaseMatch (this twice) = filterCaseMatch (this w)
  /\ filterText (this twice) = filterText (this w)
  /\ (generateFilterRegExp (this w) = Normal regEx ->
      postFilterListRows (this twice) = passing (this w) regEx).
Proof.
  cbv zeta.
  assert (Hstep : forall w0,
            let w1 := snd (onResultsListMessage ResultsListFilterCaseToggled w0) in
            filterCaseMatch (this w1) = negb (filterCaseMatch (this w0))
            /\ filterText (this w1) = filterText (this w0)
            /\ resultsListRows (this w1) = resultsListRows (this w0)).
  { intros w0. cbv zeta. rewrite filter_case_toggled_unfold.
    assert (V0 : sameView (this w0) (this w0)) by (unfold sameView; auto).
    destruct (@refilter_effect _ w0
                (setFilterCaseMatch (negb (filterCaseMatch (this w0))) (this w0)) eq_refl V0)
      as [H1 [_ [[H3 H4] _]]].
    auto. }
  destruct (Hstep w) as [H1 [H2 H3]].
  destruct (Hstep (snd (onResultsListMessage ResultsListFilterCaseToggled w)))
    as [H4 [H5 H6]].
  split; [exact H1|]. split; [exact H2|].
  split; [rewrite H4, H1; apply Bool.negb_involutive|].
  split; [congruence|].
  intros Hre.
  set (once := snd (onResultsListMessage ResultsListFilterCaseToggled w)) in *.
  rewrite filter_case_toggled_unfold.
  set (w1 := setThis (setFilterCaseMatch (negb (filterCaseMatch (this once))) (this once)) once).
  assert (Hre1 : generateFilterRegExp (this w1) = Normal regEx).
  { rewrite generateFilterRegExp_eq. simpl. rewrite H1, Bool.negb_involutive, H2.
    rewrite <- generateFilterRegExp_eq. exact Hre. }
  rewrite (@refilter_Normal w1 regEx Hre1).
  assert (Hp : passing (this w1) regEx = passing (this w) regEx).
  { unfold passing. simpl. rewrite H2, H3. reflexivity. }
  destruct (getResultData _); simpl; exact Hp.
Qed.

(** X18: clearing the filter lists everything.  A filter-apply message
    whose text is empty or white space only, sent while a filter text is
    set, never fails to compile, and leaves the filtered list equal to the
    keys of the row table in table order, so that every stored row is
    listed again. *)
Theorem clearing_the_filter_lists_every_row (w : World) (raw : string) :
  trim raw = "" ->
  filterText (this w) <> "" ->
  let c' := this (snd (onResultsListMessage (ResultsListFilterApplied raw) w)) in
  filterText c' = ""
  /\ resultsListRows c' = resultsListRows (this w)
  /\ postFilterListRows c' = mapKeys (resultsListRows (this w)).
Proof.
  intros Hempty Hset. cbv zeta. rewrite filter_apply_unfold, Hempty.
  destruct (String.eqb_spec "" (filterText (this w))) as [E|_]; [now symmetry in E|].
  set (w1 := setThis (setFilterText "" (this w)) w).
  destruct (newRegExp_undefined (flags := filterFlags (filterCaseMatch (this w1))))
    as [regEx [Hre _]].
  { unfold filterFlags. destruct (filterCaseMatch (this w1)); auto. }
  assert (Hre1 : generateFilterRegExp (this w1) = Normal regEx)
    by (rewrite generateFilterRegExp_eq; exact Hre).
  rewrite (@refilter_Normal w1 regEx Hre1).
  assert (Hall : passing (this w1) regEx = mapKeys (resultsListRows (this w))).
  { unfold passing, mapKeys. simpl. f_equal.
    induction (resultsListRows (this w)) as [|x t IH]; simpl; [reflexivity|].
    now rewrite IH. }
  destruct (getResultData _); simpl; auto.
Qed.

End Refilter.

(** ** Order of the groups and of the rows *)

Section SortedFacts.
Variable A : Type.
Variable comparefn : A -> A -> Completion JsNum.
Variable P : A -> Prop.
Variable le : A -> A -> Prop.
Hypothesis le_trans : forall x y z, le x y -> le y z -> le x z.
Hypothesis le_total : forall x y, le x y \/ le y x.
Hypothesis comparefn_le :
  forall x y n, P x -> P y -> comparefn x y = Normal n ->
  if isNegative n then ~ le y x else le y x.

Lemma StronglySorted_app_inv (R : A -> A -> Prop) l1 l2 :
  StronglySorted R (l1 ++ l2) ->
  StronglySorted R l1 /\ StronglySorted R l2
  /\ forall a b, In a l1 -> In b l2 -> R a b.
Proof.
  induction l1 as [|x t IH]; simpl; intros H.
  - split; [constructor|]. split; [exact H|]. intros a b [].
  - inversion H as [|? ? Hs Hall]; subst.
    destruct (IH Hs) as [H1 [H2 H3]].
    rewrite Forall_app in Hall. destruct Hall as [Ha1 Ha2].
    split; [now constructor|]. split; [exact H2|].
    intros a b [<-|Ha] Hb; [|now apply H3].
    rewrite Forall_forall in Ha2. now apply Ha2.
Qed.

Lemma StronglySorted_app (R : A -> A -> Prop) l1 l2 :
  StronglySorted R l1 -> StronglySorted R l2 ->
  (forall a b, In a l1 -> In b l2 -> R a b) ->
  StronglySorted R (l1 ++ l2).
Proof.
  induction l1 as [|x t IH]; simpl; intros H1 H2 H3; [exact H2|].
  inversion H1 as [|? ? Hs Hall]; subst.
  constructor.
  - apply IH; auto.
  - rewrite Forall_app. split; [exact Hall|].
    apply Forall_forall. intros b Hb. apply H3; auto.
Qed.

Lemma StronglySorted_rev (R : A -> A -> Prop) l :
  StronglySorted R l -> StronglySorted (fun a b => R b a) (rev l).
Proof.
  induction 1 as [|x t Hs IH Hall]; simpl; [constructor|].
  apply StronglySorted_app; [exact IH|repeat constructor|].
  intros a b Ha [<-|[]]. apply in_rev in Ha.
  rewrite Forall_forall in Hall. now apply Hall.
Qed.

(** Where binary insertion puts the pivot: after every element that is not
    above it, before every element that is. *)
Lemma binaryInsert_place steps x l l' :
  P x -> Forall P l -> StronglySorted le l -> (List.length l <= steps)%nat ->
  binaryInsert comparefn steps x l = Normal l' ->
  exists l1 l2,
    l = l1 ++ l2 /\ l' = l1 ++ x :: l2
    /\ Forall (fun a => le a x) l1 /\ Forall (fun b => ~ le b x) l2.
Proof.
  intros Px. revert l l'. induction steps as [|steps IH]; intros l l' HP Hs Hlen.
  - destruct l; [|simpl in Hlen; lia]. simpl. intros [= <-].
    exists [], []. repeat split; constructor.
  - simpl.
    pose proof (firstn_skipn (Nat.div2 (List.length l)) l) as Hl.
    assert (Hmid : (List.length (firstn (Nat.div2 (List.length l)) l) <= steps)%nat).
    { rewrite length_firstn. pose proof (Nat.div2_decr (List.length l) steps) as Hd.
      revert Hd. generalize (Nat.div2 (List.length l)). intros; lia. }
    destruct (skipn (Nat.div2 (List.length l)) l) as [|y above] eqn:Hsk.
    + assert (l = []) as ->.
      { destruct l as [|a t]; [reflexivity|].
        apply (f_equal (@List.length A)) in Hsk. rewrite length_skipn in Hsk.
        cbn [List.length] in Hsk.
        pose proof (Nat.div2_decr (S (List.length t)) (List.length t)) as Hd.
        revert Hsk Hd. generalize (Nat.div2 (S (List.length t))). intros; lia. }
      intros [= <-]. exists [], []. repeat split; constructor.
    + assert (Habove : (List.length above <= steps)%nat).
      { apply (f_equal (@List.length A)) in Hsk. rewrite length_skipn in Hsk.
        cbn [List.length] in Hsk. revert Hsk.
        generalize (Nat.div2 (List.length l)). intros; lia. }
      remember (firstn (Nat.div2 (List.length l)) l) as below eqn:Hbelow.
      rewrite <- Hl in HP, Hs.
      apply Forall_app in HP. destruct HP as [HPb HPa].
      apply Forall_cons_iff in HPa. destruct HPa as [Py HPab].
      destruct (StronglySorted_app_inv _ _ Hs) as [Hsb [Hsa Hcross]].
      apply StronglySorted_inv in Hsa. destruct Hsa as [Hsab Hy].
      destruct (comparefn x y) as [n|e] eqn:Hc; simpl; [|discriminate].
      pose proof (comparefn_le Px Py Hc) as Hle.
      destruct (isNegative n).
      * destruct (binaryInsert comparefn steps x below) as [below'|e] eqn:Hi;
          simpl; [|discriminate].
        intros [= <-].
        destruct (IH _ _ HPb Hsb Hmid Hi) as [l1 [l2 [E1 [E2 [H1 H2]]]]].
        exists l1, (l2 ++ y :: above).
        rewrite <- Hl, E1, E2, <- !app_assoc. simpl.
        repeat split; [exact H1|].
        apply Forall_app. split; [exact H2|].
        constructor; [exact Hle|].
        eapply Forall_impl; [|exact Hy]. intros b Hb Hbx. apply Hle. eauto.
      * destruct (binaryInsert comparefn steps x above) as [above'|e] eqn:Hi;
          simpl; [|discriminate].
        intros [= <-].
        destruct (IH _ _ HPab Hsab Habove Hi) as [l1 [l2 [E1 [E2 [H1 H2]]]]].
        exists (below ++ y :: l1), l2.
        rewrite <- Hl, E1, E2, <- !app_assoc. simpl.
        repeat split; [|exact H2].
        apply Forall_app. split; [|constructor; assumption].
        apply Forall_forall. intros a Ha.
        apply le_trans with y; [|exact Hle].
        apply Hcross; [exact Ha|now left].
Qed.

Lemma binaryInsert_sorted steps x l l' :
  P x -> Forall P l -> StronglySorted le l -> (List.length l <= steps)%nat ->
  binaryInsert comparefn steps x l = Normal l' -> StronglySorted le l'.
Proof.
  intros Px HP Hs Hlen Hi.
  destruct (binaryInsert_place Px HP Hs Hlen Hi) as [l1 [l2 [-> [-> [H1 H2]]]]].
  destruct (StronglySorted_app_inv _ _ Hs) as [Hs1 [Hs2 Hcross]].
  apply StronglySorted_app; [exact Hs1| |].
  - constructor; [exact Hs2|].
    eapply Forall_impl; [|exact H2]. intros b Hb. cbv beta in Hb.
    destruct (le_total x b) as [H|H]; [exact H|contradiction].
  - rewrite Forall_forall in H1, H2.
    intros a b Ha [<-|Hb]; [now apply H1|now apply Hcross].
Qed.

Lemma runOrder_trans descending x y z :
  runOrder le descending x y -> runOrder le descending y z -> runOrder le descending x z.
Proof.
  unfold runOrder. destruct descending; [|apply le_trans].
  intros Hxy Hyz Hxz. destruct (le_total x y) as [H|H]; [tauto|]. eauto.
Qed.

Lemma runRest_sorted descending previous l run rest :
  Forall P (previous :: l) ->
  runRest comparefn descending previous l = Normal (run, rest) ->
  StronglySorted (runOrder le descending) (previous :: run).
Proof.
  revert previous run rest. induction l as [|current t IH]; simpl;
    intros previous run rest HP.
  - intros [= <- <-]. repeat constructor.
  - inversion HP as [|? ? Pp HPl]; subst. inversion HPl as [|? ? Pc HPt]; subst.
    destruct (comparefn current previous) as [n|e] eqn:Hc; simpl; [|discriminate].
    pose proof (comparefn_le Pc Pp Hc) as Hle.
    destruct descending; simpl.
    + destruct (isNegative n); simpl.
      * destruct (runRest comparefn true current t) as [[run' rest']|e] eqn:Hr;
          simpl; [|discriminate].
        intros [= <- <-]. specialize (IH _ _ _ HPl Hr).
        constructor; [exact IH|].
        inversion IH as [|? ? _ Hall]; subst.
        constructor; [exact Hle|].
        eapply Forall_impl; [|exact Hall]. intros b Hb.
        eapply (@runOrder_trans true); [exact Hle|exact Hb].
      * intros [= <- <-]. repeat constructor.
    + destruct (isNegative n); simpl.
      * intros [= <- <-]. repeat constructor.
      * destruct (runRest comparefn false current t) as [[run' rest']|e] eqn:Hr;
          simpl; [|discriminate].
        intros [= <- <-]. specialize (IH _ _ _ HPl Hr).
        constructor; [exact IH|].
        inversion IH as [|? ? _ Hall]; subst.
        constructor; [exact Hle|].
        eapply Forall_impl; [|exact Hall]. intros b Hb.
        eapply (@runOrder_trans false); [exact Hle|exact Hb].
Qed.

Lemma StronglySorted_strict m :
  StronglySorted (fun a b => ~ le b a) m -> StronglySorted le m.
Proof.
  induction 1 as [|a t Hs IH Hall]; constructor; [exact IH|].
  eapply Forall_impl; [|exact Hall]. intros b Hb. cbv beta in Hb.
  destruct (le_total a b) as [H|H]; [exact H|contradiction].
Qed.

(** What CountAndMakeRun leaves: the array split into the run as it stood
    and the rest, the run in one of the two orders, and put in ascending
    order. *)
Lemma countAndMakeRun_run first second l run rest :
  Forall P (first :: second :: l) ->
  countAndMakeRun comparefn first second l = Normal (run, rest) ->
  exists descending taken,
    first :: second :: l = taken ++ rest
    /\ StronglySorted (runOrder le descending) taken
    /\ run = (if descending then rev taken else taken)
    /\ StronglySorted le run.
Proof.
  intros HP. unfold countAndMakeRun.
  inversion HP as [|? ? Pf HPl]; subst. inversion HPl as [|? ? Ps HPt]; subst.
  destruct (comparefn second first) as [n|e] eqn:Hc; simpl; [|discriminate].
  pose proof (comparefn_le Ps Pf Hc) as Hle.
  destruct (runRest comparefn (isNegative n) second l) as [[run' rest']|e] eqn:Hr;
    simpl; [|discriminate].
  intros [= <- <-].
  pose proof (runRest_app _ _ _ _ Hr) as ->.
  pose proof (@runRest_sorted _ _ _ _ _ HPl Hr) as Hs.
  assert (Hchain : StronglySorted (runOrder le (isNegative n)) (first :: second :: run')).
  { constructor; [exact Hs|].
    assert (H1 : runOrder le (isNegative n) first second).
    { unfold runOrder. destruct (isNegative n); exact Hle. }
    constructor; [exact H1|].
    inversion Hs as [|? ? _ Hall]; subst.
    eapply Forall_impl; [|exact Hall]. intros b Hb.
    eapply runOrder_trans; [exact H1|exact Hb]. }
  exists (isNegative n), (first :: second :: run').
  split; [reflexivity|]. split; [exact Hchain|]. split; [reflexivity|].
  destruct (isNegative n).
  - apply StronglySorted_rev in Hchain. now apply StronglySorted_strict.
  - exact Hchain.
Qed.

Lemma insertRest_sorted work rest l' :
  Forall P (work ++ rest) -> StronglySorted le work ->
  insertRest comparefn work rest = Normal l' -> StronglySorted le l'.
Proof.
  revert work l'. induction rest as [|pivot rest' IH]; simpl; intros work l' HP Hs.
  - now intros [= <-].
  - destruct (binaryInsert comparefn (List.length work) pivot work) as [work'|e] eqn:Hi;
      simpl; [|discriminate].
    apply Forall_app in HP. destruct HP as [HPw HPr].
    inversion HPr as [|? ? Pp HPr']; subst.
    apply IH.
    + apply Forall_app. split; [|exact HPr'].
      apply binaryInsert_Permutation in Hi.
      apply (Permutation_Forall Hi). now constructor.
    + exact (binaryInsert_sorted Pp HPw Hs (le_n _) Hi).
Qed.

Lemma arraySort_sorted l l' :
  Forall P l -> arraySort comparefn l = Normal l' -> StronglySorted le l'.
Proof.
  intros HP. destruct l as [|first [|second t]].
  - intros [= <-]. constructor.
  - intros [= <-]. repeat constructor.
  - cbn [arraySort].
    destruct (countAndMakeRun comparefn first second t) as [[run rest]|e] eqn:Hr;
      simpl; [|discriminate].
    destruct (@countAndMakeRun_run _ _ _ _ _ HP Hr) as [d [taken [_ [_ [_ Hs]]]]].
    apply insertRest_sorted; [|exact Hs].
    apply countAndMakeRun_Permutation in Hr. apply (Permutation_Forall Hr HP).
Qed.

Variable p : A -> bool.
Hypothesis same_class :
  forall x y, P x -> P y -> p x = true -> p y = true -> le x y.

Lemma filter_none_apart x l :
  P x -> Forall P l -> p x = true ->
  Forall (fun b => ~ le b x \/ ~ le x b) l -> filter p l = [].
Proof.
  intros Px HP Hx Hall. induction l as [|b t IH]; simpl; [reflexivity|].
  apply Forall_cons_iff in HP, Hall. destruct HP as [Pb HPt], Hall as [Hb Ht].
  destruct (p b) eqn:Eb; [|now apply IH].
  destruct Hb as [Hb|Hb]; destruct Hb; now apply same_class.
Qed.

Lemma binaryInsert_stable steps x l l' :
  P x -> Forall P l -> StronglySorted le l -> (List.length l <= steps)%nat ->
  binaryInsert comparefn steps x l = Normal l' ->
  filter p l' = filter p (l ++ [x]).
Proof.
  intros Px HP Hs Hlen Hi.
  destruct (binaryInsert_place Px HP Hs Hlen Hi) as [l1 [l2 [-> [-> [H1 H2]]]]].
  apply Forall_app in HP. destruct HP as [_ HP2].
  rewrite !filter_app. simpl.
  destruct (p x) eqn:Ex; [|now rewrite app_nil_r].
  rewrite (filter_none_apart Px HP2 Ex); [now rewrite app_nil_r|].
  eapply Forall_impl; [|exact H2]. intros b Hb. now left.
Qed.

(** A run that descends strictly holds at most one element of a class, so
    reversing it moves none past another. *)
Lemma filter_rev_descending l :
  Forall P l -> StronglySorted (runOrder le true) l -> filter p (rev l) = filter p l.
Proof.
  intros HP Hs.
  assert (Hshort : (List.length (filter p l) <= 1)%nat).
  { induction Hs as [|a t Hs IH Hall]; simpl; [lia|].
    inversion HP as [|? ? Pa HPt]; subst.
    destruct (p a) eqn:Ea; [|now apply IH].
    rewrite (filter_none_apart Pa HPt Ea); [simpl; lia|].
    eapply Forall_impl; [|exact Hall]. intros b Hb. now right. }
  assert (Hrev : forall m : list A, filter p (rev m) = rev (filter p m)).
  { induction m as [|a t IH]; simpl; [reflexivity|].
    rewrite filter_app, IH. simpl. destruct (p a); simpl; [reflexivity|apply app_nil_r]. }
  rewrite Hrev.
  destruct (filter p l) as [|a [|b t]]; simpl in *; try reflexivity. lia.
Qed.

Lemma insertRest_stable work rest l' :
  Forall P (work ++ rest) -> StronglySorted le work ->
  insertRest comparefn work rest = Normal l' ->
  filter p l' = filter p (work ++ rest).
Proof.
  revert work l'. induction rest as [|pivot rest' IH]; simpl; intros work l' HP Hs.
  - intros [= <-]. now rewrite app_nil_r.
  - destruct (binaryInsert comparefn (List.length work) pivot work) as [work'|e] eqn:Hi;
      simpl; [|discriminate].
    apply Forall_app in HP. destruct HP as [HPw HPr].
    inversion HPr as [|? ? Pp HPr']; subst.
    intros H. apply IH in H.
    + rewrite H, filter_app.
      rewrite (binaryInsert_stable Pp HPw Hs (le_n _) Hi).
      rewrite <- filter_app, <- app_assoc. reflexivity.
    + apply Forall_app. split; [|exact HPr'].
      apply binaryInsert_Permutation in Hi.
      apply (Permutation_Forall Hi). now constructor.
    + exact (binaryInsert_sorted Pp HPw Hs (le_n _) Hi).
Qed.

Lemma arraySort_stable l l' :
  Forall P l -> arraySort comparefn l = Normal l' -> filter p l' = filter p l.
Proof.
  intros HP. destruct l as [|first [|second t]].
  - now intros [= <-].
  - now intros [= <-].
  - cbn [arraySort].
    destruct (countAndMakeRun comparefn first second t) as [[run rest]|e] eqn:Hr;
      unfold cbind; cbn [fst snd]; [|discriminate].
    destruct (@countAndMakeRun_run _ _ _ _ _ HP Hr) as [d [taken [Ht [Hd [Hrun Hs]]]]].
    intros H. apply insertRest_stable in H; [|
      apply countAndMakeRun_Permutation in Hr; apply (Permutation_Forall Hr HP)|exact Hs].
    rewrite H, Ht, !filter_app. f_equal. subst run.
    destruct d; [|reflexivity].
    apply filter_rev_descending; [|exact Hd].
    rewrite Ht in HP. now apply Forall_app in HP.
Qed.

End SortedFacts.

Section Order.
Context {runtime : JsRuntime} {enums : SarifEnums}.

Lemma sortGroupRows_sortedFrom sortBy gs gs' :
  sortGroupRows sortBy gs = Normal gs' -> Forall2 (sortedFrom sortBy) gs gs'.
Proof.
  revert gs'. induction gs as [|g t IH]; simpl; intros gs'.
  - intros [= <-]. constructor.
  - destruct (arraySort (compareRows sortBy) (ResultsListGroup.rows g)) as [rows'|e] eqn:Hs;
      simpl; [|discriminate].
    destruct (sortGroupRows sortBy t) as [t'|e]; simpl; [|discriminate].
    intros [= <-]. constructor; [|now apply IH].
    unfold sortedFrom. simpl. auto.
Qed.

(** The way from the state to a returned data set, step by step. *)
Lemma getResultData_steps c data :
  getResultData c = Normal data ->
  exists gm gs,
    groupRows c = Normal (mapValues gm)
    /\ Grouped c (postFilterListRows c) gm
    /\ arraySort compareGroups (mapValues gm) = Normal gs
    /\ Forall2 (sortedFrom (sortBy c)) gs (ResultsListData.groups data)
    /\ data = dataWith c (ResultsListData.groups data).
Proof.
  unfold getResultData.
  destruct (groupRows c) as [gs0|e] eqn:Hg; simpl; [|discriminate].
  destruct (arraySort compareGroups gs0) as [gs1|e] eqn:Hs; simpl; [|discriminate].
  destruct (sortGroupRows (sortBy c) gs1) as [gs2|e] eqn:Hr; simpl; [|discriminate].
  intros [= <-]. simpl.
  destruct (groupRows_spec _ Hg) as [gm [-> HG]].
  exists gm, gs1.
  split; [reflexivity|]. split; [exact HG|]. split; [exact Hs|].
  split; [now apply sortGroupRows_sortedFrom|reflexivity].
Qed.

Lemma sortedFrom_sizes sortBy gs gs' :
  Forall2 (sortedFrom sortBy) gs gs' ->
  Forall2 (fun g g' => List.length (ResultsListGroup.rows g')
                       = List.length (ResultsListGroup.rows g)
                       /\ labelOf g' = labelOf g) gs gs'.
Proof.
  induction 1 as [|g g' t t' [Hs [Ht Hp]] _ IH]; constructor; [|exact IH].
  apply arraySort_Permutation, Permutation_length in Hs.
  unfold labelOf. split; [now symmetry|congruence].
Qed.

(** X19: two edges of getResultData.  With an empty filtered list it
    returns a data set without groups whatever the group-by and the sort-by
    are, missing or unknown ones included.  With a filtered list that is
    not empty and a group-by that names no property of a row it raises. *)
Theorem getResultData_empty_list_and_unknown_group (c : Controller) :
  (postFilterListRows c = [] -> getResultData c = Normal (dataWith c []))
  /\ (postFilterListRows c <> [] -> namesRowProperty (keyOf (groupBy c)) = false ->
      exists e, getResultData c = Throw e).
Proof.
  split.
  - intros H. unfold getResultData, groupRows. rewrite H. reflexivity.
  - intros Hne Hn. unfold getResultData, groupRows.
    destruct (postFilterListRows c) as [|id t]; [congruence|].
    simpl. unfold addToGroups at 1.
    destruct (mapGet String.eqb (resultsListRows c) id) as [row|]; [|simpl; eauto].
    rewrite (rowGet_not_names row _ Hn). simpl. eauto.
Qed.

(** X20: in a reachable world whose group-by and sort column name
    properties of a row, posting never raises: postDataToExplorer hands
    exactly one data set to the explorer and changes nothing else.  The
    data set carries the columns, the filter and the view settings of the
    controller, reports the size of the row table as result count, and its
    groups hold as many rows as the filtered list has ids. *)
Theorem posting_returns_in_reachable_worlds (w : World) (sb : ResultsListSortBy) :
  reachable w ->
  namesRowProperty (keyOf (groupBy (this w))) = true ->
  sortBy (this w) = Some sb ->
  namesRowProperty (keyOf (column sb)) = true ->
  exists data,
    postDataToExplorer w = (Normal tt, setExplorerData (explorerData w ++ [data]) w)
    /\ data = dataWith (this w) (ResultsListData.groups data)
    /\ ResultsListData.resultCount data = mapSize (resultsListRows (this w))
    /\ totalRows (ResultsListData.groups data) = List.length (postFilterListRows (this w)).
Proof.
  intros Hw Hg Hs Hc.
  destruct (getResultData_total (reachable_Inv Hw) Hg Hs Hc) as [data Hd].
  exists data. pose proof (postDataToExplorer_effect w) as He. rewrite Hd in He.
  split; [exact He|].
  destruct (getResultData_steps _ Hd) as [gm [gs [_ [_ [_ [_ Hdata]]]]]].
  split; [exact Hdata|].
  apply getResultData_counts. exact Hd.
Qed.

Lemma filter_Forall2_labels n gs gs' :
  Forall2 (fun g g' => List.length (ResultsListGroup.rows g')
                       = List.length (ResultsListGroup.rows g)
                       /\ labelOf g' = labelOf g) gs gs' ->
  map labelOf (filter (sizeIs n) gs') = map labelOf (filter (sizeIs n) gs).
Proof.
  induction 1 as [|g g' t t' [Hl Hlab] _ IH]; simpl; [reflexivity|].
  assert (E : sizeIs n g' = sizeIs n g) by (unfold sizeIs; now rewrite Hl).
  rewrite E. destruct (sizeIs n g); simpl; [rewrite Hlab|]; now rewrite IH.
Qed.

(** X21: the groups of a returned data set come largest first: no group
    has more rows than a group before it.  Groups of equal size keep the
    order in which the grouping met them. *)
Theorem groups_come_largest_first (c : Controller) (data : ResultsListData.t) :
  getResultData c = Normal data ->
  StronglySorted
    (fun a b => (List.length (ResultsListGroup.rows b)
                 <= List.length (ResultsListGroup.rows a))%nat)
    (ResultsListData.groups data)
  /\ forall n,
       map labelOf (filter (sizeIs n) (ResultsListData.groups data))
       = map labelOf (filter (sizeIs n) (groupsOf c)).
Proof.
  intros Hd.
  destruct (getResultData_steps _ Hd) as [gm [gs [Hgr [_ [Hs [Hf _]]]]]].
  apply sortedFrom_sizes in Hf.
  set (larger := fun a b : ResultsListGroup.t =>
                   (List.length (ResultsListGroup.rows b)
                    <= List.length (ResultsListGroup.rows a))%nat).
  assert (Htrans : forall x y z, larger x y -> larger y z -> larger x z).
  { unfold larger. intros; lia. }
  assert (Htotal : forall x y, larger x y \/ larger y x).
  { unfold larger. intros; lia. }
  assert (Hcmp : forall x y n, True -> True -> compareGroups x y = Normal n ->
                 if isNegative n then ~ larger y x else larger y x).
  { unfold larger. intros x y n _ _ [= <-]. simpl.
    destruct (Z.ltb_spec (Z.of_nat (List.length (ResultsListGroup.rows y))
                          - Z.of_nat (List.length (ResultsListGroup.rows x))) 0); lia. }
  assert (Hall : Forall (fun _ : ResultsListGroup.t => True) (mapValues gm)).
  { apply Forall_forall. auto. }
  assert (Hsorted : StronglySorted larger gs).
  { exact (@arraySort_sorted _ compareGroups (fun _ => True) larger
             Htrans Htotal Hcmp (mapValues gm) gs Hall Hs). }
  subst larger. split.
  - clear Hs. induction Hf as [|g g' t t' [Hl _] Hf IH]; [constructor|].
    inversion Hsorted as [|? ? Hst Hsz]; subst.
    constructor; [now apply IH|].
    rewrite Hl. clear IH Hst Hsorted.
    induction Hf as [|h h' u u' [Hl' _] Hf IH]; constructor.
    + rewrite Hl'. now inversion Hsz.
    + apply IH. now inversion Hsz.
  - intros n. rewrite (filter_Forall2_labels n Hf). f_equal.
    unfold groupsOf. rewrite Hgr.
    refine (@arraySort_stable _ compareGroups (fun _ => True) _
              Htrans Htotal Hcmp (sizeIs n) _ (mapValues gm) gs Hall Hs).
    unfold sizeIs. intros x y _ _ Hx Hy.
    apply Nat.eqb_eq in Hx, Hy. lia.
Qed.

End Order.

(** ** Order of the rows in a group, for the typed columns *)

Section RowOrder.
Context {runtime : JsRuntime} {enums : SarifEnums}.

Lemma positionLe_trans a b c : positionLe a b -> positionLe b c -> positionLe a c.
Proof. unfold positionLe. lia. Qed.

Lemma positionLe_total a b : positionLe a b \/ positionLe b a.
Proof. unfold positionLe. lia. Qed.

Lemma pairDiff_sign a b :
  if isNegative (Num (pairDiff a b)) then ~ positionLe b a else positionLe b a.
Proof.
  unfold pairDiff, positionLe. simpl.
  destruct (Z.eqb_spec (fst a - fst b) 0);
    match goal with |- context [?z <? 0] => destruct (Z.ltb_spec z 0) end; lia.
Qed.

Lemma pairDiff_same k k1 k2 :
  keyEqb k k1 = true -> keyEqb k k2 = true -> positionLe k1 k2.
Proof.
  unfold keyEqb, positionLe. intros H1 H2.
  apply andb_true_iff in H1, H2. destruct H1 as [H1 H1'], H2 as [H2 H2'].
  apply Z.eqb_eq in H1, H1', H2, H2'. lia.
Qed.

Lemma In_memberRows_entry c ids row :
  In row (memberRows c ids) -> exists id, In (id, row) (resultsListRows c).
Proof.
  unfold memberRows. rewrite in_flat_map. intros [id [_ Hin]].
  destruct (mapGet String.eqb (resultsListRows c) id) as [r|] eqn:E; [|destruct Hin].
  destruct Hin as [<-|[]]. exists id.
  eapply mapGet_entry; [apply String.eqb_spec|exact E].
Qed.

Section ByKey.
Variable key : ResultsListRow -> Z * Z.
Variable col : string.
Hypothesis compare_by_key :
  forall asc a b, created a -> created b ->
  compareRows (Some {| column := Some col; ascending := asc |}) a b
  = Normal (Num (if asc then pairDiff (key a) (key b) else pairDiff (key b) (key a))).

(** The rows of every group of a returned data set, under a column that is
    compared by [key]. *)
Lemma rows_sorted_by_key w asc data :
  reachable w ->
  sortBy (this w) = Some {| column := Some col; ascending := asc |} ->
  getResultData (this w) = Normal data ->
  forall g, In g (ResultsListData.groups data) ->
    sortedByKey key asc (ResultsListGroup.rows g)
    /\ exists k,
         Permutation (rowsWithKey (this w) k (postFilterListRows (this w)))
                     (ResultsListGroup.rows g)
         /\ tiesKeepOrder key (rowsWithKey (this w) k (postFilterListRows (this w)))
                          (ResultsListGroup.rows g).
Proof.
  intros Hw Hsb Hd g Hg.
  destruct (getResultData_steps _ Hd) as [gm [gs [_ [HG [Hs [Hf _]]]]]].
  destruct (Forall2_In_r g Hf Hg) as [g1 [Hg1 [Hsort _]]].
  apply arraySort_Permutation in Hs.
  apply (Permutation_in _ (Permutation_sym Hs)) in Hg1.
  destruct (In_mapValues_mapGet JsVal_eqb JsVal_eqb_spec gm g1 (grouped_keys HG) Hg1)
    as [k Hk].
  destruct (grouped_rows HG _ Hk) as [Hrows _].
  assert (Hcreated : Forall created (ResultsListGroup.rows g1)).
  { apply Forall_forall. intros r Hr. rewrite Hrows in Hr.
    unfold rowsWithKey in Hr. apply filter_In in Hr. destruct Hr as [Hr _].
    destruct (In_memberRows_entry _ _ _ Hr) as [id Hin].
    now destruct (reachable_keyed Hw _ _ Hin). }
  rewrite Hsb in Hsort.
  set (cmp := compareRows (Some {| column := Some col; ascending := asc |})).
  set (le := fun a b : ResultsListRow => directed asc positionLe (key a) (key b)).
  assert (Htrans : forall x y z, le x y -> le y z -> le x z).
  { unfold le, directed. intros x y z. destruct asc; intros; eapply positionLe_trans; eauto. }
  assert (Htotal : forall x y, le x y \/ le y x).
  { unfold le, directed. intros x y. destruct asc; apply positionLe_total. }
  assert (Hcmp : forall x y n, created x -> created y -> cmp x y = Normal n ->
                 if isNegative n then ~ le y x else le y x).
  { unfold cmp, le, directed. intros x y n Hx Hy Hc.
    rewrite (compare_by_key asc Hx Hy) in Hc. injection Hc as <-.
    destruct asc; apply pairDiff_sign. }
  split; [|exists k; rewrite <- Hrows; split].
  - exact (@arraySort_sorted _ cmp created le Htrans Htotal Hcmp
             (ResultsListGroup.rows g1) (ResultsListGroup.rows g) Hcreated Hsort).
  - now apply arraySort_Permutation in Hsort.
  - intros k0.
    refine (@arraySort_stable _ cmp created le Htrans Htotal Hcmp
              (fun r => keyEqb k0 (key r)) _
              (ResultsListGroup.rows g1) (ResultsListGroup.rows g) Hcreated Hsort).
    unfold le, directed. intros x y _ _ Hx Hy.
    destruct asc; eapply pairDiff_same; eauto.
Qed.

End ByKey.

Lemma created_cases row :
  created row ->
  exists w info run,
    getRunInfo w (ResultInfo.runId info) = Some run
    /\ createResultsListRow w info = Normal row.
Proof.
  intros [w [info H]]. exists w, info.
  unfold createResultsListRow in *.
  destruct (getRunInfo w (ResultInfo.runId info)) as [run|]; [|discriminate].
  exists run. auto.
Qed.

Ltac created_row Hc :=
  let w := fresh "w" in let info := fresh "info" in let run := fresh "run" in
  let Hr := fresh "Hr" in let H := fresh "H" in
  destruct (created_cases Hc) as [w [info [run [Hr H]]]];
  unfold createResultsListRow in H; rewrite Hr in H;
  destruct (nth_error (ResultInfo.locations info) 0) as [[?|]|];
  injection H as <-;
  clear Hc Hr.

Ltac created_rows a b :=
  let Ha := fresh "Ha" in let Hb := fresh "Hb" in
  intros asc a b Ha Hb; created_row Ha; created_row Hb.

Lemma compareRows_position :
  forall asc a b, created a -> created b ->
  compareRows (Some {| column := Some "resultStartPos"; ascending := asc |}) a b
  = Normal (Num (if asc then pairDiff (positionOf a) (positionOf b)
                 else pairDiff (positionOf b) (positionOf a))).
Proof.
  created_rows a b; destruct asc; unfold compareRows, pairDiff, positionOf; simpl;
    try match goal with |- context [?z =? 0] => destruct (z =? 0) end; reflexivity.
Qed.


Lemma compareRows_runId :
  forall asc a b, created a -> created b ->
  compareRows (Some {| column := Some "runId"; ascending := asc |}) a b
  = Normal (Num (if asc then pairDiff (runIdKey a) (runIdKey b)
                 else pairDiff (runIdKey b) (runIdKey a))).
Proof.
  created_rows a b; destruct asc;
    unfold compareRows, pairDiff, runIdKey, numberOf; simpl;
    try match goal with |- context [?z =? 0] => destruct (Z.eqb_spec z 0) end;
    try reflexivity; repeat f_equal; lia.
Qed.

Lemma compareRows_resultId :
  forall asc a b, created a -> created b ->
  compareRows (Some {| column := Some "resultId"; ascending := asc |}) a b
  = Normal (Num (if asc then pairDiff (resultIdKey a) (resultIdKey b)
                 else pairDiff (resultIdKey b) (resultIdKey a))).
Proof.
  created_rows a b; destruct asc;
    unfold compareRows, pairDiff, resultIdKey, numberOf; simpl;
    try match goal with |- context [?z =? 0] => destruct (Z.eqb_spec z 0) end;
    try reflexivity; repeat f_equal; lia.
Qed.

Lemma sorted_pairwise {A} (R : A -> A -> Prop) l1 a l2 b l3 :
  StronglySorted R (l1 ++ a :: l2 ++ b :: l3) -> R a b.
Proof.
  induction l1 as [|x t IH]; simpl; intros H; inversion H as [|? ? Hs Hall]; subst.
  - rewrite Forall_forall in Hall. apply Hall. apply in_or_app. right. now left.
  - now apply IH.
Qed.

(** X22: sorted by position, the rows of every group of a data set built in
    a reachable world stand by line and, within a line, by column: a row
    never stands after a row with a later position when the order is
    ascending, nor after one with an earlier position when it is
    descending.  The rows of the group are those listed rows that have the
    group's key, and rows at the same position keep the order of the
    filtered list in both directions. *)
Theorem rows_sorted_by_position (w : World) (asc : bool) (data : ResultsListData.t) :
  reachable w ->
  sortBy (this w) = Some {| column := Some "resultStartPos"; ascending := asc |} ->
  getResultData (this w) = Normal data ->
  forall g, In g (ResultsListData.groups data) ->
    (forall l1 a l2 b l3, ResultsListGroup.rows g = l1 ++ a :: l2 ++ b :: l3 ->
       if asc then positionLe (positionOf a) (positionOf b)
       else positionLe (positionOf b) (positionOf a))
    /\ exists k,
         Permutation (rowsWithKey (this w) k (postFilterListRows (this w)))
                     (ResultsListGroup.rows g)
         /\ tiesKeepOrder positionOf
              (rowsWithKey (this w) k (postFilterListRows (this w)))
              (ResultsListGroup.rows g).
Proof.
  intros Hw Hsb Hd g Hg.
  destruct (rows_sorted_by_key positionOf compareRows_position Hw Hsb Hd g Hg) as [Hsorted Hties].
  split; [|exact Hties].
  intros l1 a l2 b l3 E. unfold sortedByKey in Hsorted. rewrite E in Hsorted.
  apply sorted_pairwise in Hsorted. unfold directed in Hsorted.
  destruct asc; exact Hsorted.
Qed.


(** X24: sorted by run id or by result id, the rows of every group stand in
    the order of the numbers, not of their decimal texts: ascending, no row
    stands after a row with a greater number, and descending, none after a
    row with a smaller one. *)
Theorem rows_sorted_by_number (w : World) (asc : bool) (data : ResultsListData.t) :
  reachable w ->
  getResultData (this w) = Normal data ->
  (sortBy (this w) = Some {| column := Some "runId"; ascending := asc |} ->
   forall g l1 a l2 b l3,
     In g (ResultsListData.groups data) ->
     ResultsListGroup.rows g = l1 ++ a :: l2 ++ b :: l3 ->
     if asc then numberOf (runId a) <= numberOf (runId b)
     else numberOf (runId b) <= numberOf (runId a))
  /\ (sortBy (this w) = Some {| column := Some "resultId"; ascending := asc |} ->
      forall g l1 a l2 b l3,
        In g (ResultsListData.groups data) ->
        ResultsListGroup.rows g = l1 ++ a :: l2 ++ b :: l3 ->
        if asc then numberOf (resultId a) <= numberOf (resultId b)
        else numberOf (resultId b) <= numberOf (resultId a)).
Proof.
  intros Hw Hd. split; intros Hsb g l1 a l2 b l3 Hg E.
  - destruct (rows_sorted_by_key runIdKey compareRows_runId Hw Hsb Hd g Hg) as [Hsorted _].
    unfold sortedByKey in Hsorted. rewrite E in Hsorted.
    apply sorted_pairwise in Hsorted.
    unfold directed, positionLe, runIdKey in Hsorted. simpl in Hsorted.
    destruct asc; lia.
  - destruct (rows_sorted_by_key resultIdKey compareRows_resultId Hw Hsb Hd g Hg) as [Hsorted _].
    unfold sortedByKey in Hsorted. rewrite E in Hsorted.
    apply sorted_pairwise in Hsorted.
    unfold directed, positionLe, resultIdKey in Hsorted. simpl in Hsorted.
    destruct asc; lia.
Qed.

Lemma rowKey_value c row k :
  ~ groupsByFile c -> rowKey c row = Some k ->
  exists v, cellOf c row = Some v /\ k = value v.
Proof.
  unfold rowKey, groupsByFile. intros Hf.
  destruct (cellOf c row) as [v|]; [|discriminate].
  intros [= <-]. exists v. split; [reflexivity|].
  unfold groupingKey. destruct (groupBy c) as [g|]; [|reflexivity].
  destruct (String.eqb_spec g "sarifFile") as [->|_]; [tauto|].
  destruct (String.eqb_spec g "resultFile") as [->|_]; [tauto|reflexivity].
Qed.

Lemma Grouped_value_key c ids gm k g :
  ~ groupsByFile c -> Grouped c ids gm -> mapGet JsVal_eqb gm k = Some g ->
  k = ResultsListGroup.text g.
Proof.
  intros Hf HG Hk.
  destruct (grouped_rows HG _ Hk) as [Hrows [r0 [rest [v0 [Hhd [Hc0 [Htx _]]]]]]].
  assert (Hin : In r0 (rowsWithKey c k ids)) by (rewrite <- Hrows, Hhd; now left).
  unfold rowsWithKey in Hin. apply filter_In in Hin. destruct Hin as [_ Hkey].
  apply keyIs_rowKey in Hkey.
  destruct (rowKey_value _ Hf Hkey) as [v [Hv ->]].
  rewrite Htx. congruence.
Qed.

(** X25: with a group-by other than the two file columns, rows are
    grouped by the display value of that cell.  In a returned data set
    every stored row named by the filtered list is in the group whose text
    is its value; all rows of a group have the group's text as value; and
    no two groups have the same text. *)
Theorem groups_keyed_by_display_value (c : Controller) (data : ResultsListData.t) :
  ~ groupsByFile c ->
  getResultData c = Normal data ->
  let groups := ResultsListData.groups data in
  (forall row, In row (memberRows c (postFilterListRows c)) ->
     exists v g, cellOf c row = Some v /\ In g groups
                 /\ In row (ResultsListGroup.rows g)
                 /\ ResultsListGroup.text g = value v)
  /\ (forall g row v, In g groups -> In row (ResultsListGroup.rows g) ->
        cellOf c row = Some v -> value v = ResultsListGroup.text g)
  /\ NoDup (map ResultsListGroup.text groups).
Proof.
  intros Hf Hd groups.
  destruct (getResultData_spec _ Hd) as [gm [gs [HG [Hp [Hs _]]]]].
  fold groups in Hs.
  split; [|split].
  - intros row Hmem.
    destruct (grouped_all HG row Hmem) as [k [Hkey Hk]].
    destruct (@In_keys_mapGet _ _ _ JsVal_eqb_spec gm k Hk) as [g0 Hg0].
    destruct (rowKey_value row Hf Hkey) as [v [Hv Hkv]].
    destruct (grouped_rows HG _ Hg0) as [Hrows _].
    assert (Hin0 : In g0 (mapValues gm))
      by (eapply mapGet_In_values; [apply JsVal_eqb_spec|eauto]).
    apply (Permutation_in _ Hp) in Hin0.
    destruct (Forall2_In_l g0 Hs Hin0) as [g [Hg [Hperm [Ht _]]]].
    exists v, g. repeat split; auto.
    + apply (Permutation_in _ Hperm). rewrite Hrows. unfold rowsWithKey.
      apply filter_In. split; [assumption|]. now apply keyIs_rowKey.
    + rewrite Ht, <- (Grouped_value_key k Hf HG Hg0). exact Hkv.
  - intros g row v Hg Hrow Hv.
    destruct (Forall2_In_r g Hs Hg) as [g0 [Hg0 [Hperm [Ht _]]]].
    apply (Permutation_in _ (Permutation_sym Hp)) in Hg0.
    destruct (In_mapValues_mapGet JsVal_eqb JsVal_eqb_spec gm g0 (grouped_keys HG) Hg0)
      as [k Hk].
    destruct (grouped_rows HG _ Hk) as [Hrows _].
    apply (Permutation_in _ (Permutation_sym Hperm)) in Hrow.
    rewrite Hrows in Hrow. unfold rowsWithKey in Hrow.
    apply filter_In in Hrow. destruct Hrow as [_ Hkey].
    apply keyIs_rowKey in Hkey.
    destruct (rowKey_value row Hf Hkey) as [v' [Hv' Heq]].
    rewrite Ht, <- (Grouped_value_key k Hf HG Hk). congruence.
  - assert (Htexts : map ResultsListGroup.text groups = map ResultsListGroup.text gs).
    { clear -Hs. induction Hs as [|g g' t t' [_ [Ht _]] _ IH]; simpl; [reflexivity|].
      now rewrite Ht, IH. }
    rewrite Htexts.
    apply (Permutation_NoDup (Permutation_map _ Hp)).
    rewrite <- (mapKeys_by_value ResultsListGroup.text gm).
    + apply HG.
    + intros k g Hin. eapply Grouped_value_key; eauto.
      apply mapGet_of_entry; [apply JsVal_eqb_spec|apply HG|exact Hin].
Qed.

End RowOrder.

(** ** Batches *)

Section Batches.
Context {runtime : JsRuntime} {enums : SarifEnums}.

Lemma forEachM_app {A} (f : A -> M unit) l1 l2 w :
  forEachM f (l1 ++ l2) w
  = match forEachM f l1 w with
    | (Normal _, w1) => forEachM f l2 w1
    | (Throw e, w1) => (Throw e, w1)
    end.
Proof.
  revert w. induction l1 as [|x t IH]; intros w; simpl; [reflexivity|].
  unfold bind. destruct (f x w) as [[[]|e] w1]; [apply IH|reflexivity].
Qed.

Lemma forEachM_updateDiag_filter regEx l w :
  sameFilter (this w) (this (snd (forEachM (updateDiag regEx) l w))).
Proof.
  apply (forEachM_preserves (fun w' => sameFilter (this w) (this w')));
    [|unfold sameFilter; auto].
  intros d w1 [H1 H2]. destruct (updateDiag_frame regEx d w1) as [_ [_ [H3 H4]]].
  unfold sameFilter. split; congruence.
Qed.

(** X26: a batch is taken in one diagnostic after the other, with nothing
    held back: handling the batch [l1 ++ l2] is handling [l1] and then, if
    that returned, handling [l2] in the world it left.  So when a
    diagnostic makes the update raise (its run is unknown), the rows of the
    diagnostics before it stay in the table, and those after it are not
    looked at. *)
Theorem batch_is_handled_in_sequence
  (l1 l2 : list SarifViewerDiagnostic) (remove : option bool) (w : World) :
  updateResultsListData (l1 ++ l2) remove w
  = match updateResultsListData l1 remove w with
    | (Normal _, w1) => updateResultsListData l2 remove w1
    | (Throw e, w1) => (Throw e, w1)
    end.
Proof.
  assert (Hupd : forall l w0,
            (c <- getThis ;;
             regEx <- lift (generateFilterRegExp c) ;;
             forEachM (updateDiag regEx) l) w0
            = match generateFilterRegExp (this w0) with
              | Normal regEx => forEachM (updateDiag regEx) l w0
              | Throw e => (Throw e, w0)
              end).
  { intros l w0. unfold bind, getThis, lift.
    destruct (generateFilterRegExp (this w0)); reflexivity. }
  assert (Hseq : (c <- getThis ;;
                  regEx <- lift (generateFilterRegExp c) ;;
                  forEachM (updateDiag regEx) (l1 ++ l2)) w
                 = match (c <- getThis ;;
                          regEx <- lift (generateFilterRegExp c) ;;
                          forEachM (updateDiag regEx) l1) w with
                   | (Normal _, w1) =>
                       (c <- getThis ;;
                        regEx <- lift (generateFilterRegExp c) ;;
                        forEachM (updateDiag regEx) l2) w1
                   | (Throw e, w1) => (Throw e, w1)
                   end).
  { rewrite !Hupd.
    destruct (generateFilterRegExp (this w)) as [regEx|e] eqn:Hre; [|reflexivity].
    rewrite forEachM_app.
    pose proof (forEachM_updateDiag_filter regEx l1 w) as [Hft Hfc].
    destruct (forEachM (updateDiag regEx) l1 w) as [[[]|e] w1]; [|reflexivity].
    simpl in Hft, Hfc. rewrite Hupd.
    rewrite (generateFilterRegExp_eq (this w1)), Hft, Hfc, <- generateFilterRegExp_eq, Hre.
    reflexivity. }
  unfold updateResultsListData.
  destruct remove as [[|]|]; [apply forEachM_app|exact Hseq|exact Hseq].
Qed.

End Batches.
(** ** Concrete runs *)

Import Scenario.
Import Runs.

(** The unbalanced pattern ["("] is rejected by the pattern fragment. *)
Lemma unbalanced_paren_invalid : invalidPattern "(".
Proof. intros flags [-> | ->]; eexists; reflexivity. Defined.

(** Against C1 as stated: with the filter text ["("] the filter-apply
    message raises a SyntaxError through onResultsListMessage, and so does a
    filter-case-toggle that follows it. *)
Lemma filter_apply_unbalanced_paren_throws :
  let w := loaded (settings "ruleId" "ruleName" true)
             [d11; d12] in
  let out := onResultsListMessage (ResultsListFilterApplied "(") w in
  fst out = Throw (SyntaxError "Unterminated group")
  /\ fst (onResultsListMessage ResultsListFilterCaseToggled (snd out))
     = Throw (SyntaxError "Unterminated group").
Proof. vm_compute. split; reflexivity. Qed.

Lemma invalid_filter_pattern_raises_witness :
  let w := loaded (settings "ruleId" "ruleName" true)
             [d11; d12] in
  exists e,
    onResultsListMessage (ResultsListFilterApplied " ( ") w
    = (Throw e, setThis (setPostFilterListRows [] (setFilterText "(" (this w))) w).
Proof.
  cbv zeta.
  apply (proj1 (invalid_filter_pattern_raises _ " ( ")).
  - vm_compute. discriminate.
  - vm_compute. discriminate.
  - exact unbalanced_paren_invalid.
Defined.

Lemma filter_apply_trims_and_skips_same_text_witness :
  let w := loaded (settings "ruleId" "ruleName" true)
             [d11; d12] in
  onResultsListMessage (ResultsListFilterApplied "   ") w = (Normal tt, w).
Proof.
  cbv zeta.
  apply (proj1 (filter_apply_trims_and_skips_same_text _ "   ")).
  reflexivity.
Defined.

(** Against C2 as stated: selecting a row whose identity the diagnostic
    collection does not resolve raises a TypeError to the caller. *)
Lemma row_select_unresolved_throws :
  let w := loaded (settings "ruleId" "ruleName" true)
             [d11; d12] in
  onResultsListMessage
    (ResultsListResultSelected {| selectedResultId := 7; selectedRunId := 1 |}) w
  = (Throw (TypeError "Cannot read property 'resultInfo' of undefined"), w).
Proof. vm_compute. reflexivity. Qed.

Lemma row_select_keeps_state_but_raises_when_unresolved_witness :
  let w := resolving
             (loaded (settings "ruleId" "ruleName" true)
                [d11; d12]) in
  (exists e,
     onResultsListMessage
       (ResultsListResultSelected {| selectedResultId := 7; selectedRunId := 1 |}) w
     = (Throw e, w))
  /\ onResultsListMessage
       (ResultsListResultSelected {| selectedResultId := 1; selectedRunId := 1 |}) w
     = (Normal tt,
        setRevealed (revealed w ++ [locationAt "/x/a.c" "a.c" 2 5]) w).
Proof.
  cbv zeta. split.
  - apply (proj1 (proj2 (proj2 (proj2
      (row_select_keeps_state_but_raises_when_unresolved _ {| selectedResultId := 7; selectedRunId := 1 |}))))).
    reflexivity.
  - apply (proj2 (proj2 (proj2 (proj2
      (row_select_keeps_state_but_raises_when_unresolved _ {| selectedResultId := 1; selectedRunId := 1 |}))))
      d11); reflexivity.
Defined.

Lemma applyFilterToRow_any_of_six_fields_witness :
  let c := this (loaded (settings "ruleId" "ruleName" true)
                   [d11; d12]) in
  exists regExp,
    generateFilterRegExp c = Normal regExp
    /\ forall row, applyFilterToRow row regExp = true.
Proof.
  cbv zeta.
  eapply (proj2 (proj2 (proj2 (applyFilterToRow_any_of_six_fields _
    {| message := inheritedMember; resultId := inheritedMember;
       ruleId := inheritedMember; ruleName := inheritedMember;
       runId := inheritedMember; sarifFile := inheritedMember;
       severityLevel := inheritedMember; resultFile := inheritedMember;
       resultStartPos := inheritedMember |})))).
  reflexivity.
Defined.

(** Against C5 as stated: the row of result 2 has no rule name.  Under the
    filter text [undef] it passes, and it is the one row listed, though
    none of its six cells displays a text the pattern matches: the cell
    without display value is tested as the text [undefined]. *)
Lemma undefined_cell_passes_undef_filter :
  let w := loaded (settings "ruleId" "ruleName" true) [d11; d12; d13] in
  let c := this (snd (onResultsListMessage (ResultsListFilterApplied "undef") w)) in
  match mapGet String.eqb (resultsListRows c) "1_2", generateFilterRegExp c with
  | Some row, Normal regExp =>
      map value (filterFields row)
      = [VStr "second"; VStr "R1"; VUndefined; VStr "warning"; VStr "a.c";
         VStr "scan.sarif"]
      /\ existsb (displayMatches regExp) (filterFields row) = false
      /\ applyFilterToRow row regExp = true
      /\ postFilterListRows c = ["1_2"]
  | _, _ => False
  end.
Proof. vm_compute. repeat split. Qed.

(** C3 at a failing input: three rows are listed; removing the first one
    deletes that row alone from the table, but the splice without a delete
    count empties the filtered list, so the two other ids, whose rows are
    still stored, are no longer listed. *)
Theorem remove_first_row_drops_later_ids :
  let w := loaded (settings "ruleId" "ruleName" true) [d11; d12; d13] in
  let w' := snd (updateResultsListData [d11] (Some true) w) in
  postFilterListRows (this w) = ["1_1"; "1_2"; "1_3"]
  /\ mapKeys (resultsListRows (this w')) = ["1_2"; "1_3"]
  /\ postFilterListRows (this w') = [].
Proof. vm_compute. repeat split. Qed.

(** C4 at a failing input: after the same removal, under the empty filter,
    the data set reports two results and both stored rows pass the filter,
    yet the groups hold no row at all. *)
Theorem projection_after_removal_misses_passing_rows :
  let w := loaded (settings "ruleId" "ruleName" true) [d11; d12; d13] in
  let c := this (snd (updateResultsListData [d11] (Some true) w)) in
  match getResultData c, generateFilterRegExp c with
  | Normal data, Normal regEx =>
      ResultsListData.resultCount data = 2
      /\ ResultsListData.groups data = []
      /\ mapKeys (resultsListRows c) = ["1_2"; "1_3"]
      /\ passing c regEx = ["1_2"; "1_3"]
  | _, _ => False
  end.
Proof. vm_compute. repeat split. Qed.

(** C6 at a failing input: sorting by rule name, a row named [abc] against
    a row without rule name.  With the undefined value as first operand the
    comparator answers "less"; with the undefined value as second operand
    it answers "less" as well, for the defined value, in either direction
    of the sort: only the first operand is tested for an undefined value.
    Sorting the two rows then puts the row without rule name first both
    ascending and descending. *)
Theorem compareRows_text_before_undefined :
  let up := Some {| column := Some "ruleName"; ascending := true |} in
  let down := Some {| column := Some "ruleName"; ascending := false |} in
  let w := blank (settings "ruleId" "ruleName" true) in
  match createResultsListRow w (resultInfo d11), createResultsListRow w (resultInfo d12) with
  | Normal a, Normal b =>
      value (ruleName a) = VStr "abc"
      /\ value (ruleName b) = VUndefined
      /\ compareRows up a b = Normal (Num (-1))
      /\ compareRows up b a = Normal (Num (-1))
      /\ compareRows down a b = Normal (Num (-1))
      /\ compareRows down b a = Normal (Num (-1))
      /\ arraySort (compareRows up) [a; b] = Normal [b; a]
      /\ arraySort (compareRows down) [a; b] = Normal [b; a]
  | _, _ => False
  end.
Proof. vm_compute. repeat split. Qed.

(** Against C8 as stated: two rows in one group and a sort column that is
    no property of a row; building the data set raises a TypeError. *)
Lemma unknown_sort_column_throws :
  getResultData (this (loaded (settings "ruleId" "nope" true) [d11; d12]))
  = Throw (TypeError "Cannot read property 'value' of undefined").
Proof. vm_compute. reflexivity. Qed.

Lemma unresolved_sort_column_raises_on_first_comparison_witness :
  (exists e,
     getResultData (this (loaded (settings "ruleId" "nope" true) [d11; d12])) = Throw e)
  /\ (exists gs',
        arraySort compareGroups
          (groupsOf (this (loaded (settings "resultFile" "nope" true) [d11; d12])))
        = Normal gs').
Proof.
  split.
  - apply (proj1 (unresolved_sort_column_raises_on_first_comparison
                    (this (loaded (settings "ruleId" "nope" true) [d11; d12]))
                    (gs := groupsOf (this (loaded (settings "ruleId" "nope" true) [d11; d12])))
                    (fun row => eq_refl)
                    ltac:(vm_compute; reflexivity))).
    vm_compute. apply Exists_cons_hd. repeat constructor.
  - destruct (proj2 (unresolved_sort_column_raises_on_first_comparison
                    (this (loaded (settings "resultFile" "nope" true) [d11; d12]))
                    (gs := groupsOf (this (loaded (settings "resultFile" "nope" true) [d11; d12])))
                    (fun row => eq_refl)
                    ltac:(vm_compute; reflexivity)))
      as [gs' [H _]]; [|exists gs'; exact H].
    vm_compute. repeat constructor.
Defined.

Lemma loaded_reachable cfg diags : reachable (loaded cfg diags).
Proof. unfold loaded, started. apply reach_update, reach_construct. Defined.

Lemma postFilterListRows_NoDup_witness :
  NoDup (postFilterListRows
           (this (loaded (settings "ruleId" "ruleName" true) [d11; d12; d13]))).
Proof.
  refine (proj1 (postFilterListRows_NoDup
                   (w := loaded (settings "ruleId" "ruleName" true) [d11; d12; d13]) _)).
  apply loaded_reachable.
Defined.

Lemma file_groups_keyed_by_full_path_witness :
  firstGroup (this byFile) <> secondGroup (this byFile).
Proof.
  refine (proj1 (proj2 (proj2 (proj2 (proj2
            (file_groups_keyed_by_full_path (c := this byFile) _ _))
            (dataOf (this byFile)) _)))
            (firstGroup (this byFile)) (secondGroup (this byFile))
            (rowOf byFile d11) (rowOf byFile d12) _ _ _ _ _ _).
  - apply reachable_Inv. unfold byFile. apply loaded_reachable.
  - right. vm_compute. reflexivity.
  - vm_compute. reflexivity.
  - vm_compute. left; reflexivity.
  - vm_compute. right; left; reflexivity.
  - vm_compute. left; reflexivity.
  - vm_compute. left; reflexivity.
  - vm_compute. reflexivity.
  - vm_compute. discriminate.
Defined.

(** The two rows [a.c] of [/x] and the row [a.c] of [/y], grouped by result
    file: two groups, the larger first, both labelled [a.c]. *)
Example same_name_different_path :
  match getResultData
          (this (loaded (settings "resultFile" "resultStartPos" true) [d11; d12; d13]))
  with
  | Normal data =>
      map (fun g => (ResultsListGroup.text g, ResultsListGroup.tooltip g,
                     map (fun r => value (resultId r)) (ResultsListGroup.rows g)))
          (ResultsListData.groups data)
      = [(VStr "a.c", Some "/x/a.c", [VNum 1; VNum 3]);
         (VStr "a.c", Some "/y/a.c", [VNum 2])]
  | Throw _ => False
  end.
Proof. vm_compute. reflexivity. Qed.

(** A sort column that names an inherited member, such as [toString], is no
    field of a row either, but reading it gives an object without [value]:
    the comparator answers 0 and the rows keep their order. *)
Example inherited_sort_column_keeps_order :
  match getResultData (this (loaded (settings "ruleId" "toString" true) [d11; d12; d13]))
  with
  | Normal data =>
      map (fun g => map (fun r => value (resultId r)) (ResultsListGroup.rows g))
          (ResultsListData.groups data)
      = [[VNum 1; VNum 2; VNum 3]]
  | Throw _ => False
  end.
Proof. vm_compute. reflexivity. Qed.

(** The filter text is trimmed and, until case is to be matched, matched in
    any case: [" SEC "] lists the row whose message is [second]; toggling
    the case setting then lists none. *)
Example filter_folds_case :
  let w := loaded (settings "ruleId" "ruleName" true) [d11; d12; d13] in
  let w1 := snd (onResultsListMessage (ResultsListFilterApplied " SEC ") w) in
  let w2 := snd (onResultsListMessage ResultsListFilterCaseToggled w1) in
  filterText (this w1) = "SEC"
  /\ postFilterListRows (this w1) = ["1_2"]
  /\ postFilterListRows (this w2) = []
  /\ List.length (explorerData w2) = S (S (List.length (explorerData w))).
Proof. vm_compute. repeat split. Qed.

(** Positions sort by line, then by column, and descending reverses them. *)
Example positions_sort_both_ways :
  match getResultData (this (loaded (settings "ruleId" "resultStartPos" true) [d13; d12; d11])),
        getResultData (this (loaded (settings "ruleId" "resultStartPos" false) [d13; d12; d11]))
  with
  | Normal up, Normal down =>
      map (fun g => map (fun r => value (resultStartPos r)) (ResultsListGroup.rows g))
          (ResultsListData.groups up)
      = [[VStr "(3, 6)"; VStr "(3, 10)"; VStr "(8, 2)"]]
      /\ map (fun g => map (fun r => value (resultStartPos r)) (ResultsListGroup.rows g))
             (ResultsListData.groups down)
         = [[VStr "(8, 2)"; VStr "(3, 10)"; VStr "(3, 6)"]]
  | _, _ => False
  end.
Proof. vm_compute. repeat split. Qed.

(** ** Concrete runs of the further properties *)

Lemma reachable_three : reachable three.
Proof. unfold three. apply loaded_reachable. Defined.

Lemma reachable_sortedBy col asc : reachable (sortedBy col asc).
Proof. unfold sortedBy. apply loaded_reachable. Defined.

Lemma view_messages_only_write_settings_witness :
  this (snd (onResultsListMessage (ResultsListGroupChanged "ruleName") three)) = this three.
Proof.
  apply (proj1 (view_messages_only_write_settings
                  (ResultsListGroupChanged "ruleName") three eq_refl)).
Defined.

Lemma onSettingsChanged_adopts_settings_witness :
  groupBy (this (snd (onSettingsChanged None
                        (snd (onResultsListMessage (ResultsListGroupChanged "ruleName")
                                three)))))
  = Some "ruleName".
Proof.
  refine (proj1 (proj1 (onSettingsChanged_adopts_settings None
                          (snd (onResultsListMessage (ResultsListGroupChanged "ruleName")
                                  three))) _)).
  discriminate.
Defined.

Lemma columns_layout_is_fixed_witness :
  map fst (columns (this three))
  = ["message"; "resultFile"; "resultStartPos"; "ruleId"; "ruleName"; "runId";
     "sarifFile"; "severityLevel"].
Proof. apply (proj2 (columns_layout_is_fixed reachable_three)). Defined.

Lemma column_toggle_flips_setting_witness :
  resultsListHideColumns
    (sarifConfig (snd (onResultsListMessage (ResultsListColumnToggled "ruleId") three)))
  = ["ruleId"]
  /\ snd (onResultsListMessage (ResultsListColumnToggled "ruleId")
            (snd (onResultsListMessage (ResultsListColumnToggled "ruleId") three)))
     = three.
Proof.
  refine (proj1 (proj2 (proj2 (proj2
            (column_toggle_flips_setting "ruleId" three)))) _).
  vm_compute. intros [].
Defined.

Lemma sort_change_flips_or_resets_witness :
  resultsListSortBy
    (sarifConfig (snd (onResultsListMessage (ResultsListSortChanged "ruleName") three)))
  = Some {| column := Some "ruleName"; ascending := false |}
  /\ snd (onResultsListMessage (ResultsListSortChanged "ruleName")
            (snd (onResultsListMessage (ResultsListSortChanged "ruleName") three)))
     = three.
Proof.
  refine (proj1 (proj2 (proj2 (proj2 (proj2
            (proj2 (sort_change_flips_or_resets "ruleName" three)
               {| column := Some "ruleName"; ascending := true |} _))))) _).
  - vm_compute. reflexivity.
  - reflexivity.
Defined.


Lemma update_then_lookup_witness :
  mapGet String.eqb
    (resultsListRows (this (snd (updateResultsListData [d13] None two)))) (diagId d13)
  = Some (rowOf two d13).
Proof.
  refine (proj1 (proj2 (update_then_lookup two d13 (remove := None)
                          (regEx := filterOf (this two)) (row := rowOf two d13) _ _ _))).
  - discriminate.
  - vm_compute. reflexivity.
  - vm_compute. reflexivity.
Defined.

Lemma update_is_idempotent_witness :
  snd (updateResultsListData [d12] None (snd (updateResultsListData [d12] None three)))
  = snd (updateResultsListData [d12] None three).
Proof.
  refine (update_is_idempotent three d12 (remove := None) _).
  discriminate.
Defined.

Lemma update_then_remove_restores_witness :
  snd (updateResultsListData [d13] (Some true) (snd (updateResultsListData [d13] None two)))
  = two.
Proof.
  refine (update_then_remove_restores two d13 (remove := None) _ _ _).
  - discriminate.
  - vm_compute. intros [H|[H|[]]]; discriminate H.
  - vm_compute. intros [H|[H|[]]]; discriminate H.
Defined.

Lemma removal_returns_and_forgets_the_id_witness :
  ~ In (diagId d12)
       (mapKeys (resultsListRows (this (snd (updateResultsListData [d12] (Some true) three))))).
Proof.
  refine (proj1 (proj2 (removal_returns_and_forgets_the_id three [d12] d12) _)).
  exact reachable_three.
Defined.

Lemma table_is_keyed_by_identity_witness :
  exists row, mapGet String.eqb (resultsListRows (this three)) (diagId d12) = Some row.
Proof.
  refine (proj1 (table_is_keyed_by_identity reachable_three) (diagId d12) _).
  vm_compute. right; left; reflexivity.
Defined.

Lemma row_ids_are_injective_witness :
  mapGet String.eqb
    (resultsListRows (this (snd (updateResultsListData [d13] None two)))) (diagId d11)
  = mapGet String.eqb (resultsListRows (this two)) (diagId d11).
Proof.
  refine (proj2 (row_ids_are_injective d13 d11) two None _).
  right. vm_compute. discriminate.
Defined.

Lemma filter_apply_lists_passing_rows_witness :
  postFilterListRows (this filtered)
  = passing (this filtered) (filterOf (setFilterText "sec" (this three))).
Proof.
  refine (proj1 (proj2 (proj2 (proj2
            (filter_apply_lists_passing_rows three "sec"
               (regEx := filterOf (setFilterText "sec" (this three))) _ _))))).
  - vm_compute. discriminate.
  - vm_compute. reflexivity.
Defined.

Lemma case_toggle_twice_refilters_witness :
  postFilterListRows
    (this (snd (onResultsListMessage ResultsListFilterCaseToggled
                  (snd (onResultsListMessage ResultsListFilterCaseToggled filtered)))))
  = passing (this filtered) (filterOf (this filtered)).
Proof.
  refine (proj2 (proj2 (proj2 (proj2
            (case_toggle_twice_refilters filtered (filterOf (this filtered))))))  _).
  vm_compute. reflexivity.
Defined.

Lemma clearing_the_filter_lists_every_row_witness :
  postFilterListRows
    (this (snd (onResultsListMessage (ResultsListFilterApplied "  ") filtered)))
  = mapKeys (resultsListRows (this filtered)).
Proof.
  refine (proj2 (proj2 (clearing_the_filter_lists_every_row filtered "  " _ _))).
  - reflexivity.
  - vm_compute. discriminate.
Defined.

Lemma getResultData_empty_list_and_unknown_group_witness :
  exists e,
    getResultData (this (loaded (settings "nope" "ruleName" true) [d11; d12])) = Throw e.
Proof.
  refine (proj2 (getResultData_empty_list_and_unknown_group
                   (this (loaded (settings "nope" "ruleName" true) [d11; d12]))) _ _).
  - vm_compute. discriminate.
  - vm_compute. reflexivity.
Defined.

Lemma posting_returns_in_reachable_worlds_witness :
  exists data,
    postDataToExplorer three
    = (Normal tt, setExplorerData (explorerData three ++ [data]) three)
    /\ data = dataWith (this three) (ResultsListData.groups data)
    /\ ResultsListData.resultCount data = mapSize (resultsListRows (this three))
    /\ totalRows (ResultsListData.groups data)
       = List.length (postFilterListRows (this three)).
Proof.
  refine (posting_returns_in_reachable_worlds (w := three)
            (sb := {| column := Some "ruleName"; ascending := true |})
            reachable_three _ _ _).
  - vm_compute. reflexivity.
  - vm_compute. reflexivity.
  - vm_compute. reflexivity.
Defined.

Lemma groups_come_largest_first_witness :
  StronglySorted
    (fun a b => (List.length (ResultsListGroup.rows b)
                 <= List.length (ResultsListGroup.rows a))%nat)
    (ResultsListData.groups
       (dataOf (this (loaded (settings "resultFile" "ruleName" true) [d12; d11; d13])))).
Proof.
  refine (proj1 (groups_come_largest_first
                   (this (loaded (settings "resultFile" "ruleName" true)
                            [d12; d11; d13])) _)).
  vm_compute. reflexivity.
Defined.

Lemma rows_sorted_by_position_witness :
  positionLe (positionOf (rowOf (sortedBy "resultStartPos" true) d11))
             (positionOf (rowOf (sortedBy "resultStartPos" true) d12)).
Proof.
  refine (proj1 (rows_sorted_by_position (w := sortedBy "resultStartPos" true) (asc := true)
                   (reachable_sortedBy _ _) _ _
                   (firstGroup (this (sortedBy "resultStartPos" true))) _)
            [] (rowOf (sortedBy "resultStartPos" true) d11)
            [] (rowOf (sortedBy "resultStartPos" true) d12)
            [rowOf (sortedBy "resultStartPos" true) d13] _).
  - vm_compute. reflexivity.
  - vm_compute. reflexivity.
  - vm_compute. left; reflexivity.
  - vm_compute. reflexivity.
Defined.


Lemma rows_sorted_by_number_witness :
  numberOf (resultId (rowOf (sortedBy "resultId" true) d11))
  <= numberOf (resultId (rowOf (sortedBy "resultId" true) d13)).
Proof.
  refine (proj2 (rows_sorted_by_number (w := sortedBy "resultId" true) true
                   (reachable_sortedBy _ _) _) _
            (firstGroup (this (sortedBy "resultId" true)))
            [] (rowOf (sortedBy "resultId" true) d11)
            [rowOf (sortedBy "resultId" true) d12]
            (rowOf (sortedBy "resultId" true) d13) [] _ _).
  - vm_compute. reflexivity.
  - vm_compute. reflexivity.
  - vm_compute. left; reflexivity.
  - vm_compute. reflexivity.
Defined.

Lemma groups_keyed_by_display_value_witness :
  NoDup (map ResultsListGroup.text (ResultsListData.groups (dataOf (this three)))).
Proof.
  refine (proj2 (proj2 (groups_keyed_by_display_value (c := this three) _ _))).
  - intros [H|H]; vm_compute in H; discriminate H.
  - vm_compute. reflexivity.
Defined.

(** Rows of severity note, warning, error, loaded in that order and sorted by
    severity descending, keep that order: the rank of note is the highest. *)
Example severity_descending :
  map (fun g => map (fun r => value (severityLevel r)) (ResultsListGroup.rows g))
      (ResultsListData.groups (dataOf (this (sortedBy "severityLevel" false))))
  = [[VStr "note"; VStr "warning"; VStr "error"]].
Proof. vm_compute. reflexivity. Qed.
